(** * Pulse module-extraction agent: crawl-and-infer pipeline

    A shallow embedding of [src/utils.py], [src/cleaner.py],
    [src/inference.py], [src/crawler.py], [src/pipeline.py] and the
    extraction endpoint of [src/api.py], followed by the properties of
    the specification that are settled against it and by further
    properties of the code.

    Conventions of the embedding.
    - A Python [str] is a [string]; a character is a code point below 256.
    - A Python [int] is a [Z]; a Python [float] is a binary64 [float].
    - An insertion-ordered [dict] that is iterated is an association list
      whose keys are distinct; a [dict] that is only looked up is a [gmap];
      a [set] is a [gset].
    - An exception is the [Raise] outcome of [result]; a collaborator that
      lives outside the repository (the HTML parser, the HTTP transport,
      the sequence matcher) is a section variable. *)

From Stdlib Require Import ZArith Lia List String Ascii Floats.
From stdpp Require Import gmap strings list sorting.

Set Warnings "-inexact-float,-register-all,-notation-for-abbreviation".

(** ** Outcomes of code that may raise *)

Inductive result (A : Type) : Type :=
| Ok (a : A)
| Raise.

Arguments Ok {A} a.
Arguments Raise {A}.

Definition rbind {A B : Type} (r : result A) (k : A -> result B) : result B :=
  match r with
  | Ok a => k a
  | Raise => Raise
  end.

Notation "x <-! r ;; k" := (rbind r (fun x => k))
  (at level 100, r at next level, right associativity).

(** ** The string operations of Python that the sources call *)

Module Py.

(** [str.isspace] on one code point, for the code points below 256. *)
Definition isspace (c : ascii) : bool :=
  let n := N_of_ascii c in
  ((9 <=? n) && (n <=? 13) || (28 <=? n) && (n <=? 32) || (n =? 133) || (n =? 160))%N.

Definition isdigit (c : ascii) : bool :=
  let n := N_of_ascii c in ((48 <=? n) && (n <=? 57))%N.

(** [str.lower] on one code point below 256: the ASCII capitals and the
    Latin-1 capitals except the multiplication sign.  A string of this
    development is a sequence of code points below 256, and on those
    [str.lower] gives one code point for each one, and a pattern of ASCII
    letters matched with [re.IGNORECASE] matches as it does on the
    lower-cased text.  Neither holds of all text: the lower-cased form of
    U+0130 has two code points, and [re.IGNORECASE] lets [i] match U+0130
    and [s] match U+017F. *)
Definition lower_char (c : ascii) : ascii :=
  let n := N_of_ascii c in
  if ((65 <=? n) && (n <=? 90) || (192 <=? n) && (n <=? 222) && negb (n =? 215))%N
  then ascii_of_N (n + 32)
  else c.

Fixpoint lower (s : string) : string :=
  match s with
  | EmptyString => EmptyString
  | String c s' => String (lower_char c) (lower s')
  end.

Definition is_empty (s : string) : bool :=
  match s with
  | EmptyString => true
  | String _ _ => false
  end.

Fixpoint lstrip (s : string) : string :=
  match s with
  | EmptyString => EmptyString
  | String c s' => if isspace c then lstrip s' else s
  end.

Fixpoint rstrip (s : string) : string :=
  match s with
  | EmptyString => EmptyString
  | String c s' =>
      let r := rstrip s' in
      if isspace c && is_empty r then EmptyString else String c r
  end.

(** [s.strip()] *)
Definition strip (s : string) : string := rstrip (lstrip s).

(** [s.split()]: the maximal runs of non-whitespace characters. *)
Fixpoint split_from (cur : string) (s : string) : list string :=
  match s with
  | EmptyString => if is_empty cur then [] else [cur]
  | String c s' =>
      if isspace c
      then (if is_empty cur then split_from "" s' else cur :: split_from "" s')
      else split_from (cur +:+ String c "") s'
  end.

Definition split (s : string) : list string := split_from "" s.

(** [sep.join(l)] *)
Definition join (sep : string) (l : list string) : string := String.concat sep l.

(** [s[:n]] for a non-negative [n] *)
Fixpoint take (n : nat) (s : string) : string :=
  match n, s with
  | S n', String c s' => String c (take n' s')
  | _, _ => EmptyString
  end.

(** [l[:n]] for any integer [n]: a negative [n] counts from the end. *)
Definition slice_to {A : Type} (n : Z) (l : list A) : list A :=
  if (0 <=? n)%Z then firstn (Z.to_nat n) l
  else firstn (length l - Z.to_nat (- n)) l.

(** [len(s)] *)
Definition len (s : string) : Z := Z.of_nat (String.length s).

(** [c in s] for a character *)
Fixpoint contains (c : ascii) (s : string) : bool :=
  match s with
  | EmptyString => false
  | String d s' => Ascii.eqb c d || contains c s'
  end.

(** [all(p(c) for c in s)] and ["".join(c for c in s if p(c))] *)
Fixpoint string_forall (p : ascii -> bool) (s : string) : bool :=
  match s with
  | EmptyString => true
  | String c s' => p c && string_forall p s'
  end.

Fixpoint string_filter (p : ascii -> bool) (s : string) : string :=
  match s with
  | EmptyString => EmptyString
  | String c s' => if p c then String c (string_filter p s') else string_filter p s'
  end.

(** [max(a, b)] and [min(a, b)] on floats: the first argument is kept
    unless the second compares strictly greater (strictly smaller). *)
Definition fmax (a b : float) : float := if PrimFloat.ltb a b then b else a.
Definition fmin (a b : float) : float := if PrimFloat.ltb b a then b else a.

End Py.

(** ** [src/models.py] *)

Inductive Section : Type :=
  mkSection { level : Z; title : string; text : string; children : list Section }.

Record Submodule : Type := mkSubmodule {
  sub_name : string;
  sub_description : string;
  sub_source_urls : list string;
  sub_confidence : float
}.

Record Module_ : Type := mkModule {
  name : string;
  description : string;
  submodules : list Submodule;
  source_urls : list string;
  confidence : float
}.

(** ** [src/cleaner.py]: [build_sections]

    The Python function keeps every [Section] object alive in two places
    at once: in the tree hanging from [root] and on [stack], and it
    mutates the object on top of the stack.  The embedding makes that
    sharing explicit: objects live in a store and are named by their
    address (the index at which they were allocated); [root], [stack] and
    the [children] of an object hold addresses. *)

Record Obj : Type := mkObj {
  o_level : Z;
  o_title : string;
  o_text : string;
  o_children : list nat
}.

Record BuildState : Type := mkBuildState {
  bs_heap : list Obj;
  bs_root : list nat;
  bs_stack : list nat   (* the top of the stack is the head *)
}.

(** [level_map] *)
Definition level_map (tag : string) : option Z :=
  if String.eqb tag "h1" then Some 1%Z
  else if String.eqb tag "h2" then Some 2%Z
  else if String.eqb tag "h3" then Some 3%Z
  else if String.eqb tag "h4" then Some 4%Z
  else None.

Definition level_at (h : list Obj) (a : nat) : Z :=
  match h !! a with
  | Some o => o_level o
  | None => 0%Z
  end.

(** [while stack and stack[-1].level >= level: stack.pop()] *)
Fixpoint pop_while (h : list Obj) (lvl : Z) (stack : list nat) : list nat :=
  match stack with
  | [] => []
  | a :: rest => if (lvl <=? level_at h a)%Z then pop_while h lvl rest else stack
  end.

Definition add_child (c : nat) (o : Obj) : Obj :=
  mkObj (o_level o) (o_title o) (o_text o) (o_children o ++ [c]).

(** [stack[-1].text += (" " + text) if stack[-1].text else text] *)
Definition add_text (t : string) (o : Obj) : Obj :=
  mkObj (o_level o) (o_title o)
        (if Py.is_empty (o_text o) then t else o_text o +:+ " " +:+ t)
        (o_children o).

(** One iteration of [for tag, text in blocks]. *)
Definition build_step (st : BuildState) (block : string * string) : BuildState :=
  let '(tag, txt) := block in
  let h := bs_heap st in
  match level_map tag with
  | Some lvl =>
      let a := length h in
      let h1 := h ++ [mkObj lvl txt "" []] in
      let stack := pop_while h1 lvl (bs_stack st) in
      match stack with
      | p :: _ => mkBuildState (alter (add_child a) p h1) (bs_root st) (a :: stack)
      | [] => mkBuildState h1 (bs_root st ++ [a]) (a :: stack)
      end
  | None =>
      match bs_stack st with
      | p :: _ => mkBuildState (alter (add_text txt) p h) (bs_root st) (bs_stack st)
      | [] =>
          mkBuildState (h ++ [mkObj 1 "Overview" txt []])
                       (bs_root st ++ [length h]) []
      end
  end.

Definition build_loop (blocks : list (string * string)) : BuildState :=
  fold_left build_step blocks (mkBuildState [] [] []).

(** Reading the tree below an address back out of the store.  The fuel
    bounds the depth of the tree read; [None] is a dangling address or
    exhausted fuel. *)
Fixpoint read_section (fuel : nat) (h : list Obj) (a : nat) : option Section :=
  match fuel with
  | O => None
  | S fuel' =>
      match h !! a with
      | None => None
      | Some o =>
          match mapM (read_section fuel' h) (o_children o) with
          | None => None
          | Some cs => Some (mkSection (o_level o) (o_title o) (o_text o) cs)
          end
      end
  end.

(** [build_sections(blocks)]: the value of [root] when the loop ends. *)
Definition build_sections (blocks : list (string * string)) : option (list Section) :=
  let st := build_loop blocks in
  mapM (read_section (length (bs_heap st)) (bs_heap st)) (bs_root st).

Example build_sections_hierarchy :
  build_sections [("h1", "Module 1"); ("p", "Description");
                  ("h2", "Submodule 1.1"); ("p", "Sub description");
                  ("li", "more"); ("h1", "Module 2")]
  = Some [mkSection 1 "Module 1" "Description"
            [mkSection 2 "Submodule 1.1" "Sub description more" []];
          mkSection 1 "Module 2" "" []].
Proof. vm_compute. reflexivity. Qed.

(** ** [src/cleaner.py]: [summarize_text] *)

Definition sentence_end (c : ascii) : bool :=
  Ascii.eqb c "." || Ascii.eqb c "!" || Ascii.eqb c "?".

(** [re.split(r"(?<=[.!?])\s+", s)]: a separator is a maximal run of
    whitespace that directly follows one of [.!?].  [skipping] says that
    the scan is inside a separator, [after_end] that the previous
    character is one of [.!?], [cur] is the piece read so far. *)
Fixpoint split_sentences_from (skipping after_end : bool) (cur s : string) : list string :=
  match s with
  | EmptyString => [cur]
  | String c s' =>
      if Py.isspace c then
        if skipping then split_sentences_from true false cur s'
        else if after_end then cur :: split_sentences_from true false "" s'
        else split_sentences_from false false (cur +:+ String c "") s'
      else split_sentences_from false (sentence_end c) (cur +:+ String c "") s'
  end.

Definition split_sentences (s : string) : list string :=
  split_sentences_from false false "" s.

(** The sentences that survive [len(s.split()) >= 3]. *)
Definition real_sentences (text : string) : list string :=
  List.filter (fun s => (3 <=? length (Py.split s))%nat)
              (split_sentences (Py.strip text)).

(** The fallback of [summarize_text]:
    [text[:200].strip() + ("..." if len(text) > 200 else "")]. *)
Definition summary_fallback (text : string) : string :=
  Py.strip (Py.take 200 text)
  +:+ (if (200 <? Py.len text)%Z then "..." else "").

Definition summarize_text (text : string) (max_sentences : Z) : string :=
  if Py.is_empty text || Py.is_empty (Py.strip text) then ""
  else
    let sentences := real_sentences text in
    match sentences with
    | _ :: _ =>
        let summary := Py.strip (Py.join " " (Py.slice_to max_sentences sentences)) in
        if negb (Py.is_empty summary) then summary else summary_fallback text
    | [] => summary_fallback text
    end.

Example summarize_two_of_four :
  summarize_text "First sentence here. Second sentence here. Third sentence here." 2
  = "First sentence here. Second sentence here.".
Proof. vm_compute. reflexivity. Qed.

Example summarize_short : summarize_text "Short." 2 = "Short.".
Proof. vm_compute. reflexivity. Qed.

(** ** [src/utils.py]: [dedupe_preserve_order] *)

Fixpoint dedupe_loop (seen : gset string) (items : list string) : list string :=
  match items with
  | [] => []
  | item :: rest =>
      if decide (item ∈ seen) then dedupe_loop seen rest
      else item :: dedupe_loop ({[item]} ∪ seen) rest
  end.

Definition dedupe_preserve_order (items : list string) : list string :=
  dedupe_loop ∅ items.

Example dedupe_example :
  dedupe_preserve_order ["a"; "b"; "a"; "c"; "b"] = ["a"; "b"; "c"].
Proof. vm_compute. reflexivity. Qed.

(** ** Insertion-ordered dictionaries

    [module_sections], [grouped], [merged_modules] and [submodule_map] are
    iterated, and a Python [dict] iterates in insertion order: an entry
    that is updated keeps its place, a new key goes to the end. *)

Fixpoint alist_lookup {V : Type} (k : string) (d : list (string * V)) : option V :=
  match d with
  | [] => None
  | (k', v) :: rest => if String.eqb k k' then Some v else alist_lookup k rest
  end.

(** [d[k] = f(d[k])] on a [defaultdict] whose default value is [dflt]. *)
Fixpoint alist_update {V : Type} (dflt : V) (f : V -> V) (k : string)
    (d : list (string * V)) : list (string * V) :=
  match d with
  | [] => [(k, f dflt)]
  | (k', v) :: rest =>
      if String.eqb k k' then (k', f v) :: rest
      else (k', v) :: alist_update dflt f k rest
  end.

(** [d[k].extend(vs)] on a [defaultdict(list)] *)
Definition alist_extend {A : Type} (k : string) (vs : list A)
    (d : list (string * list A)) : list (string * list A) :=
  alist_update [] (fun old => old ++ vs) k d.

(** [d[k]] on a [defaultdict(set)] that is only read *)
Definition sources_of (d : gmap string (gset string)) (k : string) : gset string :=
  default ∅ (d !! k).

(** ** [src/inference.py] *)

(** [" ".join(title.lower().split())] *)
Definition normalize_title (t : string) : string :=
  Py.join " " (Py.split (Py.lower t)).

Definition starts_with_digit (s : string) : bool :=
  match s with
  | String c _ => Py.isdigit c
  | EmptyString => false
  end.

Fixpoint drop_digits (s : string) : string :=
  match s with
  | String c s' => if Py.isdigit c then drop_digits s' else s
  | EmptyString => EmptyString
  end.

Fixpoint drop (n : nat) (s : string) : string :=
  match n, s with
  | S n', String _ s' => drop n' s'
  | _, _ => s
  end.

(** [re.match] of the first two noise patterns: a prefix out of a list. *)
Definition noise_words_1 : list string :=
  ["home"; "menu"; "search"; "login"; "sign"; "account"; "profile"; "settings";
   "help"; "support"; "contact"; "about"; "privacy"; "terms"; "cookie"].

Definition noise_words_2 : list string :=
  ["skip"; "jump"; "back"; "next"; "previous"; "top"; "bottom"].

Definition match_words (words : list string) (s : string) : bool :=
  existsb (fun w => String.prefix w s) words.

(** [re.match(r"^(page \d+|page\d+|\d+ of \d+)", s)] *)
Definition match_pagination (s : string) : bool :=
  String.prefix "page " s && starts_with_digit (drop 5 s)
  || String.prefix "page" s && starts_with_digit (drop 4 s)
  || starts_with_digit s
     && (let r := drop_digits s in String.prefix " of " r && starts_with_digit (drop 4 r)).

Definition is_valid_module_title (t : string) : bool :=
  if Py.is_empty t || (Py.len t <? 3)%Z then false
  else
    let title_lower := Py.strip (Py.lower t) in
    if match_words noise_words_1 title_lower then false
    else if match_words noise_words_2 title_lower then false
    else if match_pagination title_lower then false
    else true.

Example valid_titles :
  map is_valid_module_title
      ["User Management"; "API Documentation"; "Overview"; ""; "Hi"; "Login"; "Home";
       "Skip to content"; "Page 12"; "3 of 10"]
  = [true; true; true; false; false; false; false; false; false; false].
Proof. vm_compute. reflexivity. Qed.

(** [infer_from_sections]: the sections with a valid title, grouped by
    title in order of first appearance. *)
Definition infer_from_sections (sections : list Section) (source_url : string)
    : list (string * list Section) :=
  fold_left
    (fun grouped section =>
       if negb (is_valid_module_title (title section)) then grouped
       else alist_extend (title section) [section] grouped)
    sections [].

Definition child_texts (section : Section) : list string :=
  map (fun child => Py.strip (text child))
      (List.filter (fun child => negb (Py.is_empty (Py.strip (text child))))
                   (firstn 5 (children section))).

Definition module_description (section : Section) : string :=
  let content := Py.strip (text section) in
  let full_content := Py.join " " (content :: child_texts section) in
  if Py.is_empty (Py.strip full_content)
  then "Module for " +:+ title section +:+ "."
  else summarize_text full_content 3.

Definition submodule_description (section : Section) : string :=
  if negb (Py.is_empty (Py.strip (text section)))
  then summarize_text (text section) 2
  else "Functionality related to " +:+ title section +:+ ".".

(** The float of a word count (a count is below [2^63]). *)
Definition float_of_count (n : nat) : float :=
  PrimFloat.of_uint63 (Uint63.of_Z (Z.of_nat n)).

Definition calculate_confidence (section : Section) (is_module : bool) : float :=
  let base := (if is_module then 0.6 else 0.5)%float in
  let text_length := length (Py.split (text section)) in
  let length_bonus := Py.fmin 0.2%float (float_of_count text_length * 0.01)%float in
  let structure_bonus :=
    match children section with
    | _ :: _ => 0.1%float
    | [] => 0%float
    end in
  let title_penalty :=
    (if (length (Py.split (title section)) <? 2)%nat then 0.1 else 0)%float in
  let confidence := (base + length_bonus + structure_bonus - title_penalty)%float in
  Py.fmin 0.95%float (Py.fmax 0.3%float confidence).

Section Inference.

(** [SequenceMatcher(None, a, b).ratio()] of [difflib]. *)
Variable ratio : string -> string -> float.

(** [extract_text_blocks(strip_noise(html))]: the blocks the HTML parser
    finds in a page, or [Raise] when it raises. *)
Variable html_blocks : string -> result (list (string * string)).

(** The body of the inner loop of [merge_similar_titles]. *)
Definition merge_pair (threshold : float) (title1 : string)
    (canonical : gmap string string) (title2 : string) : gmap string string :=
  let norm1 := normalize_title title1 in
  let norm2 := normalize_title title2 in
  let similarity := ratio norm1 norm2 in
  if PrimFloat.leb threshold similarity then
    let canonical_title := if (Py.len title1 <=? Py.len title2)%Z then title1 else title2 in
    <[title2 := canonical_title]> (<[title1 := canonical_title]> canonical)
  else canonical.

(** [for i, title1 in enumerate(titles): for title2 in titles[i + 1:]: ...] *)
Fixpoint merge_loop (threshold : float) (titles : list string)
    (canonical : gmap string string) : gmap string string :=
  match titles with
  | [] => canonical
  | title1 :: rest =>
      merge_loop threshold rest (fold_left (merge_pair threshold title1) rest canonical)
  end.

Definition merge_similar_titles (titles : list string) (threshold : float)
    : gmap string string :=
  merge_loop threshold titles (fold_left (fun canonical t => <[t := t]> canonical) titles ∅).

Definition extract_sections (html : string) : result (list Section) :=
  blocks <-! html_blocks html ;;
  match build_sections blocks with
  | Some sections => Ok sections
  | None => Raise
  end.

(** The three accumulators of the first loop of [infer_modules]. *)
Record Gathered : Type := mkGathered {
  module_sections : list (string * list Section);
  section_sources : gmap string (gset string);
  all_titles : list string
}.

(** [for title, secs in grouped.items(): ...] *)
Definition gather_group (url : string) (g : Gathered) (entry : string * list Section)
    : Gathered :=
  let '(t, secs) := entry in
  let valid_secs := List.filter (fun s => (level s <=? 2)%Z) secs in
  match valid_secs with
  | [] => g
  | _ :: _ =>
      mkGathered (alist_extend t valid_secs (module_sections g))
                 (<[t := {[url]} ∪ sources_of (section_sources g) t]> (section_sources g))
                 (all_titles g ++ [t])
  end.

(** [for url, html in pages.items(): try: ... except Exception: continue] *)
Definition gather_page (g : Gathered) (page : string * string) : Gathered :=
  let '(url, html) := page in
  match extract_sections html with
  | Raise => g
  | Ok sections => fold_left (gather_group url) (infer_from_sections sections url) g
  end.

Definition gather (pages : list (string * string)) : Gathered :=
  fold_left gather_page pages (mkGathered [] ∅ []).

(** The two accumulators of the second loop. *)
Record Merged : Type := mkMerged {
  merged_modules : list (string * list Section);
  merged_sources : gmap string (gset string)
}.

(** [for orig_title, sections in module_sections.items(): ...];
    [title_mapping[orig_title]] raises [KeyError] on a missing key. *)
Fixpoint reorganize (title_mapping : gmap string string)
    (sources : gmap string (gset string))
    (items : list (string * list Section)) (m : Merged) : result Merged :=
  match items with
  | [] => Ok m
  | (orig_title, sections) :: rest =>
      match title_mapping !! orig_title with
      | None => Raise
      | Some canonical =>
          reorganize title_mapping sources rest
            (mkMerged
               (alist_extend canonical sections (merged_modules m))
               (<[canonical := sources_of (merged_sources m) canonical
                               ∪ sources_of sources orig_title]> (merged_sources m)))
      end
  end.

(** [dedupe_preserve_order(list(merged_sources[title]))] *)
Definition source_list (srcs : gmap string (gset string)) (t : string) : list string :=
  dedupe_preserve_order (elements (sources_of srcs t)).

(** The body of [for child in section.children]. *)
Definition add_submodule (srcs : gmap string (gset string)) (t : string)
    (submodule_map : list (string * Submodule)) (child : Section)
    : list (string * Submodule) :=
  if (level child <=? 4)%Z && is_valid_module_title (title child) then
    match alist_lookup (title child) submodule_map with
    | Some _ => submodule_map
    | None =>
        submodule_map ++
        [(title child,
          mkSubmodule (title child) (submodule_description child)
                      (source_list srcs t) (calculate_confidence child false))]
    end
  else submodule_map.

Definition collect_submodules (srcs : gmap string (gset string)) (t : string)
    (secs : list Section) : list (string * Submodule) :=
  fold_left (fun sm section => fold_left (add_submodule srcs t) (children section) sm)
            secs [].

(** The body of [for title, secs in merged_modules.items()]. *)
Definition build_module (srcs : gmap string (gset string))
    (modules : list Module_) (entry : string * list Section) : list Module_ :=
  let '(t, secs) := entry in
  match secs with
  | [] => modules
  | top_section :: _ =>
      modules ++
      [mkModule t (module_description top_section)
                (map snd (collect_submodules srcs t secs))
                (source_list srcs t)
                (calculate_confidence top_section true)]
  end.

(** [modules.sort(key=lambda m: m.confidence, reverse=True)]: a stable
    sort, highest confidence first. *)
Fixpoint insert_by_confidence (m : Module_) (sorted : list Module_) : list Module_ :=
  match sorted with
  | [] => [m]
  | x :: rest =>
      if PrimFloat.ltb (confidence x) (confidence m) then m :: sorted
      else x :: insert_by_confidence m rest
  end.

Definition sort_by_confidence (modules : list Module_) : list Module_ :=
  fold_left (fun sorted m => insert_by_confidence m sorted) modules [].

Definition infer_modules (pages : list (string * string)) : result (list Module_) :=
  match pages with
  | [] => Ok []
  | _ :: _ =>
      let g := gather pages in
      match module_sections g with
      | [] => Ok []
      | _ :: _ =>
          let title_mapping := merge_similar_titles (map fst (module_sections g)) 0.8 in
          m <-! reorganize title_mapping (section_sources g) (module_sections g)
                           (mkMerged [] ∅) ;;
          let modules := fold_left (build_module (merged_sources m)) (merged_modules m) [] in
          Ok (sort_by_confidence modules)
      end
  end.

End Inference.

(** ** [urllib.parse] (CPython 3.11), as far as [normalize_url] and
    [Crawler.crawl] reach into it

    The functions below follow the library's [urlsplit], [urlparse],
    [urlunsplit], [urlunparse] and [urljoin] statement by statement. *)

Module Urllib.

Record ParseResult : Type := mkParseResult {
  scheme : string;
  netloc : string;
  path : string;
  params : string;
  query : string;
  fragment : string
}.

(** [s.split(c, 1)] when [c] occurs in [s]: the text before and after the
    first occurrence. *)
Fixpoint split_once (c : ascii) (s : string) : option (string * string) :=
  match s with
  | EmptyString => None
  | String d s' =>
      if Ascii.eqb c d then Some (EmptyString, s')
      else match split_once c s' with
           | Some (before, after) => Some (String d before, after)
           | None => None
           end
  end.

(** [s.split(c)]: every piece, the empty ones too. *)
Fixpoint split_on (c : ascii) (s : string) : list string :=
  match s with
  | EmptyString => [EmptyString]
  | String d s' =>
      if Ascii.eqb c d then EmptyString :: split_on c s'
      else match split_on c s' with
           | piece :: pieces => String d piece :: pieces
           | [] => [String d EmptyString]
           end
  end.

(** [_WHATWG_C0_CONTROL_OR_SPACE] *)
Definition c0_or_space (c : ascii) : bool := (N_of_ascii c <=? 32)%N.

Fixpoint lstrip_c0 (s : string) : string :=
  match s with
  | EmptyString => EmptyString
  | String c s' => if c0_or_space c then lstrip_c0 s' else s
  end.

Fixpoint rstrip_c0 (s : string) : string :=
  match s with
  | EmptyString => EmptyString
  | String c s' =>
      let r := rstrip_c0 s' in
      if c0_or_space c && Py.is_empty r then EmptyString else String c r
  end.

(** [_UNSAFE_URL_BYTES_TO_REMOVE]: tab, carriage return, line feed *)
Definition unsafe_byte (c : ascii) : bool :=
  let n := N_of_ascii c in ((n =? 9) || (n =? 10) || (n =? 13))%N.

Definition remove_unsafe (s : string) : string :=
  Py.string_filter (fun c => negb (unsafe_byte c)) s.

Definition ascii_alpha (c : ascii) : bool :=
  let n := N_of_ascii c in
  ((65 <=? n) && (n <=? 90) || (97 <=? n) && (n <=? 122))%N.

(** [scheme_chars]: letters, digits, [+], [-], [.] *)
Definition scheme_char (c : ascii) : bool :=
  ascii_alpha c || Py.isdigit c
  || Ascii.eqb c "+" || Ascii.eqb c "-" || Ascii.eqb c ".".

Definition uses_relative : list string :=
  [""; "ftp"; "http"; "gopher"; "nntp"; "imap"; "wais"; "file"; "https"; "shttp";
   "mms"; "prospero"; "rtsp"; "rtspu"; "sftp"; "svn"; "svn+ssh"; "ws"; "wss"].

Definition uses_netloc : list string :=
  [""; "ftp"; "http"; "gopher"; "nntp"; "telnet"; "imap"; "wais"; "file"; "mms";
   "https"; "shttp"; "snews"; "prospero"; "rtsp"; "rtspu"; "rsync"; "svn";
   "svn+ssh"; "sftp"; "nfs"; "git"; "git+ssh"; "ws"; "wss"].

Definition uses_params : list string :=
  [""; "ftp"; "hdl"; "prospero"; "http"; "imap"; "https"; "shttp"; "rtsp"; "rtspu";
   "sip"; "sips"; "mms"; "sftp"; "tel"].

Definition mem (s : string) (l : list string) : bool := existsb (String.eqb s) l.

(** The first stage of [urlsplit]: the clean-up of the text and the
    scheme, if the text has one; the rest of the text comes second. *)
Definition clean_url (url : string) : string := remove_unsafe (lstrip_c0 url).

Definition split_scheme (default_scheme url : string) : string * string :=
  match split_once ":" url with
  | Some (String c pre, post) =>
      if ascii_alpha c && Py.string_forall scheme_char (String c pre)
      then (Py.lower (String c pre), post)
      else (default_scheme, url)
  | _ => (default_scheme, url)
  end.

Definition get_scheme (url : string) : string :=
  fst (split_scheme "" (clean_url url)).

(** [_splitnetloc(url, 2)]: the text between the leading [//] and the
    first of [/?#], and the text from there on. *)
Definition netloc_delim (c : ascii) : bool :=
  Ascii.eqb c "/" || Ascii.eqb c "?" || Ascii.eqb c "#".

Fixpoint span_netloc (s : string) : string * string :=
  match s with
  | EmptyString => (EmptyString, EmptyString)
  | String c s' =>
      if netloc_delim c then (EmptyString, s)
      else let '(n, rest) := span_netloc s' in (String c n, rest)
  end.

(** The last path segment and what precedes it, the last [/] included. *)
Fixpoint split_last_segment (s : string) : string * string :=
  match s with
  | EmptyString => (EmptyString, EmptyString)
  | String c s' =>
      let '(dir, last) := split_last_segment s' in
      if Ascii.eqb c "/" then (String c dir, last)
      else if Py.is_empty dir then (EmptyString, String c last)
      else (String c dir, last)
  end.

(** [_splitparams] *)
Definition splitparams (url : string) : string * string :=
  if Py.contains "/" url then
    let '(dir, last) := split_last_segment url in
    match split_once ";" last with
    | Some (before, after) => (dir +:+ before, after)
    | None => (url, EmptyString)
    end
  else
    match split_once ";" url with
    | Some (before, after) => (before, after)
    | None => (url, EmptyString)
    end.

Definition starts_with_two_slashes (s : string) : bool :=
  match s with
  | String "/" (String "/" _) => true
  | _ => false
  end.

Definition starts_with_slash (s : string) : bool :=
  match s with
  | String "/" _ => true
  | _ => false
  end.

Definition urlunsplit (scheme netloc url query fragment : string) : string :=
  let url :=
    if negb (Py.is_empty netloc)
       || negb (Py.is_empty scheme) && mem scheme uses_netloc
          && negb (starts_with_two_slashes url)
    then
      let url :=
        if negb (Py.is_empty url) && negb (starts_with_slash url)
        then "/" +:+ url else url in
      "//" +:+ netloc +:+ url
    else url in
  let url := if negb (Py.is_empty scheme) then scheme +:+ ":" +:+ url else url in
  let url := if negb (Py.is_empty query) then url +:+ "?" +:+ query else url in
  let url := if negb (Py.is_empty fragment) then url +:+ "#" +:+ fragment else url in
  url.

Definition urlunparse (r : ParseResult) : string :=
  let url := if negb (Py.is_empty (params r)) then path r +:+ ";" +:+ params r else path r in
  urlunsplit (scheme r) (netloc r) url (query r) (fragment r).

Section WithNetlocCheck.

(** The checks of [urlsplit] on the network location (unbalanced or
    ill-formed brackets, characters that normalise to delimiters): [false]
    is the [ValueError] they raise. *)
Variable valid_netloc : string -> bool.

Definition urlsplit (url default_scheme : string) : result ParseResult :=
  let url := clean_url url in
  let default_scheme := remove_unsafe (rstrip_c0 (lstrip_c0 default_scheme)) in
  let '(scheme, url) := split_scheme default_scheme url in
  let '(netloc, url) :=
    if starts_with_two_slashes url then span_netloc (drop 2 url)
    else (EmptyString, url) in
  if negb (valid_netloc netloc) then Raise
  else
    let '(url, fragment) :=
      match split_once "#" url with
      | Some (before, after) => (before, after)
      | None => (url, EmptyString)
      end in
    let '(url, query) :=
      match split_once "?" url with
      | Some (before, after) => (before, after)
      | None => (url, EmptyString)
      end in
    Ok (mkParseResult scheme netloc url EmptyString query fragment).

Definition urlparse (url default_scheme : string) : result ParseResult :=
  r <-! urlsplit url default_scheme ;;
  if mem (scheme r) uses_params && Py.contains ";" (path r) then
    let '(url, params) := splitparams (path r) in
    Ok (mkParseResult (scheme r) (netloc r) url params (query r) (fragment r))
  else Ok r.

(** The loop of [urljoin] over the path segments: [..] pops a resolved
    segment if there is one, [.] is skipped. *)
Definition resolve_segment (resolved_path : list string) (seg : string) : list string :=
  if String.eqb seg ".." then removelast resolved_path
  else if String.eqb seg "." then resolved_path
  else resolved_path ++ [seg].

(** [segments[1:-1] = filter(None, segments[1:-1])] *)
Definition drop_empty_middle (segments : list string) : list string :=
  match segments with
  | first :: (_ :: _) as rest =>
      first :: List.filter (fun seg => negb (Py.is_empty seg)) (removelast rest)
            ++ [List.last rest EmptyString]
  | _ => segments
  end.

Definition urljoin (base url : string) : result string :=
  if Py.is_empty base then Ok url
  else if Py.is_empty url then Ok base
  else
    b <-! urlparse base EmptyString ;;
    u <-! urlparse url (scheme b) ;;
    if negb (String.eqb (scheme u) (scheme b)) || negb (mem (scheme u) uses_relative)
    then Ok url
    else if mem (scheme u) uses_netloc && negb (Py.is_empty (netloc u))
    then Ok (urlunparse u)
    else
      let netloc' := if mem (scheme u) uses_netloc then netloc b else netloc u in
      if Py.is_empty (path u) && Py.is_empty (params u) then
        let query' := if Py.is_empty (query u) then query b else query u in
        Ok (urlunparse (mkParseResult (scheme u) netloc' (path b) (params b) query' (fragment u)))
      else
        let base_parts := split_on "/" (path b) in
        let base_parts :=
          if negb (Py.is_empty (List.last base_parts EmptyString))
          then removelast base_parts else base_parts in
        let segments :=
          if starts_with_slash (path u) then split_on "/" (path u)
          else drop_empty_middle (base_parts ++ split_on "/" (path u)) in
        let resolved_path := fold_left resolve_segment segments [] in
        let last_seg := List.last segments EmptyString in
        let resolved_path :=
          if String.eqb last_seg "." || String.eqb last_seg ".."
          then resolved_path ++ [EmptyString] else resolved_path in
        let joined := Py.join "/" resolved_path in
        Ok (urlunparse
              (mkParseResult (scheme u) netloc'
                             (if Py.is_empty joined then "/" else joined)
                             (params u) (query u) (fragment u))).

End WithNetlocCheck.

End Urllib.

(** ** [src/utils.py]: [normalize_url] *)

Section Normalize.

Variable valid_netloc : string -> bool.

Definition http_scheme (s : string) : bool :=
  String.eqb s "http" || String.eqb s "https".

Definition normalize_url (base_url link : string) : result string :=
  parsed_base <-! Urllib.urlparse valid_netloc base_url "" ;;
  joined <-! Urllib.urljoin valid_netloc base_url link ;;
  parsed <-! Urllib.urlparse valid_netloc joined "" ;;
  if negb (http_scheme (Urllib.scheme parsed)) then Ok ""
  else
    Ok (Urllib.urlunparse
          (Urllib.mkParseResult (Urllib.scheme parsed) (Urllib.netloc parsed)
             (Urllib.path parsed) (Urllib.params parsed) (Urllib.query parsed) "")).

End Normalize.

(** A network-location check for running the model: it refuses the
    locations whose square brackets do not pair up. *)
Definition balanced_brackets (netloc : string) : bool :=
  Bool.eqb (Py.contains "[" netloc) (Py.contains "]" netloc).

Example normalize_examples :
  map (fun '(b, l) => normalize_url balanced_brackets b l)
      [("https://example.com", "https://example.com/page");
       ("https://example.com/base", "/page");
       ("https://example.com", "https://example.com/page#section");
       ("https://example.com", "ftp://example.com/file");
       ("https://a.com/docs/guide/intro.html", "../api/./index.html?x=1#top");
       ("https://a.com/docs/", "mailto:someone@a.com");
       ("https://a.com", "HTTP://B.com/x;y");
       ("https://a.com", "http://[::1/x")]
  = [Ok "https://example.com/page"; Ok "https://example.com/page";
     Ok "https://example.com/page"; Ok "";
     Ok "https://a.com/docs/api/index.html?x=1"; Ok "";
     Ok "http://B.com/x;y"; Raise].
Proof. vm_compute. reflexivity. Qed.

(** ** [src/utils.py]: [looks_like_binary] *)

(** [sub in s] *)
Fixpoint has_substring (sub s : string) : bool :=
  String.prefix sub s
  || match s with
     | EmptyString => false
     | String _ s' => has_substring sub s'
     end.

(** [re.search(r"(application/(pdf|zip|octet-stream)|image/|audio/|video/)",
    content_type, re.IGNORECASE)] *)
Definition looks_like_binary (content_type : string) : bool :=
  if Py.is_empty content_type then false
  else
    let c := Py.lower content_type in
    existsb (fun pat => has_substring pat c)
            ["application/pdf"; "application/zip"; "application/octet-stream";
             "image/"; "audio/"; "video/"].

(** ** [src/crawler.py] *)

Record Page : Type := mkPage { url : string; html : string; status : Z }.

(** What the transport hands back for a request that did not fail:
    [resp.url], [resp.status_code], the [Content-Type] header (empty if the
    header is missing) and [resp.text]. *)
Record Response : Type := mkResponse {
  resp_url : string;
  resp_status : Z;
  resp_content_type : string;
  resp_text : string
}.

Section Crawler.

(** The network, and [requests.get] followed by [raise_for_status]:
    [None] is any of the request exceptions that [fetch] catches. *)
Variable Net : Type.
Variable http_get : Net -> string -> Net * option Response.

(** The directory of the persistent cache with [PersistentCache.get] and
    [PersistentCache.set]; both swallow their own failures. *)
Variable Disk : Type.
Variable disk_get : Disk -> string -> option Page.
Variable disk_set : Disk -> string -> Page -> Disk.

(** [soup.find_all("a", href=True)] of [BeautifulSoup(html, "html.parser")]:
    the [href] values in document order; [None] if the parser raises. *)
Variable anchor_hrefs : string -> option (list string).

(** [is_same_domain], which rests on [tldextract]. *)
Variable is_same_domain : string -> string -> bool.

Variable valid_netloc : string -> bool.

(** The fields of a [Crawler] that [crawl] reads. *)
Variable max_pages : Z.
Variable max_depth : Z.
Variable allow_cross_domain : bool.

(** The mutable part of a [Crawler] together with the world it talks to;
    [persistent_cache] is [None] when the crawler has none. *)
Record Env : Type := mkEnv {
  cache : gmap string Page;
  persistent_cache : option Disk;
  net : Net
}.

Definition fetch_remote (e : Env) (u : string) : Env * option Page :=
  let '(net', resp) := http_get (net e) u in
  let e := mkEnv (cache e) (persistent_cache e) net' in
  match resp with
  | None => (e, None)
  | Some resp =>
      let content_type := Py.lower (resp_content_type resp) in
      if looks_like_binary content_type then (e, None)
      else if negb (String.prefix "text/html" content_type) then (e, None)
      else if (Py.len (resp_text resp) <? 100)%Z then (e, None)
      else
        let page := mkPage (resp_url resp) (resp_text resp) (resp_status resp) in
        (mkEnv (<[u := page]> (cache e))
               (option_map (fun d => disk_set d u page) (persistent_cache e))
               (net e),
         Some page)
  end.

Definition fetch (e : Env) (u : string) : Env * option Page :=
  match cache e !! u with
  | Some page => (e, Some page)
  | None =>
      match persistent_cache e with
      | Some d =>
          match disk_get d u with
          | Some cached_page =>
              (mkEnv (<[u := cached_page]> (cache e)) (persistent_cache e) (net e),
               Some cached_page)
          | None => fetch_remote e u
          end
      | None => fetch_remote e u
      end
  end.

(** [re.search(r"\.(pdf|zip|docx?|xlsx?|pptx?|jpg|jpeg|png|gif|svg|mp4|mp3)$",
    href, re.IGNORECASE)]: [$] is the end of the text or the place before
    a final line feed. *)
Definition skip_extensions : list string :=
  [".pdf"; ".zip"; ".doc"; ".docx"; ".xls"; ".xlsx"; ".ppt"; ".pptx"; ".jpg";
   ".jpeg"; ".png"; ".gif"; ".svg"; ".mp4"; ".mp3"].

Fixpoint ends_with (suffix s : string) : bool :=
  String.eqb suffix s
  || match s with
     | EmptyString => false
     | String _ s' => ends_with suffix s'
     end.

Definition newline : string := String (ascii_of_N 10) EmptyString.

Definition skip_href (href : string) : bool :=
  let h := Py.lower href in
  existsb (fun ext => ends_with ext h || ends_with (ext +:+ newline) h) skip_extensions
  || existsb (fun pat => has_substring pat h)
             ["mailto:"; "javascript:"; "#"; "/api/"; "/login"; "/logout"; "/signup";
              "/register"].

(** The body of [for a in soup.find_all("a", href=True)]. *)
Definition extract_link (base_url : string) (links : list string) (href : string)
    : result (list string) :=
  if Py.is_empty href || String.eqb (Py.strip href) "#" then Ok links
  else if skip_href href then Ok links
  else
    normalized <-! normalize_url valid_netloc base_url href ;;
    if Py.is_empty normalized then Ok links
    else if negb allow_cross_domain && negb (is_same_domain base_url normalized) then Ok links
    else Ok (links ++ [normalized]).

Fixpoint extract_links_loop (base_url : string) (links hrefs : list string)
    : result (list string) :=
  match hrefs with
  | [] => Ok links
  | href :: rest =>
      links' <-! extract_link base_url links href ;;
      extract_links_loop base_url links' rest
  end.

Definition extract_links (base_url html : string) : result (list string) :=
  match anchor_hrefs html with
  | None => Ok []
  | Some hrefs => extract_links_loop base_url [] hrefs
  end.

(** The local variables of [crawl].  [fetched] is not in the source: it
    records, next to each element of [pages] and in the same order, the
    URL that was dequeued for it and the depth it was dequeued at. *)
Record CrawlState : Type := mkCrawlState {
  queue : list (string * Z);
  visited : gset string;
  pages : list Page;
  fetched : list (string * Z);
  env : Env
}.

(** One run of the loop body on the dequeued [(u, depth)]. *)
Definition crawl_body (u : string) (depth : Z) (s : CrawlState) : result CrawlState :=
  if bool_decide (u ∈ visited s) || (max_depth <? depth)%Z then Ok s
  else
    let s := mkCrawlState (queue s) ({[u]} ∪ visited s) (pages s) (fetched s) (env s) in
    parsed <-! Urllib.urlparse valid_netloc u "" ;;
    if negb (http_scheme (Urllib.scheme parsed)) then Ok s
    else
      let '(env', page) := fetch (env s) u in
      let s := mkCrawlState (queue s) (visited s) (pages s) (fetched s) env' in
      match page with
      | None => Ok s
      | Some page =>
          links <-! extract_links u (html page) ;;
          Ok (mkCrawlState
                (queue s ++ map (fun link => (link, (depth + 1)%Z))
                                (List.filter (fun link => negb (bool_decide (link ∈ visited s)))
                                             links))
                (visited s)
                (pages s ++ [page])
                (fetched s ++ [(u, depth)])
                (env s))
      end.

(** [while queue and len(pages) < self.max_pages: ...]; [None] is
    exhausted fuel. *)
Fixpoint crawl_loop (fuel : nat) (s : CrawlState) : option (result CrawlState) :=
  match queue s with
  | [] => Some (Ok s)
  | (u, depth) :: rest =>
      if (Z.of_nat (length (pages s)) <? max_pages)%Z then
        match fuel with
        | O => None
        | S fuel' =>
            match crawl_body u depth
                    (mkCrawlState rest (visited s) (pages s) (fetched s) (env s)) with
            | Raise => Some Raise
            | Ok s' => crawl_loop fuel' s'
            end
        end
      else Some (Ok s)
  end.

Definition crawl_init (roots : list string) (e : Env) : CrawlState :=
  mkCrawlState (map (fun root => (root, 0%Z)) roots) ∅ [] [] e.

(** [Crawler.crawl(roots)] *)
Definition crawl (fuel : nat) (roots : list string) (e : Env)
    : option (result (list Page)) :=
  match crawl_loop fuel (crawl_init roots e) with
  | Some (Ok s) => Some (Ok (pages s))
  | Some Raise => Some Raise
  | None => None
  end.

End Crawler.

Arguments mkEnv {Net Disk}.
Arguments cache {Net Disk}.
Arguments persistent_cache {Net Disk}.
Arguments net {Net Disk}.
Arguments mkCrawlState {Net Disk}.
Arguments queue {Net Disk}.
Arguments visited {Net Disk}.
Arguments pages {Net Disk}.
Arguments fetched {Net Disk}.
Arguments env {Net Disk}.
Arguments crawl_init {Net Disk}.

(** ** [difflib.SequenceMatcher(None, a, b).ratio()]

    The matcher of the Python library for texts shorter than 200
    characters, for which its automatic junk heuristic is off: the longest
    common block, the one that starts earliest in [a] and then earliest in
    [b], then the same to its left and to its right. *)

Module Difflib.

Fixpoint common_prefix (a b : list ascii) : nat :=
  match a, b with
  | x :: a', y :: b' => if Ascii.eqb x y then S (common_prefix a' b') else 0
  | _, _ => 0
  end.

(** A block is [(i, j, k)]: [a[i:i+k] == b[j:j+k]]. *)
Definition block_size (blk : nat * nat * nat) : nat := snd blk.

Fixpoint best_in_b (i : nat) (a_tail b_tail : list ascii) (j : nat)
    (best : nat * nat * nat) : nat * nat * nat :=
  match b_tail with
  | [] => best
  | _ :: b' =>
      let k := common_prefix a_tail b_tail in
      best_in_b i a_tail b' (S j) (if (block_size best <? k)%nat then (i, j, k) else best)
  end.

Fixpoint best_in_a (a_tail b : list ascii) (i : nat)
    (best : nat * nat * nat) : nat * nat * nat :=
  match a_tail with
  | [] => best
  | _ :: a' => best_in_a a' b (S i) (best_in_b i a_tail b 0 best)
  end.

Definition find_longest_match (a b : list ascii) : nat * nat * nat :=
  best_in_a a b 0 (0, 0, 0).

(** The total size of the matching blocks. *)
Fixpoint matches (fuel : nat) (a b : list ascii) : nat :=
  match fuel with
  | O => 0
  | S fuel' =>
      let '(i, j, k) := find_longest_match a b in
      if (k =? 0)%nat then 0
      else k + matches fuel' (firstn i a) (firstn j b)
             + matches fuel' (skipn (i + k) a) (skipn (j + k) b)
  end.

Definition ratio (a b : string) : float :=
  let la := list_ascii_of_string a in
  let lb := list_ascii_of_string b in
  let total := length la + length lb in
  if (total =? 0)%nat then 1%float
  else (2 * float_of_count (matches (S (length la)) la lb) / float_of_count total)%float.

End Difflib.

Example difflib_ratios :
  map (fun '(a, b) => Difflib.ratio a b)
      [("user management", "user management"); ("user management", "user-management");
       ("user management", "users management"); ("abcd", "bcde"); ("", "");
       ("getting started", "settings"); ("api documentation", "user management")]
  = [1; 0.9333333333333333; 0.967741935483871; 0.75; 1; 0.6086956521739131;
     0.3125]%float.
Proof. vm_compute. reflexivity. Qed.

(** ** Sample pages

    Stand-ins for the collaborators, for running the model: a few pages
    with the blocks that the HTML parser reports for them. *)

Definition page_users : string :=
  "<h1>User Management</h1><p>Manage users and permissions.</p><h2>Create User</h2><p>How to create a user.</p>".

Definition page_admin : string :=
  "<h1>Users Management</h1><p>Accounts of the team.</p><h2>Delete User</h2><p>How to delete a user.</p><h2>Create User</h2><p>Another way to create one.</p>".

Definition page_welcome : string :=
  "<p>Welcome to the help center of the product.</p>".

Definition sample_site : list (string * list (string * string)) :=
  [(page_users,
    [("h1", "User Management"); ("p", "Manage users and permissions.");
     ("h2", "Create User"); ("p", "How to create a user.")]);
   (page_admin,
    [("h1", "Users Management"); ("p", "Accounts of the team.");
     ("h2", "Delete User"); ("p", "How to delete a user.");
     ("h2", "Create User"); ("p", "Another way to create one.")]);
   (page_welcome, [("p", "Welcome to the help center of the product.")]);
   ("not html", [])].

Definition sample_blocks (html : string) : result (list (string * string)) :=
  Ok (default [] (alist_lookup html sample_site)).

Definition sample_pages : list (string * string) :=
  [("https://example.com/users", page_users); ("https://example.com/admin", page_admin)].

(** ** A sample site

    Stand-ins for the transport, the link parser and the domain test, for
    running the crawler: three pages of one host that link to each other. *)

Definition page_deep : string :=
  "<h1>Audit Trail</h1><p>Every change to an account is recorded with its author and its time.</p><h2>Export</h2>".

Definition sample_responses : list (string * Response) :=
  [("https://example.com/users",
    mkResponse "https://example.com/users" 200 "text/html; charset=utf-8" page_users);
   ("https://example.com/admin",
    mkResponse "https://example.com/admin" 200 "text/html" page_admin);
   ("https://example.com/audit",
    mkResponse "https://example.com/audit" 200 "text/html" page_deep);
   ("https://example.com/logo",
    mkResponse "https://example.com/logo" 200 "image/png" page_deep)].

Definition sample_http_get (n : unit) (u : string) : unit * option Response :=
  (n, alist_lookup u sample_responses).

Definition sample_anchors : list (string * list string) :=
  [(page_users, ["/admin"; "#top"; "/files/manual.pdf"; "/logo"; "mailto:team@example.com"]);
   (page_admin, ["/users"; "/audit"; "https://elsewhere.org/"]);
   (page_deep, ["/users"])].

Definition sample_anchor_hrefs (html : string) : option (list string) :=
  Some (default [] (alist_lookup html sample_anchors)).

(** Two URLs are taken to be of one domain when their hosts are equal. *)
Definition same_host (a b : string) : bool :=
  match Urllib.urlsplit balanced_brackets a "", Urllib.urlsplit balanced_brackets b "" with
  | Ok pa, Ok pb => String.eqb (Urllib.netloc pa) (Urllib.netloc pb)
  | _, _ => false
  end.

Definition no_disk_get (d : unit) (u : string) : option Page := None.
Definition no_disk_set (d : unit) (u : string) (p : Page) : unit := d.

Definition sample_env : Env unit unit := mkEnv ∅ None tt.

(** The sample crawler with a page budget and a depth limit. *)
Definition sample_crawl (max_pages max_depth : Z) (fuel : nat) (roots : list string)
    : option (result (list Page)) :=
  crawl unit sample_http_get unit no_disk_get no_disk_set sample_anchor_hrefs same_host
        balanced_brackets max_pages max_depth false fuel roots sample_env.

Example sample_crawl_depth_1 :
  sample_crawl 5 1 10 ["https://example.com/users"]
  = Some (Ok [mkPage "https://example.com/users" page_users 200;
              mkPage "https://example.com/admin" page_admin 200]).
Proof. vm_compute. reflexivity. Qed.

Example sample_crawl_budget_2 :
  sample_crawl 2 5 10 ["https://example.com/users"]
  = Some (Ok [mkPage "https://example.com/users" page_users 200;
              mkPage "https://example.com/admin" page_admin 200]).
Proof. vm_compute. reflexivity. Qed.

Example sample_crawl_all :
  sample_crawl 40 3 10 ["https://example.com/users"]
  = Some (Ok [mkPage "https://example.com/users" page_users 200;
              mkPage "https://example.com/admin" page_admin 200;
              mkPage "https://example.com/audit" page_deep 200]).
Proof. vm_compute. reflexivity. Qed.

(** ** [src/pipeline.py]: [run_extraction] *)

Record ExtractionResult : Type := mkExtractionResult { modules : list Module_ }.

(** [{page.url: page.html for page in pages if page.html}]: a page whose
    URL is already a key replaces the text and keeps the place. *)
Definition html_map_of (pages : list Page) : list (string * string) :=
  fold_left
    (fun html_map page =>
       if negb (Py.is_empty (html page))
       then alist_update (html page) (fun _ => html page) (url page) html_map
       else html_map)
    pages [].

Section Pipeline.

Variable ratio : string -> string -> float.
Variable html_blocks : string -> result (list (string * string)).
Variable Net : Type.
Variable http_get : Net -> string -> Net * option Response.
Variable Disk : Type.
Variable disk_get : Disk -> string -> option Page.
Variable disk_set : Disk -> string -> Page -> Disk.
Variable anchor_hrefs : string -> option (list string).
Variable is_same_domain : string -> string -> bool.
Variable valid_netloc : string -> bool.

(** [PersistentCache()]: the directory it opens, or [Raise] when the
    directory cannot be made. *)
Variable open_cache : result Disk.

(** [PersistentCache() if use_cache else None] *)
Definition cache_choice (use_cache : bool) : result (option Disk) :=
  if use_cache then (d <-! open_cache ;; Ok (Some d)) else Ok None.

(** [Crawler(max_pages=max_pages, max_depth=max_depth,
    persistent_cache=persistent_cache)]: a fresh memory; the crawler does
    not cross domains. *)
Definition new_crawler (persistent_cache : option Disk) (n : Net) : Env Net Disk :=
  mkEnv ∅ persistent_cache n.

(** The body of [try] in [run_extraction]. *)
Definition run_extraction_body (urls : list string) (max_pages max_depth : Z)
    (use_cache : bool) (fuel : nat) (n : Net) : option (result ExtractionResult) :=
  match cache_choice use_cache with
  | Raise => Some Raise
  | Ok persistent_cache =>
      match crawl Net http_get Disk disk_get disk_set anchor_hrefs is_same_domain
                  valid_netloc max_pages max_depth false fuel
                  (dedupe_preserve_order urls) (new_crawler persistent_cache n) with
      | None => None
      | Some Raise => Some Raise
      | Some (Ok pages) =>
          match pages with
          | [] => Some (Ok (mkExtractionResult []))
          | _ :: _ =>
              let html_map := html_map_of pages in
              match html_map with
              | [] => Some (Ok (mkExtractionResult []))
              | _ :: _ =>
                  match infer_modules ratio html_blocks html_map with
                  | Ok ms => Some (Ok (mkExtractionResult ms))
                  | Raise => Some Raise
                  end
              end
          end
      end
  end.

(** [run_extraction(urls, max_pages, max_depth, use_cache)]: whatever the
    body raises ends in [except Exception] and an empty result; [None] is
    exhausted fuel. *)
Definition run_extraction (urls : list string) (max_pages max_depth : Z)
    (use_cache : bool) (fuel : nat) (n : Net) : option ExtractionResult :=
  match urls with
  | [] => Some (mkExtractionResult [])
  | _ :: _ =>
      match run_extraction_body urls max_pages max_depth use_cache fuel n with
      | None => None
      | Some (Ok r) => Some r
      | Some Raise => Some (mkExtractionResult [])
      end
  end.

End Pipeline.

(** ** [src/api.py]: [extract_modules] *)

(** An [ExtractionRequest] after validation: the strings of the URLs, and
    the optional fields, [None] where the client sent [null]. *)
Record ExtractionRequest : Type := mkExtractionRequest {
  req_urls : list string;
  req_max_pages : option Z;
  req_max_depth : option Z;
  req_use_cache : option bool
}.

Record Stats : Type := mkStats {
  total_modules : Z;
  total_submodules : Z;
  urls_processed : Z
}.

Record ExtractionResponse : Type := mkExtractionResponse {
  response_modules : list Module_;
  response_stats : Stats
}.

(** What is raised inside [try]: an [HTTPException] with its status code,
    or another exception. *)
Inductive Raised : Type :=
| RaisedHTTPException (status_code : Z)
| RaisedOther.

(** What the handler ends with: the response, or the [HTTPException] that
    leaves it. *)
Inductive Answer : Type :=
| Returned (response : ExtractionResponse)
| HTTPException (status_code : Z).

(** [x or d] on an optional integer: [None] and [0] are falsy. *)
Definition or_int (x : option Z) (d : Z) : Z :=
  match x with
  | Some v => if (v =? 0)%Z then d else v
  | None => d
  end.

(** [if b:] on an optional boolean *)
Definition truthy (b : option bool) : bool :=
  match b with
  | Some true => true
  | _ => false
  end.

(** [sum(len(m.submodules) for m in result.modules)] *)
Definition count_submodules (ms : list Module_) : Z :=
  fold_left (fun total m => (total + Z.of_nat (length (submodules m)))%Z) ms 0%Z.

Section Api.

Variable ratio : string -> string -> float.
Variable html_blocks : string -> result (list (string * string)).
Variable Net : Type.
Variable http_get : Net -> string -> Net * option Response.
Variable Disk : Type.
Variable disk_get : Disk -> string -> option Page.
Variable disk_set : Disk -> string -> Page -> Disk.
Variable anchor_hrefs : string -> option (list string).
Variable is_same_domain : string -> string -> bool.
Variable valid_netloc : string -> bool.
Variable open_cache : result Disk.

(** The body of [try] in [extract_modules].  The handler makes a
    [PersistentCache] of its own when [request.use_cache] is set and does
    not hand it on; [run_extraction] is called without [use_cache], which
    is [True] by default. *)
Definition extract_modules_body (request : ExtractionRequest) (fuel : nat) (n : Net)
    : option (ExtractionResponse + Raised) :=
  match req_urls request with
  | [] => Some (inr (RaisedHTTPException 400))
  | _ :: _ =>
      match (if truthy (req_use_cache request)
             then (d <-! open_cache ;; Ok (Some d)) else Ok None) with
      | Raise => Some (inr RaisedOther)
      | Ok _ =>
          match run_extraction ratio html_blocks Net http_get Disk disk_get disk_set
                  anchor_hrefs is_same_domain valid_netloc open_cache
                  (req_urls request)
                  (or_int (req_max_pages request) 40)
                  (or_int (req_max_depth request) 3)
                  true fuel n with
          | None => None
          | Some extraction =>
              Some (inl (mkExtractionResponse
                           (modules extraction)
                           (mkStats (Z.of_nat (length (modules extraction)))
                                    (count_submodules (modules extraction))
                                    (Z.of_nat (length (req_urls request))))))
          end
      end
  end.

(** [extract_modules(request)]: [except Exception] catches whatever the
    body raises, the [HTTPException] of the body included, and raises an
    [HTTPException] with status 500. *)
Definition extract_modules (request : ExtractionRequest) (fuel : nat) (n : Net)
    : option Answer :=
  match extract_modules_body request fuel n with
  | None => None
  | Some (inl response) => Some (Returned response)
  | Some (inr _) => Some (HTTPException 500)
  end.

End Api.

(** The sample crawler's loop, and the sample pipeline: the sample site
    behind the sample transport, with no directory on disk. *)
Definition sample_crawl_loop (max_pages max_depth : Z) (fuel : nat) (roots : list string)
    : option (result (CrawlState unit unit)) :=
  crawl_loop unit sample_http_get unit no_disk_get no_disk_set sample_anchor_hrefs
             same_host balanced_brackets max_pages max_depth false fuel
             (crawl_init roots sample_env).

(** The state in which the sample crawler ends when it starts from one
    seed with a budget of 40 pages and a depth limit of 3. *)
Definition sample_final : CrawlState unit unit :=
  Eval vm_compute in
    match sample_crawl_loop 40 3 10 ["https://example.com/users"] with
    | Some (Ok s) => s
    | _ => crawl_init [] sample_env
    end.

Example sample_run :
  sample_crawl_loop 40 3 10 ["https://example.com/users"] = Some (Ok sample_final).
Proof. vm_compute. reflexivity. Qed.

Definition sample_extraction (urls : list string) (max_pages max_depth : Z) (fuel : nat)
    : option ExtractionResult :=
  run_extraction Difflib.ratio sample_blocks unit sample_http_get unit no_disk_get
                 no_disk_set sample_anchor_hrefs same_host balanced_brackets Raise
                 urls max_pages max_depth false fuel tt.

Definition sample_api (request : ExtractionRequest) (fuel : nat) : option Answer :=
  extract_modules Difflib.ratio sample_blocks unit sample_http_get unit no_disk_get
                  no_disk_set sample_anchor_hrefs same_host balanced_brackets (Ok tt)
                  request fuel tt.

Example sample_extraction_users :
  sample_extraction ["https://example.com/users"; "https://example.com/users"] 5 1 10
  = Some (mkExtractionResult
            [mkModule "User Management" "Manage users and permissions. How to create a user."
               [mkSubmodule "Create User" "How to create a user."
                  ["https://example.com/users"; "https://example.com/admin"] 0.55;
                mkSubmodule "Delete User" "How to delete a user."
                  ["https://example.com/users"; "https://example.com/admin"] 0.55]
               ["https://example.com/users"; "https://example.com/admin"] 0.74]).
Proof. vm_compute. reflexivity. Qed.

(** * Properties *)

(** ** Confidence scores *)

(** The score in the words of the specification: a base of 0.6 or 0.5,
    plus [min(0.2, wordCount * 0.01)], plus 0.1 with children, minus 0.1
    for a title of fewer than two words, clamped to [[0.3, 0.95]]. *)
Definition spec_confidence (word_count : nat) (has_children : bool)
    (title_words : nat) (is_module : bool) : float :=
  let base := (if is_module then 0.6 else 0.5)%float in
  let bonus := Py.fmin 0.2%float (float_of_count word_count * 0.01)%float in
  let structure := (if has_children then 0.1 else 0)%float in
  let penalty := (if (title_words <? 2)%nat then 0.1 else 0)%float in
  Py.fmin 0.95%float (Py.fmax 0.3%float (base + bonus + structure - penalty)%float).

Definition has_children (s : Section) : bool :=
  match children s with
  | [] => false
  | _ :: _ => true
  end.

Lemma float_ltb_leb (x y : float) :
  PrimFloat.ltb x y = true -> PrimFloat.leb x y = true.
Proof.
  rewrite ltb_spec, leb_spec. unfold SFltb, SFleb.
  destruct (SFcompare (Prim2SF x) (Prim2SF y)) as [[]|]; congruence.
Qed.

(** Clamping lands in the interval whatever is clamped, a NaN included. *)
Lemma clamp_bounds (c : float) :
  PrimFloat.leb 0.3 (Py.fmin 0.95 (Py.fmax 0.3 c)) = true
  /\ PrimFloat.leb (Py.fmin 0.95 (Py.fmax 0.3 c)) 0.95 = true.
Proof.
  unfold Py.fmin, Py.fmax.
  destruct (PrimFloat.ltb 0.3 c) eqn:Hlo.
  - destruct (PrimFloat.ltb c 0.95) eqn:Hhi.
    + split; apply float_ltb_leb; assumption.
    + split; vm_compute; reflexivity.
  - split; vm_compute; reflexivity.
Qed.

(** C4. For every section and both values of [is_module],
    [calculate_confidence] lies between 0.3 and 0.95, and it is the value
    of the specification's formula at the section's word count, its having
    children and the word count of its title. *)
Theorem calculate_confidence_bounds (s : Section) (is_module : bool) :
  PrimFloat.leb 0.3 (calculate_confidence s is_module) = true
  /\ PrimFloat.leb (calculate_confidence s is_module) 0.95 = true
  /\ calculate_confidence s is_module
     = spec_confidence (length (Py.split (text s))) (has_children s)
                       (length (Py.split (title s))) is_module.
Proof.
  split; [|split].
  - apply clamp_bounds.
  - apply clamp_bounds.
  - unfold calculate_confidence, spec_confidence, has_children.
    destruct (children s); reflexivity.
Qed.

Example confidence_values :
  map (fun '(s, m) => calculate_confidence s m)
      [(mkSection 1 "Test" "Short" [], true);
       (mkSection 1 "User Management" "Manage users and permissions." [mkSection 2 "Create User" "" []], true);
       (mkSection 2 "Create User" "How to create a user." [], false);
       (mkSection 1 "X" "" [], false)]
  = [0.51; 0.74; 0.55; 0.4]%float.
Proof. vm_compute. reflexivity. Qed.

(** ** Summaries *)

Lemma is_empty_true (s : string) : Py.is_empty s = true <-> s = "".
Proof. destruct s; simpl; split; congruence. Qed.

Lemma lstrip_all_space (s : string) :
  Py.string_forall Py.isspace (Py.lstrip s) = Py.string_forall Py.isspace s.
Proof.
  induction s as [|c s IH]; simpl; [reflexivity|].
  destruct (Py.isspace c) eqn:Hc; simpl; [exact IH | rewrite Hc; reflexivity].
Qed.

Lemma rstrip_is_empty (s : string) :
  Py.is_empty (Py.rstrip s) = Py.string_forall Py.isspace s.
Proof.
  induction s as [|c s IH]; simpl; [reflexivity|].
  rewrite IH. destruct (Py.isspace c), (Py.string_forall Py.isspace s); reflexivity.
Qed.

Lemma strip_is_empty (s : string) :
  Py.is_empty (Py.strip s) = Py.string_forall Py.isspace s.
Proof. unfold Py.strip. rewrite rstrip_is_empty. apply lstrip_all_space. Qed.

Lemma length_lstrip (s : string) : String.length (Py.lstrip s) <= String.length s.
Proof.
  induction s as [|c s IH]; simpl; [lia|].
  destruct (Py.isspace c); simpl; lia.
Qed.

Lemma length_rstrip (s : string) : String.length (Py.rstrip s) <= String.length s.
Proof.
  induction s as [|c s IH]; simpl; [lia|].
  destruct (Py.isspace c && Py.is_empty (Py.rstrip s)); simpl; lia.
Qed.

Lemma length_strip (s : string) : String.length (Py.strip s) <= String.length s.
Proof.
  unfold Py.strip. pose proof (length_rstrip (Py.lstrip s)).
  pose proof (length_lstrip s). lia.
Qed.

Lemma length_take (n : nat) (s : string) : String.length (Py.take n s) <= n.
Proof.
  revert s. induction n as [|n IH]; intros [|c s]; simpl; try lia.
  specialize (IH s). lia.
Qed.

Lemma string_length_app (a b : string) :
  String.length (a +:+ b) = String.length a + String.length b.
Proof. induction a as [|c a IH]; simpl; [reflexivity | rewrite IH; reflexivity]. Qed.

Lemma length_summary_fallback (t : string) : String.length (summary_fallback t) <= 203.
Proof.
  unfold summary_fallback. rewrite string_length_app.
  pose proof (length_strip (Py.take 200 t)) as Hs.
  pose proof (length_take 200 t) as Ht.
  assert (He : String.length (if (200 <? Py.len t)%Z then "..." else "") <= 3)
    by (destruct (200 <? Py.len t)%Z; simpl; lia).
  lia.
Qed.

(** C7, as the specification words it, fails: the fallback strips the
    200-character prefix, so a text that starts with a blank does not come
    back as its own prefix. *)
Lemma summarize_fallback_is_not_the_prefix :
  ~ (forall (t : string) (max_sentences : Z),
       Py.string_forall Py.isspace t = false ->
       real_sentences t = [] ->
       summarize_text t max_sentences
       = Py.take 200 t +:+ (if (200 <? Py.len t)%Z then "..." else "")).
Proof.
  intros H. specialize (H " ab" 2%Z eq_refl eq_refl). vm_compute in H. discriminate H.
Qed.

(** C7 (amended). [summarize_text] returns the empty string for every
    empty or whitespace-only text; for every other text in which no
    sentence survives the three-word filter it returns the first 200
    characters of the text, stripped of leading and trailing whitespace,
    with ["..."] appended exactly when the text is longer than 200
    characters, so that the result has at most 203 characters. *)
Theorem summarize_text_fallback (t : string) (max_sentences : Z) :
  (Py.string_forall Py.isspace t = true -> summarize_text t max_sentences = "")
  /\ (Py.string_forall Py.isspace t = false ->
      real_sentences t = [] ->
      summarize_text t max_sentences
      = Py.strip (Py.take 200 t) +:+ (if (200 <? Py.len t)%Z then "..." else "")
      /\ String.length (summarize_text t max_sentences) <= 203).
Proof.
  split.
  - intros Hws. unfold summarize_text. rewrite strip_is_empty, Hws.
    rewrite orb_true_r. reflexivity.
  - intros Hws Hnone.
    assert (Hs : summarize_text t max_sentences = summary_fallback t).
    { unfold summarize_text. rewrite strip_is_empty, Hws, Hnone.
      destruct t; [discriminate Hws | reflexivity]. }
    rewrite Hs. split; [reflexivity | apply length_summary_fallback].
Qed.

Lemma summarize_text_fallback_witness :
  summarize_text "   " 2 = ""
  /\ summarize_text " Short text." 2 = "Short text."
  /\ String.length (summarize_text " Short text." 2) <= 203.
Proof.
  split.
  - apply (proj1 (summarize_text_fallback "   " 2)). reflexivity.
  - apply (proj2 (summarize_text_fallback " Short text." 2)); reflexivity.
Defined.

(** ** The section forest of a page *)

(** Every section of a tree: the root and, recursively, its descendants. *)
Fixpoint subsections (s : Section) : list Section :=
  s :: flat_map subsections (children s).

Definition heap_ok (h : list Obj) : Prop :=
  forall a o c, h !! a = Some o -> c ∈ o_children o ->
    a < c /\ exists oc, h !! c = Some oc /\ (o_level o < o_level oc)%Z.

Definition state_ok (st : BuildState) : Prop :=
  heap_ok (bs_heap st)
  /\ (forall a, a ∈ bs_root st -> a < length (bs_heap st))
  /\ (forall a, a ∈ bs_stack st -> a < length (bs_heap st)).

Lemma heap_ok_alloc (h : list Obj) (o : Obj) :
  heap_ok h -> o_children o = [] -> heap_ok (h ++ [o]).
Proof.
  intros Hh Ho a o' c Ha Hc.
  destruct (decide (a < length h)) as [Hlt|Hge].
  - rewrite lookup_app_l in Ha by exact Hlt.
    destruct (Hh a o' c Ha Hc) as [Hac [oc [Hoc Hlv]]].
    split; [exact Hac|]. exists oc. split; [|exact Hlv].
    rewrite lookup_app_l; [exact Hoc|]. eapply lookup_lt_Some; exact Hoc.
  - rewrite lookup_app_r in Ha by lia.
    destruct (a - length h) as [|k]; simpl in Ha; [|discriminate Ha].
    injection Ha as <-. rewrite Ho in Hc. inversion Hc.
Qed.

Lemma lookup_alter_inv (f : Obj -> Obj) (h : list Obj) (p a : nat) (o' : Obj) :
  alter f p h !! a = Some o' ->
  exists o, h !! a = Some o /\ ((a <> p /\ o' = o) \/ (a = p /\ o' = f o)).
Proof.
  intros H. destruct (decide (p = a)) as [->|Hne].
  - rewrite list_lookup_alter_eq in H. destruct (h !! a) as [o|]; [|discriminate H].
    injection H as <-. exists o. split; [reflexivity|]. right. split; reflexivity.
  - rewrite list_lookup_alter_ne in H by exact Hne.
    exists o'. split; [exact H|]. left. split; [congruence | reflexivity].
Qed.

Lemma lookup_alter_level (f : Obj -> Obj) (h : list Obj) (p c : nat) (oc : Obj) :
  (forall o, o_level (f o) = o_level o) ->
  h !! c = Some oc ->
  exists oc', alter f p h !! c = Some oc' /\ o_level oc' = o_level oc.
Proof.
  intros Hf Hc. destruct (decide (p = c)) as [->|Hne].
  - exists (f oc). rewrite list_lookup_alter_eq, Hc. split; [reflexivity | apply Hf].
  - exists oc. rewrite list_lookup_alter_ne by exact Hne. split; [exact Hc | reflexivity].
Qed.

Lemma heap_ok_add_text (h : list Obj) (p : nat) (t : string) :
  heap_ok h -> heap_ok (alter (add_text t) p h).
Proof.
  intros Hh a o' c Ha Hc.
  destruct (lookup_alter_inv _ _ _ _ _ Ha) as [o [Ho Hcase]].
  assert (Hch : o_children o' = o_children o /\ o_level o' = o_level o).
  { destruct Hcase as [[_ ->]|[_ ->]]; split; reflexivity. }
  destruct Hch as [Hch Hlv]. rewrite Hch in Hc.
  destruct (Hh a o c Ho Hc) as [Hac [oc [Hoc Hlt]]].
  split; [exact Hac|].
  destruct (lookup_alter_level (add_text t) h p c oc (fun _ => eq_refl) Hoc)
    as [oc' [Hoc' Hlv']].
  exists oc'. split; [exact Hoc'|]. rewrite Hlv, Hlv'. exact Hlt.
Qed.

Lemma heap_ok_add_child (h : list Obj) (p c : nat) (op oc : Obj) :
  heap_ok h -> h !! p = Some op -> h !! c = Some oc -> p < c ->
  (o_level op < o_level oc)%Z ->
  heap_ok (alter (add_child c) p h).
Proof.
  intros Hh Hp Hc Hpc Hlvl a o' x Ha Hx.
  destruct (lookup_alter_inv _ _ _ _ _ Ha) as [o [Ho Hcase]].
  assert (Hold : forall y, y ∈ o_children o ->
            a < y /\ exists oy, alter (add_child c) p h !! y = Some oy
                                /\ (o_level o' < o_level oy)%Z).
  { intros y Hy. destruct (Hh a o y Ho Hy) as [Hay [oy [Hoy Hlt]]].
    split; [exact Hay|].
    destruct (lookup_alter_level (add_child c) h p y oy (fun _ => eq_refl) Hoy)
      as [oy' [Hoy' Hlv']].
    exists oy'. split; [exact Hoy'|]. rewrite Hlv'.
    destruct Hcase as [[_ ->]|[_ ->]]; exact Hlt. }
  destruct Hcase as [[_ ->]|[-> ->]].
  - apply Hold. exact Hx.
  - simpl in Hx. apply elem_of_app in Hx as [Hx|Hx].
    + apply Hold. exact Hx.
    + apply list_elem_of_singleton in Hx as ->.
      split; [exact Hpc|].
      destruct (lookup_alter_level (add_child c) h p c oc (fun _ => eq_refl) Hc)
        as [oc' [Hoc' Hlv']].
      exists oc'. split; [exact Hoc'|]. rewrite Hlv'. simpl.
      rewrite Hp in Ho. injection Ho as <-. exact Hlvl.
Qed.

Lemma pop_while_spec (h : list Obj) (lvl : Z) (stack : list nat) :
  (forall a, a ∈ pop_while h lvl stack -> a ∈ stack)
  /\ (forall p rest, pop_while h lvl stack = p :: rest -> (level_at h p < lvl)%Z).
Proof.
  induction stack as [|a stack [IH1 IH2]]; simpl.
  - split; [tauto | discriminate].
  - destruct (lvl <=? level_at h a)%Z eqn:Hcmp.
    + split; [intros x Hx; right; apply IH1; exact Hx | exact IH2].
    + split; [tauto|]. intros p rest [= <- <-]. lia.
Qed.

Lemma build_step_ok (st : BuildState) (block : string * string) :
  state_ok st -> state_ok (build_step st block).
Proof.
  intros (Hh & Hroot & Hstack). destruct block as [tag txt]. unfold build_step.
  destruct (level_map tag) as [lvl|].
  - set (h1 := bs_heap st ++ [mkObj lvl txt "" []]).
    assert (Hh1 : heap_ok h1) by (apply heap_ok_alloc; [exact Hh | reflexivity]).
    assert (Hlen : length h1 = S (length (bs_heap st)))
      by (unfold h1; rewrite length_app; simpl; lia).
    assert (Hnew : h1 !! length (bs_heap st) = Some (mkObj lvl txt "" []))
      by (unfold h1; apply list_lookup_middle; reflexivity).
    destruct (pop_while_spec h1 lvl (bs_stack st)) as [Hsub Htop].
    destruct (pop_while h1 lvl (bs_stack st)) as [|p rest] eqn:Hpop.
    + split; [|split]; simpl.
      * exact Hh1.
      * intros a Ha. rewrite Hlen. apply elem_of_app in Ha as [Ha|Ha].
        -- apply Hroot in Ha. lia.
        -- apply list_elem_of_singleton in Ha as ->. lia.
      * intros a Ha. rewrite Hlen. apply list_elem_of_singleton in Ha as ->. lia.
    + assert (Hp : p < length (bs_heap st)) by (apply Hstack, Hsub; left).
      assert (Hpo : exists op, h1 !! p = Some op).
      { apply lookup_lt_is_Some_2. lia. }
      destruct Hpo as [op Hop].
      assert (Hlv : (o_level op < lvl)%Z).
      { specialize (Htop p rest eq_refl). unfold level_at in Htop.
        rewrite Hop in Htop. exact Htop. }
      split; [|split]; simpl.
      * eapply heap_ok_add_child; eauto.
      * intros a Ha. rewrite length_alter, Hlen. apply Hroot in Ha. lia.
      * intros a Ha. rewrite length_alter, Hlen.
        apply elem_of_cons in Ha as [->|Ha]; [lia|].
        assert (a ∈ bs_stack st) by (apply Hsub; exact Ha).
        apply Hstack in H. lia.
  - destruct (bs_stack st) as [|p rest] eqn:Hst.
    + split; [|split]; simpl.
      * apply heap_ok_alloc; [exact Hh | reflexivity].
      * intros a Ha. rewrite length_app. simpl.
        apply elem_of_app in Ha as [Ha|Ha].
        -- apply Hroot in Ha. lia.
        -- apply list_elem_of_singleton in Ha as ->. lia.
      * intros a Ha. inversion Ha.
    + split; [|split]; simpl.
      * apply heap_ok_add_text. exact Hh.
      * intros a Ha. rewrite length_alter. apply Hroot. exact Ha.
      * intros a Ha. rewrite length_alter. apply Hstack. exact Ha.
Qed.

Lemma build_loop_ok (blocks : list (string * string)) (st : BuildState) :
  state_ok st -> state_ok (fold_left build_step blocks st).
Proof.
  revert st. induction blocks as [|b blocks IH]; intros st Hst; simpl.
  - exact Hst.
  - apply IH, build_step_ok, Hst.
Qed.

Lemma mapM_is_Some {A B : Type} (f : A -> option B) (l : list A) :
  (forall x, x ∈ l -> is_Some (f x)) -> is_Some (mapM f l).
Proof.
  induction l as [|x l IH]; intros H.
  - exists []. reflexivity.
  - destruct (H x) as [y Hy]; [left|].
    destruct IH as [k Hk]; [intros z Hz; apply H; right; exact Hz|].
    exists (y :: k). apply mapM_Some_2.
    constructor; [exact Hy | apply mapM_Some_1; exact Hk].
Qed.

(** Reading succeeds as soon as the fuel covers the addresses above. *)
Lemma read_section_total (h : list Obj) :
  heap_ok h ->
  forall n a, a < length h -> length h - a <= n -> is_Some (read_section n h a).
Proof.
  intros Hh. induction n as [|n IH]; intros a Ha Hn; [lia|].
  simpl. destruct (lookup_lt_is_Some_2 h a Ha) as [o Ho]. rewrite Ho.
  destruct (mapM_is_Some (read_section n h) (o_children o)) as [cs Hcs].
  - intros c Hc. destruct (Hh a o c Ho Hc) as [Hac [oc [Hoc _]]].
    apply lookup_lt_Some in Hoc. apply IH; lia.
  - rewrite Hcs. eexists. reflexivity.
Qed.

Lemma read_section_level (h : list Obj) (n a : nat) (s : Section) :
  read_section n h a = Some s -> exists o, h !! a = Some o /\ level s = o_level o.
Proof.
  destruct n as [|n]; simpl; [discriminate|].
  destruct (h !! a) as [o|]; [|discriminate].
  destruct (mapM _ _); [|discriminate].
  intros [= <-]. exists o. split; reflexivity.
Qed.

Lemma read_section_nested (h : list Obj) :
  heap_ok h ->
  forall n a s, read_section n h a = Some s ->
  forall S C, S ∈ subsections s -> C ∈ children S -> (level S < level C)%Z.
Proof.
  intros Hh. induction n as [|n IH]; intros a s Hs S C HS HC; [discriminate Hs|].
  simpl in Hs. destruct (h !! a) as [o|] eqn:Ho; [|discriminate Hs].
  destruct (mapM (read_section n h) (o_children o)) as [cs|] eqn:Hcs; [|discriminate Hs].
  injection Hs as <-. apply mapM_Some in Hcs.
  simpl in HS. apply elem_of_cons in HS as [->|HS].
  - simpl in HC. simpl.
    apply list_elem_of_lookup in HC as [i Hi].
    destruct (Forall2_lookup_r _ _ _ _ _ Hcs Hi) as [c [Hc Hread]].
    destruct (read_section_level _ _ _ _ Hread) as [oc [Hoc ->]].
    destruct (Hh a o c Ho) as [_ [oc' [Hoc' Hlt]]].
    { apply list_elem_of_lookup. exists i. exact Hc. }
    rewrite Hoc in Hoc'. injection Hoc' as <-. exact Hlt.
  - apply list_elem_of_In, in_flat_map in HS as [c' [Hc' HS]].
    apply list_elem_of_In in Hc', HS.
    apply list_elem_of_lookup in Hc' as [i Hi].
    destruct (Forall2_lookup_r _ _ _ _ _ Hcs Hi) as [c [Hc Hread]].
    exact (IH c c' Hread S C HS HC).
Qed.

(** C5. [build_sections] returns a forest for every block sequence, and
    in that forest every child of every section, at any depth, has a
    strictly greater level than the section. *)
Theorem build_sections_children_deeper (blocks : list (string * string)) :
  exists forest,
    build_sections blocks = Some forest
    /\ forall root S C,
         root ∈ forest -> S ∈ subsections root -> C ∈ children S ->
         (level S < level C)%Z.
Proof.
  unfold build_sections, build_loop.
  assert (Hok : state_ok (fold_left build_step blocks (mkBuildState [] [] []))).
  { apply build_loop_ok. split; [|split]; simpl.
    - intros a o c Ha. rewrite lookup_nil in Ha. discriminate Ha.
    - intros a Ha. inversion Ha.
    - intros a Ha. inversion Ha. }
  set (st := fold_left build_step blocks (mkBuildState [] [] [])) in *.
  destruct Hok as (Hh & Hroot & _).
  destruct (mapM_is_Some (read_section (length (bs_heap st)) (bs_heap st)) (bs_root st))
    as [forest Hforest].
  - intros a Ha. apply read_section_total; [exact Hh | apply Hroot; exact Ha | lia].
  - exists forest. split; [exact Hforest|].
    intros root S C Hr HS HC. apply mapM_Some in Hforest.
    apply list_elem_of_lookup in Hr as [i Hi].
    destruct (Forall2_lookup_r _ _ _ _ _ Hforest Hi) as [a [_ Hread]].
    exact (read_section_nested _ Hh _ _ _ Hread S C HS HC).
Qed.

(** *** Where titles come from *)

(** The title of a section is the text of a heading block of the
    section's level, or it is the synthetic title of a level-1 section. *)
Definition title_source (blocks : list (string * string)) (lvl : Z) (t : string) : Prop :=
  (exists tag, (tag, t) ∈ blocks /\ level_map tag = Some lvl)
  \/ (t = "Overview" /\ lvl = 1%Z).

Definition titles_ok (blocks : list (string * string)) (h : list Obj) : Prop :=
  forall a o, h !! a = Some o -> title_source blocks (o_level o) (o_title o).

Lemma titles_ok_alloc (blocks : list (string * string)) (h : list Obj) (o : Obj) :
  titles_ok blocks h -> title_source blocks (o_level o) (o_title o) ->
  titles_ok blocks (h ++ [o]).
Proof.
  intros Hh Ho a o' Ha. apply lookup_app_Some in Ha as [Ha | [_ Ha]].
  - exact (Hh a o' Ha).
  - destruct (a - length h) as [|k]; simpl in Ha; [|discriminate Ha].
    injection Ha as <-. exact Ho.
Qed.

Lemma titles_ok_alter (blocks : list (string * string)) (h : list Obj)
    (f : Obj -> Obj) (p : nat) :
  (forall o, o_level (f o) = o_level o /\ o_title (f o) = o_title o) ->
  titles_ok blocks h -> titles_ok blocks (alter f p h).
Proof.
  intros Hf Hh a o' Ha.
  destruct (lookup_alter_inv _ _ _ _ _ Ha) as [o [Ho [[_ ->] | [_ ->]]]].
  - exact (Hh a o Ho).
  - destruct (Hf o) as [-> ->]. exact (Hh a o Ho).
Qed.

Lemma build_step_titles (blocks : list (string * string)) (st : BuildState)
    (block : string * string) :
  block ∈ blocks -> titles_ok blocks (bs_heap st) ->
  titles_ok blocks (bs_heap (build_step st block)).
Proof.
  intros Hin Hh. destruct block as [tag txt]. unfold build_step.
  destruct (level_map tag) as [lvl|] eqn:Htag.
  - assert (Hnew : titles_ok blocks (bs_heap st ++ [mkObj lvl txt "" []])).
    { apply titles_ok_alloc; [exact Hh|]. left. exists tag. split; assumption. }
    destruct (pop_while _ lvl (bs_stack st)) as [|p rest]; simpl; [exact Hnew|].
    apply titles_ok_alter; [|exact Hnew]. intros o. split; reflexivity.
  - destruct (bs_stack st) as [|p rest]; simpl.
    + apply titles_ok_alloc; [exact Hh|]. right. split; reflexivity.
    + apply titles_ok_alter; [|exact Hh]. intros o. split; reflexivity.
Qed.

Lemma build_loop_titles (blocks bs : list (string * string)) (st : BuildState) :
  (forall b, b ∈ bs -> b ∈ blocks) -> titles_ok blocks (bs_heap st) ->
  titles_ok blocks (bs_heap (fold_left build_step bs st)).
Proof.
  revert st. induction bs as [|b bs IH]; intros st Hsub Hst; simpl; [exact Hst|].
  apply IH; [intros b' Hb'; apply Hsub; right; exact Hb'|].
  apply build_step_titles; [apply Hsub; left | exact Hst].
Qed.

Lemma read_section_title (h : list Obj) (n a : nat) (s : Section) :
  read_section n h a = Some s ->
  exists o, h !! a = Some o /\ level s = o_level o /\ title s = o_title o.
Proof.
  destruct n as [|n]; simpl; [discriminate|].
  destruct (h !! a) as [o|]; [|discriminate].
  destruct (mapM _ _); [|discriminate].
  intros [= <-]. exists o. repeat split; reflexivity.
Qed.

(** Every top-level section that [build_sections] returns is titled by a
    heading block of its level or is a synthetic ["Overview"] section. *)
Lemma build_sections_title_source (blocks : list (string * string))
    (forest : list Section) (s : Section) :
  build_sections blocks = Some forest -> s ∈ forest ->
  title_source blocks (level s) (title s).
Proof.
  unfold build_sections, build_loop. intros Hforest Hs.
  apply mapM_Some_1 in Hforest.
  apply list_elem_of_lookup in Hs as [i Hi].
  destruct (Forall2_lookup_r _ _ _ _ _ Hforest Hi) as [a [_ Hread]].
  destruct (read_section_title _ _ _ _ Hread) as (o & Ho & -> & ->).
  refine (build_loop_titles blocks blocks _ (fun b Hb => Hb) _ a o Ho).
  intros a' o' Ha'. simpl in Ha'. rewrite lookup_nil in Ha'. discriminate Ha'.
Qed.

(** *** Text before any heading *)

Definition is_body_block (block : string * string) : Prop :=
  level_map (fst block) = None.

Definition overview_obj (block : string * string) : Obj :=
  mkObj 1 "Overview" (snd block) [].

Definition overview_section (block : string * string) : Section :=
  mkSection 1 "Overview" (snd block) [].

Lemma build_loop_body_only (blocks pre : list (string * string)) :
  Forall is_body_block blocks ->
  fold_left build_step blocks
    (mkBuildState (map overview_obj pre) (seq 0 (length pre)) [])
  = mkBuildState (map overview_obj (pre ++ blocks)) (seq 0 (length (pre ++ blocks))) [].
Proof.
  revert pre. induction blocks as [|[tag txt] blocks IH]; intros pre Hall.
  - simpl. rewrite app_nil_r. reflexivity.
  - inversion Hall as [|b bs Hb Hbs]; subst. unfold is_body_block in Hb. simpl in Hb.
    simpl. rewrite Hb. simpl.
    replace (pre ++ (tag, txt) :: blocks) with ((pre ++ [(tag, txt)]) ++ blocks)
      by (rewrite <- app_assoc; reflexivity).
    rewrite <- (IH (pre ++ [(tag, txt)]) Hbs).
    f_equal. f_equal.
    + rewrite map_app. reflexivity.
    + rewrite length_map, length_app. simpl.
      rewrite Nat.add_1_r, seq_S. reflexivity.
Qed.

Lemma read_overview (blocks : list (string * string)) (i : nat) (b : string * string) :
  blocks !! i = Some b ->
  read_section (length (map overview_obj blocks)) (map overview_obj blocks) i
  = Some (overview_section b).
Proof.
  intros Hb.
  assert (Hlen : length (map overview_obj blocks) <> 0).
  { rewrite length_map. apply lookup_lt_Some in Hb. lia. }
  destruct (length (map overview_obj blocks)) as [|n]; [congruence|].
  simpl. change (map overview_obj blocks) with (overview_obj <$> blocks).
  rewrite list_lookup_fmap, Hb. reflexivity.
Qed.

(** C3, as the specification words it, fails: two paragraphs and no
    heading yield two sections, not one. *)
Lemma build_sections_two_overviews :
  ~ (forall blocks : list (string * string),
       blocks <> [] -> Forall is_body_block blocks ->
       exists txt, build_sections blocks = Some [mkSection 1 "Overview" txt []]).
Proof.
  intros H.
  destruct (H [("p", "First paragraph."); ("p", "Second paragraph.")]) as [txt Htxt].
  - discriminate.
  - repeat constructor.
  - vm_compute in Htxt. discriminate Htxt.
Qed.

(** C3 (amended). For every block sequence without heading blocks,
    [build_sections] returns one synthetic level-1 section titled
    ["Overview"] for each body text block, in the order of the blocks, each
    carrying the text of its block verbatim and having no children; a
    single text block yields exactly one such section. *)
Theorem build_sections_overview (blocks : list (string * string)) :
  Forall is_body_block blocks ->
  build_sections blocks
  = Some (map (fun block => mkSection 1 "Overview" (snd block) []) blocks).
Proof.
  intros Hall. unfold build_sections, build_loop.
  pose proof (build_loop_body_only blocks [] Hall) as Hloop.
  simpl in Hloop. rewrite Hloop. simpl.
  apply mapM_Some_2. apply Forall2_same_length_lookup_2.
  - rewrite length_seq, length_map. reflexivity.
  - intros i a s Ha Hs.
    apply lookup_seq in Ha as [-> Hi]. simpl.
    change (map (fun block => mkSection 1 "Overview" (snd block) []) blocks)
      with (overview_section <$> blocks) in Hs.
    rewrite list_lookup_fmap in Hs.
    destruct (blocks !! i) as [b|] eqn:Hb; [|discriminate Hs].
    injection Hs as <-. apply read_overview. exact Hb.
Qed.

Lemma build_sections_overview_witness :
  build_sections [("p", "Some text")] = Some [mkSection 1 "Overview" "Some text" []].
Proof.
  apply (build_sections_overview [("p", "Some text")]).
  repeat constructor.
Defined.

(** ** Merging similar titles *)

Section MergeProperties.

Variable ratio : string -> string -> float.

(** The mapping is defined on the titles, and only on them, and it takes
    its values among them. *)
Definition canonical_ok (titles : list string) (m : gmap string string) : Prop :=
  (forall t, t ∈ titles -> is_Some (m !! t))
  /\ (forall t c, m !! t = Some c -> t ∈ titles /\ c ∈ titles).

Lemma canonical_ok_insert (titles : list string) (m : gmap string string) (t c : string) :
  canonical_ok titles m -> t ∈ titles -> c ∈ titles ->
  canonical_ok titles (<[t := c]> m).
Proof.
  intros [Hdom Hval] Ht Hc. split.
  - intros k Hk. destruct (decide (t = k)) as [->|Hne].
    + rewrite lookup_insert_eq. eexists. reflexivity.
    + rewrite lookup_insert_ne by exact Hne. apply Hdom, Hk.
  - intros k v Hkv. destruct (decide (t = k)) as [->|Hne].
    + rewrite lookup_insert_eq in Hkv. injection Hkv as <-. split; assumption.
    + rewrite lookup_insert_ne in Hkv by exact Hne. apply Hval, Hkv.
Qed.

Lemma identity_mapping_ok (titles ts : list string) (m : gmap string string) :
  (forall t, t ∈ ts -> t ∈ titles) ->
  (forall t c, m !! t = Some c -> t ∈ titles /\ c ∈ titles) ->
  let m' := fold_left (fun canonical t => <[t := t]> canonical) ts m in
  (forall t, t ∈ ts \/ is_Some (m !! t) -> is_Some (m' !! t))
  /\ (forall t c, m' !! t = Some c -> t ∈ titles /\ c ∈ titles).
Proof.
  revert m. induction ts as [|x ts IH]; intros m Hts Hm; simpl.
  - split; [|exact Hm]. intros t [Ht|Ht]; [inversion Ht | exact Ht].
  - destruct (IH (<[x := x]> m)) as [IH1 IH2].
    + intros t Ht. apply Hts. right. exact Ht.
    + intros t c Htc. destruct (decide (x = t)) as [->|Hne].
      * rewrite lookup_insert_eq in Htc. injection Htc as <-.
        split; apply Hts; left.
      * rewrite lookup_insert_ne in Htc by exact Hne. apply Hm, Htc.
    + split; [|exact IH2]. intros t Ht. apply IH1.
      destruct (decide (x = t)) as [->|Hne].
      * right. rewrite lookup_insert_eq. eexists. reflexivity.
      * rewrite lookup_insert_ne by exact Hne.
        destruct Ht as [Ht|Ht]; [|right; exact Ht].
        apply elem_of_cons in Ht as [->|Ht]; [congruence | left; exact Ht].
Qed.

Lemma merge_pair_ok (titles : list string) (threshold : float) (title1 title2 : string)
    (m : gmap string string) :
  canonical_ok titles m -> title1 ∈ titles -> title2 ∈ titles ->
  canonical_ok titles (merge_pair ratio threshold title1 m title2).
Proof.
  intros Hm H1 H2. unfold merge_pair.
  destruct (PrimFloat.leb threshold _); [|exact Hm].
  destruct (Py.len title1 <=? Py.len title2)%Z;
    repeat apply canonical_ok_insert; assumption.
Qed.

Lemma merge_inner_ok (titles : list string) (threshold : float) (title1 : string)
    (rest : list string) (m : gmap string string) :
  canonical_ok titles m -> title1 ∈ titles -> (forall t, t ∈ rest -> t ∈ titles) ->
  canonical_ok titles (fold_left (merge_pair ratio threshold title1) rest m).
Proof.
  revert m. induction rest as [|title2 rest IH]; intros m Hm H1 Hrest; simpl.
  - exact Hm.
  - apply IH; [|exact H1|intros t Ht; apply Hrest; right; exact Ht].
    apply merge_pair_ok; [exact Hm | exact H1 | apply Hrest; left].
Qed.

Lemma merge_loop_ok (titles : list string) (threshold : float) (ts : list string)
    (m : gmap string string) :
  canonical_ok titles m -> (forall t, t ∈ ts -> t ∈ titles) ->
  canonical_ok titles (merge_loop ratio threshold ts m).
Proof.
  revert m. induction ts as [|title1 rest IH]; intros m Hm Hts; simpl.
  - exact Hm.
  - apply IH; [|intros t Ht; apply Hts; right; exact Ht].
    apply merge_inner_ok; [exact Hm | apply Hts; left |].
    intros t Ht. apply Hts. right. exact Ht.
Qed.

Lemma merge_similar_titles_ok (titles : list string) (threshold : float) :
  canonical_ok titles (merge_similar_titles ratio titles threshold).
Proof.
  unfold merge_similar_titles. apply merge_loop_ok; [|tauto].
  destruct (identity_mapping_ok titles titles ∅) as [H1 H2].
  - tauto.
  - intros t c Htc. rewrite lookup_empty in Htc. discriminate Htc.
  - split; [|exact H2]. intros t Ht. apply H1. left. exact Ht.
Qed.

(** The shorter of two titles; the first one when they are equally long. *)
Definition shorter (title1 title2 : string) : string :=
  if (Py.len title1 <=? Py.len title2)%Z then title1 else title2.

Lemma shorter_spec (title1 title2 : string) :
  (shorter title1 title2 = title1 \/ shorter title1 title2 = title2)
  /\ (Py.len (shorter title1 title2) <= Py.len title1)%Z
  /\ (Py.len (shorter title1 title2) <= Py.len title2)%Z.
Proof.
  unfold shorter.
  destruct (Z.leb_spec (Py.len title1) (Py.len title2)) as [H|H].
  - split; [left; reflexivity | lia].
  - split; [right; reflexivity | lia].
Qed.

(** C6. For every two-element list [[t1; t2]] whose normalized titles have
    a similarity ratio of at least the threshold, [merge_similar_titles]
    maps both [t1] and [t2] to the shorter of the two original strings
    ([t1] when they are equally long); and a title listed twice maps to
    itself, whatever the ratio. *)
Theorem merge_two_titles (threshold : float) (t1 t2 : string) :
  (PrimFloat.leb threshold (ratio (normalize_title t1) (normalize_title t2)) = true ->
   let m := merge_similar_titles ratio [t1; t2] threshold in
   m !! t1 = Some (shorter t1 t2) /\ m !! t2 = Some (shorter t1 t2)
   /\ (shorter t1 t2 = t1 \/ shorter t1 t2 = t2)
   /\ (Py.len (shorter t1 t2) <= Py.len t1)%Z
   /\ (Py.len (shorter t1 t2) <= Py.len t2)%Z)
  /\ merge_similar_titles ratio [t1; t1] threshold !! t1 = Some t1.
Proof.
  split.
  - intros Hsim. cbv zeta.
    unfold merge_similar_titles. simpl. unfold merge_pair. rewrite Hsim.
    fold (shorter t1 t2).
    destruct (shorter_spec t1 t2) as (Hc & Hl1 & Hl2).
    split; [|split; [|split; [|split]]]; try assumption.
    + destruct (decide (t2 = t1)) as [->|Hne].
      * rewrite lookup_insert_eq. reflexivity.
      * rewrite lookup_insert_ne by exact Hne. rewrite lookup_insert_eq. reflexivity.
    + rewrite lookup_insert_eq. reflexivity.
  - unfold merge_similar_titles. simpl. unfold merge_pair.
    destruct (PrimFloat.leb threshold _).
    + rewrite Z.leb_refl. rewrite lookup_insert_eq. reflexivity.
    + rewrite lookup_insert_eq. reflexivity.
Qed.

End MergeProperties.

Lemma merge_two_titles_witness :
  let m := merge_similar_titles Difflib.ratio ["Users Management"; "User Management"] 0.8 in
  m !! "Users Management" = Some "User Management"
  /\ m !! "User Management" = Some "User Management".
Proof.
  destruct (proj1 (merge_two_titles Difflib.ratio 0.8 "Users Management" "User Management"))
    as (H1 & H2 & _).
  - vm_compute. reflexivity.
  - split; [exact H1 | exact H2].
Defined.

(** ** Insertion-ordered dictionaries: keys and entries *)

Section AlistProperties.

Context {V : Type}.
Implicit Types (d : list (string * V)) (k : string) (v : V).

Lemma alist_lookup_Some d k v :
  alist_lookup k d = Some v -> (k, v) ∈ d.
Proof.
  induction d as [|[k' v'] d IH]; simpl; [discriminate|].
  destruct (String.eqb_spec k k') as [->|Hne].
  - intros [= ->]. left.
  - intros H. right. apply IH, H.
Qed.

Lemma alist_lookup_None d k :
  alist_lookup k d = None <-> k ∉ map fst d.
Proof.
  induction d as [|[k' v'] d IH]; simpl.
  - split; [intros _ H; inversion H | reflexivity].
  - destruct (String.eqb_spec k k') as [->|Hne].
    + split; [discriminate | intros H; exfalso; apply H; left].
    + rewrite IH. rewrite not_elem_of_cons. tauto.
Qed.

Lemma alist_lookup_NoDup d k v :
  NoDup (map fst d) -> (k, v) ∈ d -> alist_lookup k d = Some v.
Proof.
  induction d as [|[k' v'] d IH]; simpl; intros Hnd Hin; [inversion Hin|].
  apply NoDup_cons in Hnd as [Hk' Hnd].
  apply elem_of_cons in Hin as [[= -> ->]|Hin].
  - rewrite String.eqb_refl. reflexivity.
  - destruct (String.eqb_spec k k') as [->|Hne]; [|apply IH; assumption].
    exfalso. apply Hk'. change k' with (fst (k', v)).
    apply list_elem_of_In, in_map, list_elem_of_In, Hin.
Qed.

(** What an update leaves behind: the entry of [k] holds [f] of the old
    value (of the default if there was none), the others are untouched. *)
Lemma alist_update_lookup (dflt : V) (f : V -> V) d k k' :
  alist_lookup k' (alist_update dflt f k d)
  = if String.eqb k' k then Some (f (default dflt (alist_lookup k d)))
    else alist_lookup k' d.
Proof.
  induction d as [|[k0 v0] d IH]; simpl.
  - destruct (k' =? k)%string; reflexivity.
  - destruct (String.eqb_spec k k0) as [->|Hne]; simpl.
    + destruct (String.eqb_spec k' k0); reflexivity.
    + rewrite IH. destruct (String.eqb_spec k' k0) as [->|Hne'].
      * destruct (String.eqb_spec k0 k); [congruence | reflexivity].
      * reflexivity.
Qed.

Lemma alist_update_keys (dflt : V) (f : V -> V) d k :
  map fst (alist_update dflt f k d)
  = if bool_decide (k ∈ map fst d) then map fst d else map fst d ++ [k].
Proof.
  induction d as [|[k0 v0] d IH]; simpl; [reflexivity|].
  destruct (String.eqb_spec k k0) as [->|Hne]; simpl.
  - rewrite bool_decide_eq_true_2 by left. reflexivity.
  - rewrite IH. destruct (bool_decide (k ∈ map fst d)) eqn:Hd.
    + apply bool_decide_eq_true_1 in Hd.
      rewrite bool_decide_eq_true_2 by (right; exact Hd). reflexivity.
    + apply bool_decide_eq_false_1 in Hd.
      rewrite bool_decide_eq_false_2; [reflexivity|].
      rewrite not_elem_of_cons. split; assumption.
Qed.

Lemma alist_update_NoDup (dflt : V) (f : V -> V) d k :
  NoDup (map fst d) -> NoDup (map fst (alist_update dflt f k d)).
Proof.
  intros Hnd. rewrite alist_update_keys.
  destruct (bool_decide (k ∈ map fst d)) eqn:Hd; [exact Hnd|].
  apply bool_decide_eq_false_1 in Hd.
  apply NoDup_app. split; [exact Hnd|]. split.
  - intros x Hx Hx'. apply list_elem_of_singleton in Hx' as ->. contradiction.
  - apply NoDup_singleton.
Qed.

Lemma alist_update_key_in (dflt : V) (f : V -> V) d k k' :
  k' ∈ map fst (alist_update dflt f k d) <-> k' = k \/ k' ∈ map fst d.
Proof.
  rewrite alist_update_keys.
  destruct (bool_decide (k ∈ map fst d)) eqn:Hd.
  - apply bool_decide_eq_true_1 in Hd. split; [tauto|].
    intros [->|H]; assumption.
  - rewrite elem_of_app, list_elem_of_singleton. tauto.
Qed.

End AlistProperties.

(** The value of a [defaultdict(list)] at a key. *)
Definition alist_get {A : Type} (k : string) (d : list (string * list A)) : list A :=
  default [] (alist_lookup k d).

Lemma alist_extend_get {A : Type} (k k' : string) (vs : list A)
    (d : list (string * list A)) :
  alist_get k' (alist_extend k vs d)
  = if String.eqb k' k then alist_get k d ++ vs else alist_get k' d.
Proof.
  unfold alist_get, alist_extend. rewrite alist_update_lookup.
  destruct (k' =? k)%string; reflexivity.
Qed.

Lemma alist_entry_get {A : Type} (k : string) (vs : list A) (d : list (string * list A)) :
  NoDup (map fst d) -> (k, vs) ∈ d -> alist_get k d = vs.
Proof.
  intros Hnd Hin. unfold alist_get. rewrite (alist_lookup_NoDup d k vs Hnd Hin).
  reflexivity.
Qed.

Lemma alist_key_entry {A : Type} (k : string) (d : list (string * list A)) :
  k ∈ map fst d -> (k, alist_get k d) ∈ d.
Proof.
  intros Hk. unfold alist_get.
  destruct (alist_lookup k d) as [vs|] eqn:Hl.
  - apply alist_lookup_Some in Hl. exact Hl.
  - apply alist_lookup_None in Hl. contradiction.
Qed.

(** ** Gathering the module candidates of the pages *)

Section GatherProperties.

Variable html_blocks : string -> result (list (string * string)).

(** A module candidate found at [u]: a top-level section of a page stored
    under [u] that parses, with a valid title and a level of at most 2. *)
Definition candidate (pages : list (string * string)) (u : string) (s : Section) : Prop :=
  exists html sections,
    (u, html) ∈ pages
    /\ extract_sections html_blocks html = Ok sections
    /\ s ∈ sections
    /\ is_valid_module_title (title s) = true
    /\ (level s <= 2)%Z.

(** The accumulators hold exactly the candidates that [P] describes. *)
Definition gathered_ok (P : string -> Section -> Prop) (g : Gathered) : Prop :=
  NoDup (map fst (module_sections g))
  /\ (forall t, t ∈ map fst (module_sections g) -> alist_get t (module_sections g) <> [])
  /\ (forall t s, s ∈ alist_get t (module_sections g) <-> title s = t /\ exists u, P u s)
  /\ (forall t u, u ∈ sources_of (section_sources g) t <-> exists s, title s = t /\ P u s).

Lemma gathered_ok_equiv (P P' : string -> Section -> Prop) (g : Gathered) :
  (forall u s, P u s <-> P' u s) -> gathered_ok P g -> gathered_ok P' g.
Proof.
  intros Heq (Hnd & Hne & Hsec & Hsrc). split; [exact Hnd|]. split; [exact Hne|]. split.
  - intros t s. rewrite Hsec. split; intros [Ht [u Hu]]; (split; [exact Ht|]);
      exists u; apply Heq; exact Hu.
  - intros t u. rewrite Hsrc. split; intros [s [Ht Hs]]; exists s; (split; [exact Ht|]);
      apply Heq; exact Hs.
Qed.

Lemma infer_from_sections_spec (url : string) (sections : list Section) :
  let grouped := infer_from_sections sections url in
  NoDup (map fst grouped)
  /\ (forall t s, s ∈ alist_get t grouped
                  <-> s ∈ sections /\ title s = t /\ is_valid_module_title (title s) = true)
  /\ (forall t, t ∈ map fst grouped
                <-> exists s, s ∈ sections /\ title s = t
                              /\ is_valid_module_title (title s) = true).
Proof.
  unfold infer_from_sections.
  set (step := fun (grouped : list (string * list Section)) (section : Section) =>
                 if negb (is_valid_module_title (title section)) then grouped
                 else alist_extend (title section) [section] grouped).
  assert (Hgen : forall secs acc,
    NoDup (map fst acc) ->
    NoDup (map fst (fold_left step secs acc))
    /\ (forall t s, s ∈ alist_get t (fold_left step secs acc)
          <-> s ∈ alist_get t acc
              \/ (s ∈ secs /\ title s = t /\ is_valid_module_title (title s) = true))
    /\ (forall t, t ∈ map fst (fold_left step secs acc)
          <-> t ∈ map fst acc
              \/ exists s, s ∈ secs /\ title s = t
                           /\ is_valid_module_title (title s) = true)).
  { induction secs as [|x secs IH]; intros acc Hnd; simpl.
    - split; [exact Hnd|]. split.
      + intros t s. split; [tauto|]. intros [H|[H _]]; [exact H | inversion H].
      + intros t. split; [tauto|]. intros [H | [s [H _]]]; [exact H | inversion H].
    - change (step acc x)
        with (if negb (is_valid_module_title (title x)) then acc
              else alist_extend (title x) [x] acc).
      destruct (is_valid_module_title (title x)) eqn:Hv; simpl.
      + destruct (IH (alist_extend (title x) [x] acc)) as (IH1 & IH2 & IH3).
        { apply alist_update_NoDup, Hnd. }
        split; [exact IH1|]. split.
        * intros t s. rewrite IH2, alist_extend_get.
          destruct (String.eqb_spec t (title x)) as [->|Hne].
          -- rewrite elem_of_app, list_elem_of_singleton, elem_of_cons.
             split.
             ++ intros [[H | ->] | H]; [tauto | | tauto].
                right. split; [left; reflexivity | split; [reflexivity | exact Hv]].
             ++ intros [H|[[-> | H] [Ht Hs]]]; tauto.
          -- rewrite elem_of_cons. split; [tauto|].
             intros [H|[[-> | H] [Ht Hs]]]; [tauto | congruence | tauto].
        * intros t. rewrite IH3. unfold alist_extend. rewrite alist_update_key_in.
          split.
          -- intros [[-> | H]|[s [Hs Hrest]]].
             ++ right. exists x. split; [left | split; [reflexivity | exact Hv]].
             ++ left. exact H.
             ++ right. exists s. split; [right; exact Hs | exact Hrest].
          -- intros [H | [s [Hs [Ht Hvs]]]]; [tauto|].
             apply elem_of_cons in Hs as [->|Hs]; [left; left; congruence|].
             right. exists s. tauto.
      + destruct (IH acc Hnd) as (IH1 & IH2 & IH3).
        split; [exact IH1|]. split.
        * intros t s. rewrite IH2, elem_of_cons. split; [tauto|].
          intros [H|[[-> | H] [Ht Hs]]]; [tauto | congruence | tauto].
        * intros t. rewrite IH3. split.
          -- intros [H | [s [Hs Hrest]]]; [tauto|].
             right. exists s. split; [right; exact Hs | exact Hrest].
          -- intros [H | [s [Hs [Ht Hvs]]]]; [tauto|].
             apply elem_of_cons in Hs as [->|Hs]; [congruence|].
             right. exists s. tauto. }
  destruct (Hgen sections [] (NoDup_nil_2)) as (H1 & H2 & H3).
  split; [exact H1|]. split.
  - intros t s. rewrite H2. unfold alist_get. simpl. rewrite elem_of_nil. tauto.
  - intros t. rewrite H3. simpl. rewrite elem_of_nil. tauto.
Qed.

Lemma elem_of_List_filter {A : Type} (f : A -> bool) (l : list A) (x : A) :
  x ∈ List.filter f l <-> x ∈ l /\ f x = true.
Proof. rewrite !list_elem_of_In. apply filter_In. Qed.

Lemma gather_group_ok (P : string -> Section -> Prop) (url : string)
    (Q : Section -> Prop) (g : Gathered) (t : string) (secs : list Section) :
  gathered_ok P g ->
  (forall s, s ∈ secs <-> Q s /\ title s = t) ->
  gathered_ok (fun u s => P u s \/ (u = url /\ Q s /\ (level s <= 2)%Z /\ title s = t))
              (gather_group url g (t, secs)).
Proof.
  intros Hg Hsecs. unfold gather_group.
  assert (Hvalid : forall s, s ∈ List.filter (fun s => (level s <=? 2)%Z) secs
                             <-> Q s /\ (level s <= 2)%Z /\ title s = t).
  { intros s. rewrite elem_of_List_filter, Hsecs, Z.leb_le. tauto. }
  destruct (List.filter (fun s => (level s <=? 2)%Z) secs) as [|v vs] eqn:Hf.
  - eapply gathered_ok_equiv; [|exact Hg]. intros u s. split; [tauto|].
    intros [H | (_ & HQ & Hl & Ht)]; [exact H|].
    exfalso. assert (Hs : s ∈ []) by (apply Hvalid; tauto). inversion Hs.
  - destruct Hg as (Hnd & Hne & Hsec & Hsrc).
    assert (Hv : Q v /\ (level v <= 2)%Z /\ title v = t) by (apply Hvalid; left).
    split; [|split; [|split]]; simpl.
    + apply alist_update_NoDup, Hnd.
    + intros t' Ht'. rewrite alist_extend_get.
      destruct (String.eqb_spec t' t) as [-> | Hneq].
      * intros Happ. apply app_eq_nil in Happ as [_ Happ]. discriminate Happ.
      * apply Hne. unfold alist_extend in Ht'. apply alist_update_key_in in Ht'.
        destruct Ht' as [-> | Ht']; [congruence | exact Ht'].
    + intros t' s. rewrite alist_extend_get.
      destruct (String.eqb_spec t' t) as [-> | Hneq].
      * rewrite elem_of_app, Hsec, Hvalid. split.
        -- intros [[Ht [u Hu]] | (HQ & Hl & Ht)].
           ++ split; [exact Ht|]. exists u. left. exact Hu.
           ++ split; [exact Ht|]. exists url. right. tauto.
        -- intros [Ht [u [Hu | (_ & HQ & Hl & _)]]].
           ++ left. split; [exact Ht|]. exists u. exact Hu.
           ++ right. tauto.
      * rewrite Hsec. split.
        -- intros [Ht [u Hu]]. split; [exact Ht|]. exists u. left. exact Hu.
        -- intros [Ht [u [Hu | (_ & _ & _ & Ht')]]]; [|congruence].
           split; [exact Ht|]. exists u. exact Hu.
    + intros t' u. unfold sources_of at 1.
      destruct (decide (t = t')) as [<- | Hneq].
      * rewrite lookup_insert_eq. simpl. rewrite elem_of_union, elem_of_singleton, Hsrc.
        split.
        -- intros [-> | [s [Ht Hs]]].
           ++ exists v. split; [tauto|]. right. tauto.
           ++ exists s. split; [exact Ht|]. left. exact Hs.
        -- intros [s [Ht [Hs | (Hu & _)]]].
           ++ right. exists s. split; assumption.
           ++ left. exact Hu.
      * rewrite lookup_insert_ne by exact Hneq.
        fold (sources_of (section_sources g) t'). rewrite Hsrc. split.
        -- intros [s [Ht Hs]]. exists s. split; [exact Ht|]. left. exact Hs.
        -- intros [s [Ht [Hs | (_ & _ & _ & Ht')]]]; [|congruence].
           exists s. split; assumption.
Qed.

Lemma gather_groups_ok (url : string) (Q : Section -> Prop)
    (entries : list (string * list Section)) :
  (forall t secs, (t, secs) ∈ entries -> forall s, s ∈ secs <-> Q s /\ title s = t) ->
  forall (P : string -> Section -> Prop) (g : Gathered),
  gathered_ok P g ->
  gathered_ok
    (fun u s => P u s \/ (u = url /\ Q s /\ (level s <= 2)%Z /\ title s ∈ map fst entries))
    (fold_left (gather_group url) entries g).
Proof.
  induction entries as [|[t secs] entries IH]; intros Hent P g Hg; simpl.
  - eapply gathered_ok_equiv; [|exact Hg]. intros u s. split; [tauto|].
    intros [H | (_ & _ & _ & H)]; [exact H | inversion H].
  - assert (H1 := gather_group_ok P url Q g t secs Hg
                    (Hent t secs (list_elem_of_here _ _))).
    assert (H2 := IH (fun t' secs' Hin => Hent t' secs' (list_elem_of_further _ _ _ Hin))
                     _ _ H1).
    eapply gathered_ok_equiv; [|exact H2].
    intros u s. cbv beta. rewrite elem_of_cons. split.
    + intros [[H | H] | H]; [left; exact H | right; tauto | right; tauto].
    + intros [H | (Hu & HQ & Hl & [Ht | Ht])];
        [left; left; exact H | left; right; tauto | right; tauto].
Qed.

Lemma candidate_snoc (done : list (string * string)) (url html : string)
    (u : string) (s : Section) :
  candidate (done ++ [(url, html)]) u s
  <-> candidate done u s
      \/ (u = url
          /\ exists sections, extract_sections html_blocks html = Ok sections
                              /\ s ∈ sections
                              /\ is_valid_module_title (title s) = true
                              /\ (level s <= 2)%Z).
Proof.
  unfold candidate. split.
  - intros (h & secs & Hin & Hrest). apply elem_of_app in Hin as [Hin | Hin].
    + left. exists h, secs. split; assumption.
    + apply list_elem_of_singleton in Hin. injection Hin as -> ->.
      right. split; [reflexivity|]. exists secs. exact Hrest.
  - intros [(h & secs & Hin & Hrest) | (-> & secs & Hrest)].
    + exists h, secs. split; [apply elem_of_app; left; exact Hin | exact Hrest].
    + exists html, secs. split; [|exact Hrest].
      apply elem_of_app. right. left.
Qed.

Lemma gather_page_ok (done : list (string * string)) (url html : string) (g : Gathered) :
  gathered_ok (candidate done) g ->
  gathered_ok (candidate (done ++ [(url, html)])) (gather_page html_blocks g (url, html)).
Proof.
  intros Hg. unfold gather_page.
  destruct (extract_sections html_blocks html) as [sections|] eqn:Hex.
  - destruct (infer_from_sections_spec url sections) as (Hnd & Hget & Hkeys).
    assert (Hent : forall t secs, (t, secs) ∈ infer_from_sections sections url ->
              forall s, s ∈ secs
                <-> (s ∈ sections /\ is_valid_module_title (title s) = true)
                    /\ title s = t).
    { intros t secs Hin s.
      rewrite <- (alist_entry_get t secs _ Hnd Hin). rewrite Hget. tauto. }
    assert (H1 := gather_groups_ok url _ _ Hent _ _ Hg).
    eapply gathered_ok_equiv; [|exact H1].
    intros u s. rewrite candidate_snoc. cbv beta. split.
    + intros [H | (Hu & (Hs & Hv) & Hl & _)]; [left; exact H|].
      right. split; [exact Hu|]. exists sections. tauto.
    + intros [H | (Hu & secs & Hsecs & Hs & Hv & Hl)]; [left; exact H|].
      rewrite Hex in Hsecs. injection Hsecs as <-.
      right. split; [exact Hu|]. split; [tauto|]. split; [exact Hl|].
      apply Hkeys. exists s. tauto.
  - eapply gathered_ok_equiv; [|exact Hg].
    intros u s. rewrite candidate_snoc. split; [tauto|].
    intros [H | (_ & secs & Habs & _)]; [exact H|].
    rewrite Hex in Habs. discriminate Habs.
Qed.

Lemma gather_pages_ok (rest done : list (string * string)) (g : Gathered) :
  gathered_ok (candidate done) g ->
  gathered_ok (candidate (done ++ rest)) (fold_left (gather_page html_blocks) rest g).
Proof.
  revert done g. induction rest as [|[url html] rest IH]; intros done g Hg; simpl.
  - rewrite app_nil_r. exact Hg.
  - replace (done ++ (url, html) :: rest) with ((done ++ [(url, html)]) ++ rest)
      by (rewrite <- app_assoc; reflexivity).
    apply IH, gather_page_ok, Hg.
Qed.

(** The accumulators of the first loop of [infer_modules] hold exactly
    the module candidates of the pages. *)
Lemma gather_ok (pages : list (string * string)) :
  gathered_ok (candidate pages) (gather html_blocks pages).
Proof.
  unfold gather. apply (gather_pages_ok pages []).
  split; [|split; [|split]]; simpl.
  - apply NoDup_nil_2.
  - intros t Ht. inversion Ht.
  - intros t s. unfold alist_get. simpl. rewrite elem_of_nil. split; [tauto|].
    intros [_ [u (h & secs & Hin & _)]]. inversion Hin.
  - intros t u. unfold sources_of. rewrite lookup_empty. simpl.
    rewrite elem_of_empty. split; [tauto|].
    intros [s [_ (h & secs & Hin & _)]]. inversion Hin.
Qed.

End GatherProperties.

(** ** Regrouping under the canonical titles *)

Definition maps_to (title_mapping : gmap string string) (canonical : string)
    (entry : string * list Section) : bool :=
  bool_decide (title_mapping !! fst entry = Some canonical).

(** The sections filed under the titles that map to [canonical], in the
    order of [module_sections]. *)
Definition contributing_sections (entries : list (string * list Section))
    (title_mapping : gmap string string) (canonical : string) : list Section :=
  concat (map snd (List.filter (maps_to title_mapping canonical) entries)).

(** The union of the source URLs of the titles that map to [canonical]. *)
Definition aggregated_sources (entries : list (string * list Section))
    (sources : gmap string (gset string))
    (title_mapping : gmap string string) (canonical : string) : gset string :=
  ⋃ (map (fun entry => sources_of sources (fst entry))
         (List.filter (maps_to title_mapping canonical) entries)).

Lemma sources_of_insert (m : gmap string (gset string)) (k k' : string) (X : gset string) :
  sources_of (<[k := X]> m) k' = if decide (k = k') then X else sources_of m k'.
Proof.
  unfold sources_of. destruct (decide (k = k')) as [->|Hne].
  - rewrite lookup_insert_eq. reflexivity.
  - rewrite lookup_insert_ne by exact Hne. reflexivity.
Qed.

Lemma reorganize_spec (title_mapping : gmap string string)
    (sources : gmap string (gset string)) (entries : list (string * list Section)) :
  forall m0 m,
  reorganize title_mapping sources entries m0 = Ok m ->
  NoDup (map fst (merged_modules m0)) ->
  NoDup (map fst (merged_modules m))
  /\ (forall c, alist_get c (merged_modules m)
                = alist_get c (merged_modules m0)
                  ++ contributing_sections entries title_mapping c)
  /\ (forall c, sources_of (merged_sources m) c
                = sources_of (merged_sources m0) c
                  ∪ aggregated_sources entries sources title_mapping c)
  /\ (forall c, c ∈ map fst (merged_modules m)
                <-> c ∈ map fst (merged_modules m0)
                    \/ exists orig secs, (orig, secs) ∈ entries
                                         /\ title_mapping !! orig = Some c).
Proof.
  induction entries as [|[orig secs] entries IH]; intros m0 m Hre Hnd; simpl in Hre.
  - injection Hre as <-. split; [exact Hnd|]. split; [|split].
    + intros c. unfold contributing_sections. simpl. rewrite app_nil_r. reflexivity.
    + intros c. unfold aggregated_sources. simpl. rewrite union_empty_r_L. reflexivity.
    + intros c. split; [tauto|]. intros [H | (o & s & Hin & _)]; [exact H | inversion Hin].
  - destruct (title_mapping !! orig) as [canonical|] eqn:Hmap; [|discriminate Hre].
    destruct (IH _ _ Hre) as (IH1 & IH2 & IH3 & IH4).
    { simpl. apply alist_update_NoDup, Hnd. }
    simpl in IH2, IH3, IH4. split; [exact IH1|]. split; [|split].
    + intros c. rewrite IH2, alist_extend_get.
      unfold contributing_sections. simpl. unfold maps_to at 2. simpl. rewrite Hmap.
      destruct (String.eqb_spec c canonical) as [->|Hne].
      * rewrite bool_decide_eq_true_2 by reflexivity. simpl.
        rewrite <- app_assoc. reflexivity.
      * rewrite bool_decide_eq_false_2 by congruence. reflexivity.
    + intros c. rewrite IH3, sources_of_insert.
      unfold aggregated_sources. simpl. unfold maps_to at 2. simpl. rewrite Hmap.
      destruct (decide (canonical = c)) as [->|Hne].
      * rewrite bool_decide_eq_true_2 by reflexivity. simpl.
        rewrite (assoc_L (∪)). reflexivity.
      * rewrite bool_decide_eq_false_2 by congruence. reflexivity.
    + intros c. rewrite IH4. unfold alist_extend. rewrite alist_update_key_in. split.
      * intros [[-> | H] | (o & s & Hin & Ho)].
        -- right. exists orig, secs. split; [left | exact Hmap].
        -- left. exact H.
        -- right. exists o, s. split; [right; exact Hin | exact Ho].
      * intros [H | (o & s & Hin & Ho)]; [left; right; exact H|].
        apply elem_of_cons in Hin as [[= -> ->] | Hin].
        -- left. left. congruence.
        -- right. exists o, s. split; assumption.
Qed.

Lemma reorganize_total (title_mapping : gmap string string)
    (sources : gmap string (gset string)) (entries : list (string * list Section)) :
  (forall t, t ∈ map fst entries -> is_Some (title_mapping !! t)) ->
  forall m0, exists m, reorganize title_mapping sources entries m0 = Ok m.
Proof.
  induction entries as [|[orig secs] entries IH]; intros Hdom m0; simpl.
  - exists m0. reflexivity.
  - destruct (Hdom orig) as [c Hc]; [left|]. rewrite Hc.
    apply IH. intros t Ht. apply Hdom. right. exact Ht.
Qed.

Lemma elem_of_contributing (entries : list (string * list Section))
    (title_mapping : gmap string string) (c : string) (s : Section) :
  s ∈ contributing_sections entries title_mapping c
  <-> exists orig secs, (orig, secs) ∈ entries /\ title_mapping !! orig = Some c /\ s ∈ secs.
Proof.
  unfold contributing_sections. rewrite list_elem_of_In, in_concat. split.
  - intros (l & Hl & Hs). apply in_map_iff in Hl as ([orig secs] & <- & Hin).
    apply filter_In in Hin as [Hin Hm]. unfold maps_to in Hm.
    apply bool_decide_eq_true_1 in Hm. simpl in *.
    exists orig, secs. rewrite !list_elem_of_In. tauto.
  - intros (orig & secs & Hin & Hm & Hs). exists secs. split.
    + apply in_map_iff. exists (orig, secs). split; [reflexivity|].
      apply filter_In. split; [apply list_elem_of_In, Hin|].
      unfold maps_to. apply bool_decide_eq_true_2. exact Hm.
    + apply list_elem_of_In, Hs.
Qed.

Lemma elem_of_aggregated (entries : list (string * list Section))
    (sources : gmap string (gset string))
    (title_mapping : gmap string string) (c u : string) :
  u ∈ aggregated_sources entries sources title_mapping c
  <-> exists orig, orig ∈ map fst entries /\ title_mapping !! orig = Some c
                   /\ u ∈ sources_of sources orig.
Proof.
  unfold aggregated_sources. rewrite elem_of_union_list. split.
  - intros (X & HX & Hu). apply list_elem_of_In, in_map_iff in HX as ([orig secs] & <- & Hin).
    apply filter_In in Hin as [Hin Hm]. unfold maps_to in Hm.
    apply bool_decide_eq_true_1 in Hm. simpl in *.
    exists orig. split; [|tauto].
    apply list_elem_of_In, in_map_iff. exists (orig, secs). tauto.
  - intros (orig & Hin & Hm & Hu).
    apply list_elem_of_In, in_map_iff in Hin as ([orig' secs] & Ho & Hin). simpl in Ho. subst.
    exists (sources_of sources orig). split; [|exact Hu].
    apply list_elem_of_In, in_map_iff. exists (orig, secs). split; [reflexivity|].
    apply filter_In. split; [exact Hin|].
    unfold maps_to. apply bool_decide_eq_true_2. exact Hm.
Qed.

(** ** Submodules *)

(** The children that may become submodules. *)
Definition eligible (child : Section) : bool :=
  (level child <=? 4)%Z && is_valid_module_title (title child).

Definition submodule_candidates (secs : list Section) : list Section :=
  List.filter eligible (concat (map children secs)).

(** Deduplication by exact title, the first occurrence winning. *)
Fixpoint dedup_first (l : list Section) : list Section :=
  match l with
  | [] => []
  | c :: rest =>
      c :: List.filter (fun d => negb (String.eqb (title d) (title c))) (dedup_first rest)
  end.

Example dedup_first_keeps_the_first :
  dedup_first [mkSection 2 "A" "one" []; mkSection 2 "B" "two" [];
               mkSection 3 "A" "three" []; mkSection 2 "C" "four" [];
               mkSection 2 "B" "five" []]
  = [mkSection 2 "A" "one" []; mkSection 2 "B" "two" []; mkSection 2 "C" "four" []].
Proof. reflexivity. Qed.

Definition submodule_of (urls : list string) (child : Section) : Submodule :=
  mkSubmodule (title child) (submodule_description child) urls
              (calculate_confidence child false).

Definition fresh (keys : list string) (c : Section) : bool :=
  negb (bool_decide (title c ∈ keys)).

Lemma filter_filter_comm {A : Type} (f g : A -> bool) (l : list A) :
  List.filter f (List.filter g l) = List.filter (fun x => g x && f x) l.
Proof.
  induction l as [|x l IH]; simpl; [reflexivity|].
  destruct (g x); simpl; [destruct (f x); rewrite IH; reflexivity | exact IH].
Qed.

Lemma add_submodules_spec (srcs : gmap string (gset string)) (t : string)
    (cands : list Section) :
  forall acc : list (string * Submodule),
  fold_left (add_submodule srcs t) cands acc
  = acc ++ map (fun c => (title c, submodule_of (source_list srcs t) c))
               (List.filter (fresh (map fst acc))
                            (dedup_first (List.filter eligible cands))).
Proof.
  induction cands as [|c cands IH]; intros acc; simpl.
  - rewrite app_nil_r. reflexivity.
  - unfold add_submodule at 2. fold (eligible c).
    destruct (eligible c) eqn:He; simpl; [|apply IH].
    destruct (alist_lookup (title c) acc) as [v|] eqn:Hl.
    + rewrite IH. f_equal. f_equal.
      assert (Hin : title c ∈ map fst acc).
      { destruct (decide (title c ∈ map fst acc)) as [H|H]; [exact H|].
        apply alist_lookup_None in H. congruence. }
      unfold fresh at 2. rewrite bool_decide_eq_true_2 by exact Hin. simpl.
      rewrite filter_filter_comm. apply filter_ext_in. intros d _.
      unfold fresh. destruct (bool_decide (title d ∈ map fst acc)) eqn:Hd; simpl.
      * rewrite andb_false_r. reflexivity.
      * rewrite andb_true_r. apply bool_decide_eq_false_1 in Hd.
        destruct (String.eqb_spec (title d) (title c)) as [Heq|Hne]; [|reflexivity].
        rewrite Heq in Hd. contradiction.
    + rewrite IH. rewrite <- app_assoc. f_equal. simpl.
      apply alist_lookup_None in Hl.
      unfold fresh at 2. rewrite bool_decide_eq_false_2 by exact Hl. simpl.
      f_equal. f_equal. rewrite filter_filter_comm. apply filter_ext_in. intros d _.
      unfold fresh. rewrite map_app. simpl.
      destruct (String.eqb_spec (title d) (title c)) as [Heq|Hne]; simpl.
      * rewrite bool_decide_eq_true_2; [reflexivity|].
        apply elem_of_app. right. rewrite Heq. left.
      * destruct (bool_decide (title d ∈ map fst acc)) eqn:Hd.
        -- apply bool_decide_eq_true_1 in Hd.
           rewrite bool_decide_eq_true_2; [reflexivity|]. apply elem_of_app. left. exact Hd.
        -- apply bool_decide_eq_false_1 in Hd.
           rewrite bool_decide_eq_false_2; [reflexivity|].
           rewrite elem_of_app, list_elem_of_singleton. tauto.
Qed.

Lemma fold_left_concat_map {A B C : Type} (f : A -> B -> A) (g : C -> list B)
    (l : list C) (a : A) :
  fold_left (fun acc x => fold_left f (g x) acc) l a = fold_left f (concat (map g l)) a.
Proof.
  revert a. induction l as [|x l IH]; intros a; simpl; [reflexivity|].
  rewrite fold_left_app. apply IH.
Qed.

(** The submodules of a module are the eligible children of its sections,
    deduplicated by title with the first occurrence winning. *)
Lemma collect_submodules_spec (srcs : gmap string (gset string)) (t : string)
    (secs : list Section) :
  map snd (collect_submodules srcs t secs)
  = map (submodule_of (source_list srcs t)) (dedup_first (submodule_candidates secs)).
Proof.
  unfold collect_submodules.
  rewrite fold_left_concat_map, add_submodules_spec. simpl.
  rewrite map_map. simpl. unfold submodule_candidates.
  f_equal. rewrite <- (filter_ext_in (fun _ => true)).
  - clear. induction (dedup_first _) as [|x l IH]; simpl; [reflexivity | f_equal; exact IH].
  - intros d _. reflexivity.
Qed.

(** ** Source lists, module construction and sorting *)

Lemma elem_of_map_fst {A B : Type} (l : list (A * B)) (a : A) (b : B) :
  (a, b) ∈ l -> a ∈ map fst l.
Proof.
  intros Hin. apply list_elem_of_In. change a with (fst (a, b)).
  apply in_map, list_elem_of_In, Hin.
Qed.

Lemma dedupe_loop_elem (seen : gset string) (items : list string) (x : string) :
  x ∈ dedupe_loop seen items <-> x ∈ items /\ x ∉ seen.
Proof.
  revert seen. induction items as [|item rest IH]; intros seen; simpl.
  - rewrite elem_of_nil. tauto.
  - destruct (decide (item ∈ seen)) as [Hin|Hnin].
    + rewrite IH, elem_of_cons. split; [tauto|].
      intros [[-> | H] Hx]; [contradiction | tauto].
    + rewrite !elem_of_cons, IH. split.
      * intros [-> | [H Hx]]; [tauto|]. split; [tauto|].
        intros Hs. apply Hx, elem_of_union. right. exact Hs.
      * intros [[-> | H] Hx]; [tauto|].
        destruct (decide (x = item)) as [->|Hne]; [tauto|]. right. split; [exact H|].
        rewrite elem_of_union, elem_of_singleton. tauto.
Qed.

Lemma source_list_set (srcs : gmap string (gset string)) (t : string) :
  list_to_set (source_list srcs t) = sources_of srcs t.
Proof.
  apply set_eq. intros x. unfold source_list, dedupe_preserve_order.
  rewrite elem_of_list_to_set, dedupe_loop_elem, elem_of_elements.
  split; [tauto|]. intros Hx. split; [exact Hx | apply not_elem_of_empty].
Qed.

Lemma insert_by_confidence_elem (m x : Module_) (sorted : list Module_) :
  x ∈ insert_by_confidence m sorted <-> x = m \/ x ∈ sorted.
Proof.
  induction sorted as [|y sorted IH]; simpl.
  - rewrite list_elem_of_singleton, elem_of_nil. tauto.
  - destruct (PrimFloat.ltb (confidence y) (confidence m)).
    + rewrite elem_of_cons. tauto.
    + rewrite !elem_of_cons, IH. tauto.
Qed.

Lemma sort_by_confidence_elem (x : Module_) (modules : list Module_) :
  x ∈ sort_by_confidence modules <-> x ∈ modules.
Proof.
  unfold sort_by_confidence.
  assert (Hgen : forall acc,
    x ∈ fold_left (fun sorted m => insert_by_confidence m sorted) modules acc
    <-> x ∈ modules \/ x ∈ acc).
  { induction modules as [|m modules IH]; intros acc; simpl.
    - rewrite elem_of_nil. tauto.
    - rewrite IH, insert_by_confidence_elem, elem_of_cons. tauto. }
  rewrite Hgen, elem_of_nil. tauto.
Qed.

Definition module_of (srcs : gmap string (gset string)) (t : string)
    (top : Section) (rest : list Section) : Module_ :=
  mkModule t (module_description top)
           (map (submodule_of (source_list srcs t))
                (dedup_first (submodule_candidates (top :: rest))))
           (source_list srcs t)
           (calculate_confidence top true).

Lemma build_modules_elem (srcs : gmap string (gset string))
    (entries : list (string * list Section)) (m : Module_) :
  forall acc,
  m ∈ fold_left (build_module srcs) entries acc
  <-> m ∈ acc
      \/ exists t top rest, (t, top :: rest) ∈ entries /\ m = module_of srcs t top rest.
Proof.
  induction entries as [|[t secs] entries IH]; intros acc; simpl.
  - split; [tauto|]. intros [H | (t & top & rest & Hin & _)]; [exact H | inversion Hin].
  - rewrite IH. destruct secs as [|top rest].
    + split.
      * intros [H | (t' & top' & rest' & Hin & Hm)]; [left; exact H|].
        right. exists t', top', rest'. split; [right; exact Hin | exact Hm].
      * intros [H | (t' & top' & rest' & Hin & Hm)]; [left; exact H|].
        apply elem_of_cons in Hin as [Heq | Hin]; [discriminate Heq|].
        right. exists t', top', rest'. split; assumption.
    + rewrite elem_of_app, list_elem_of_singleton, collect_submodules_spec.
      fold (module_of srcs t top rest). split.
      * intros [[H | ->] | (t' & top' & rest' & Hin & Hm)].
        -- left. exact H.
        -- right. exists t, top, rest. split; [left | reflexivity].
        -- right. exists t', top', rest'. split; [right; exact Hin | exact Hm].
      * intros [H | (t' & top' & rest' & Hin & Hm)]; [left; left; exact H|].
        apply elem_of_cons in Hin as [[= -> -> ->] | Hin].
        -- left. right. exact Hm.
        -- right. exists t', top', rest'. split; assumption.
Qed.

(** ** The modules of [infer_modules] *)

Section InferProperties.

Variable ratio : string -> string -> float.
Variable html_blocks : string -> result (list (string * string)).

(** The title mapping that [infer_modules] computes for the pages. *)
Definition title_mapping_of (pages : list (string * string)) : gmap string string :=
  merge_similar_titles ratio (map fst (module_sections (gather html_blocks pages))) 0.8.

Definition contributing (pages : list (string * string)) (canonical : string)
    : list Section :=
  contributing_sections (module_sections (gather html_blocks pages))
                        (title_mapping_of pages) canonical.

Definition aggregated (pages : list (string * string)) (canonical : string)
    : gset string :=
  aggregated_sources (module_sections (gather html_blocks pages))
                     (section_sources (gather html_blocks pages))
                     (title_mapping_of pages) canonical.

Lemma infer_modules_total_aux (pages : list (string * string)) :
  exists ms, infer_modules ratio html_blocks pages = Ok ms.
Proof.
  unfold infer_modules. destruct pages as [|p pages]; [eexists; reflexivity|].
  destruct (module_sections (gather html_blocks (p :: pages))) as [|e es] eqn:Hms;
    [eexists; reflexivity|].
  destruct (reorganize_total
              (merge_similar_titles ratio (map fst (e :: es)) 0.8)
              (section_sources (gather html_blocks (p :: pages)))
              (e :: es)) with (m0 := mkMerged [] ∅) as [m Hm].
  - intros t Ht. apply (merge_similar_titles_ok ratio). exact Ht.
  - rewrite Hm. simpl. eexists. reflexivity.
Qed.

(** Every module that comes out was built from the sections filed under
    its name, and carries the sources aggregated under its name. *)
Lemma infer_modules_elem (pages : list (string * string)) (ms : list Module_) (m : Module_) :
  infer_modules ratio html_blocks pages = Ok ms -> m ∈ ms ->
  exists srcs top rest,
    contributing pages (name m) = top :: rest
    /\ m = module_of srcs (name m) top rest
    /\ sources_of srcs (name m) = aggregated pages (name m)
    /\ exists orig, orig ∈ map fst (module_sections (gather html_blocks pages))
                    /\ title_mapping_of pages !! orig = Some (name m).
Proof.
  unfold infer_modules, contributing, aggregated, title_mapping_of.
  destruct pages as [|p pages]; [intros [= <-] Hin; inversion Hin|].
  set (g := gather html_blocks (p :: pages)).
  destruct (module_sections g) as [|e es] eqn:Hms; [intros [= <-] Hin; inversion Hin|].
  set (mapping := merge_similar_titles ratio (map fst (e :: es)) 0.8).
  destruct (reorganize mapping (section_sources g) (e :: es) (mkMerged [] ∅))
    as [mm|] eqn:Hre; simpl; [|discriminate].
  intros [= <-] Hin. apply (proj1 (sort_by_confidence_elem _ _)) in Hin.
  apply (proj1 (build_modules_elem _ _ _ _)) in Hin
    as [Hin | (t & top & rest & Hin & ->)]; [inversion Hin|].
  destruct (reorganize_spec _ _ _ _ _ Hre) as (Hnd & Hget & Hsrc & Hkeys).
  { simpl. apply NoDup_nil_2. }
  simpl in Hget, Hsrc, Hkeys.
  exists (merged_sources mm), top, rest. simpl. split; [|split; [|split]].
  - rewrite <- (alist_entry_get t (top :: rest) _ Hnd Hin). rewrite Hget. reflexivity.
  - reflexivity.
  - rewrite Hsrc. unfold sources_of at 1. rewrite lookup_empty. simpl.
    rewrite union_empty_l_L. reflexivity.
  - assert (Ht : t ∈ map fst (merged_modules mm)) by exact (elem_of_map_fst _ _ _ Hin).
    apply Hkeys in Ht as [Ht | (orig & secs & Ho & Hmap)]; [inversion Ht|].
    exists orig. split; [|exact Hmap].
    exact (elem_of_map_fst (e :: es) _ _ Ho).
Qed.

Lemma key_candidate (pages : list (string * string)) (t : string) :
  t ∈ map fst (module_sections (gather html_blocks pages)) ->
  exists u s, candidate html_blocks pages u s /\ title s = t.
Proof.
  intros Ht. destruct (gather_ok html_blocks pages) as (_ & Hne & Hsec & _).
  specialize (Hne t Ht).
  destruct (alist_get t (module_sections (gather html_blocks pages))) as [|s l] eqn:Hget;
    [congruence|].
  assert (Hs : s ∈ alist_get t (module_sections (gather html_blocks pages)))
    by (rewrite Hget; left).
  apply Hsec in Hs as [Hts [u Hu]]. exists u, s. split; assumption.
Qed.

Lemma candidate_key (pages : list (string * string)) (u : string) (s : Section) :
  candidate html_blocks pages u s ->
  title s ∈ map fst (module_sections (gather html_blocks pages))
  /\ s ∈ alist_get (title s) (module_sections (gather html_blocks pages)).
Proof.
  intros Hc. destruct (gather_ok html_blocks pages) as (_ & _ & Hsec & _).
  assert (Hs : s ∈ alist_get (title s) (module_sections (gather html_blocks pages))).
  { apply Hsec. split; [reflexivity|]. exists u. exact Hc. }
  split; [|exact Hs].
  destruct (decide (title s ∈ map fst (module_sections (gather html_blocks pages))))
    as [H|H]; [exact H|].
  apply alist_lookup_None in H. unfold alist_get in Hs. rewrite H in Hs. inversion Hs.
Qed.

Lemma contributing_candidates (pages : list (string * string)) (c : string) (s : Section) :
  s ∈ contributing pages c
  <-> title_mapping_of pages !! title s = Some c
      /\ exists u, candidate html_blocks pages u s.
Proof.
  unfold contributing. rewrite elem_of_contributing.
  destruct (gather_ok html_blocks pages) as (Hnd & _ & Hsec & _). split.
  - intros (orig & secs & Hin & Hmap & Hs).
    rewrite <- (alist_entry_get orig secs _ Hnd Hin) in Hs.
    apply Hsec in Hs as [<- Hu]. split; assumption.
  - intros [Hmap [u Hu]]. destruct (candidate_key pages u s Hu) as [Hk Hs].
    exists (title s), (alist_get (title s) (module_sections (gather html_blocks pages))).
    split; [apply alist_key_entry, Hk|]. split; assumption.
Qed.

Lemma aggregated_candidates (pages : list (string * string)) (c u : string) :
  u ∈ aggregated pages c
  <-> exists s, title_mapping_of pages !! title s = Some c
                /\ candidate html_blocks pages u s.
Proof.
  unfold aggregated. rewrite elem_of_aggregated.
  destruct (gather_ok html_blocks pages) as (_ & _ & _ & Hsrc). split.
  - intros (orig & Hin & Hmap & Hu). apply Hsrc in Hu as [s [<- Hs]].
    exists s. split; assumption.
  - intros (s & Hmap & Hs). exists (title s). split; [|split; [exact Hmap|]].
    + apply (candidate_key pages u s Hs).
    + apply Hsrc. exists s. split; [reflexivity | exact Hs].
Qed.

(** C1. [infer_modules] returns the empty list for an empty mapping; for
    every mapping it returns a list and does not raise; and for every
    mapping whose pages yield no module candidate it returns the empty
    list. *)
Theorem infer_modules_degenerate :
  infer_modules ratio html_blocks [] = Ok []
  /\ (forall pages, exists ms, infer_modules ratio html_blocks pages = Ok ms)
  /\ (forall pages,
        (forall u s, ~ candidate html_blocks pages u s) ->
        infer_modules ratio html_blocks pages = Ok []).
Proof.
  split; [reflexivity|]. split; [exact infer_modules_total_aux|].
  intros pages Hnone. unfold infer_modules.
  destruct pages as [|p pages]; [reflexivity|].
  destruct (module_sections (gather html_blocks (p :: pages))) as [|[t secs] es] eqn:Hms;
    [reflexivity|].
  exfalso. destruct (key_candidate (p :: pages) t) as (u & s & Hc & _).
  - rewrite Hms. left.
  - exact (Hnone u s Hc).
Qed.

(** C10 (amended). Every value of the mapping that [merge_similar_titles]
    returns is one of the input titles, and the mapping is defined on
    every input title and on nothing else; hence the name of every module
    that [infer_modules] produces is the title of a top-level section, of
    level at most 2 and with a valid title, of some input page: the text
    of a heading block of that page or the title of a synthetic
    ["Overview"] section of it. *)
Theorem canonical_titles_occur :
  (forall titles threshold,
     let m := merge_similar_titles ratio titles threshold in
     (forall t, t ∈ titles -> is_Some (m !! t))
     /\ (forall t c, m !! t = Some c -> t ∈ titles /\ c ∈ titles))
  /\ (forall pages ms m,
        infer_modules ratio html_blocks pages = Ok ms -> m ∈ ms ->
        exists u html blocks sections s,
          (u, html) ∈ pages
          /\ html_blocks html = Ok blocks
          /\ build_sections blocks = Some sections
          /\ s ∈ sections
          /\ title s = name m
          /\ is_valid_module_title (name m) = true
          /\ (level s <= 2)%Z
          /\ title_source blocks (level s) (name m)).
Proof.
  split.
  - intros titles threshold. exact (merge_similar_titles_ok ratio titles threshold).
  - intros pages ms m Hinfer Hm.
    destruct (infer_modules_elem pages ms m Hinfer Hm)
      as (srcs & top & rest & _ & _ & _ & orig & Horig & Hmap).
    apply (merge_similar_titles_ok ratio
             (map fst (module_sections (gather html_blocks pages))) 0.8 ) in Hmap.
    destruct (key_candidate pages (name m) (proj2 Hmap))
      as (u & s & (html & sections & Hin & Hex & Hs & Hvalid & Hlevel) & Htitle).
    unfold extract_sections in Hex.
    destruct (html_blocks html) as [blocks|] eqn:Hblocks; [|discriminate Hex].
    cbn [rbind] in Hex.
    destruct (build_sections blocks) as [forest|] eqn:Hforest; [|discriminate Hex].
    injection Hex as ->.
    exists u, html, blocks, sections, s.
    split; [exact Hin|]. split; [exact Hblocks|]. split; [exact Hforest|].
    split; [exact Hs|]. split; [exact Htitle|].
    rewrite <- Htitle. split; [exact Hvalid|]. split; [exact Hlevel|].
    exact (build_sections_title_source blocks sections s Hforest Hs).
Qed.

(** C9. For every module that [infer_modules] produces: the sections that
    contribute to it are the module candidates whose title maps to its
    name; its submodules are the children of level at most 4 and with a
    valid title of these sections, deduplicated by exact title with the
    first occurrence winning; and the source URLs of each of its
    submodules are, as a set, the module's aggregated source set, the URLs
    of all the pages that hold a contributing section. *)
Theorem infer_modules_submodules (pages : list (string * string))
    (ms : list Module_) (m : Module_) :
  infer_modules ratio html_blocks pages = Ok ms -> m ∈ ms ->
  (forall s, s ∈ contributing pages (name m)
             <-> title_mapping_of pages !! title s = Some (name m)
                 /\ exists u, candidate html_blocks pages u s)
  /\ submodules m
     = map (submodule_of (source_urls m))
           (dedup_first (submodule_candidates (contributing pages (name m))))
  /\ (forall u, u ∈ aggregated pages (name m)
                <-> exists s, title_mapping_of pages !! title s = Some (name m)
                              /\ candidate html_blocks pages u s)
  /\ list_to_set (source_urls m) = aggregated pages (name m)
  /\ (forall sub, sub ∈ submodules m ->
                  list_to_set (sub_source_urls sub) = aggregated pages (name m)).
Proof.
  intros Hinfer Hm.
  destruct (infer_modules_elem pages ms m Hinfer Hm)
    as (srcs & top & rest & Hsecs & Hmod & Hsrc & _).
  assert (Hurls : list_to_set (source_urls m) = aggregated pages (name m)).
  { rewrite Hmod at 1. simpl. rewrite source_list_set. exact Hsrc. }
  assert (Hsubs : submodules m
                  = map (submodule_of (source_urls m))
                        (dedup_first (submodule_candidates (contributing pages (name m))))).
  { rewrite Hsecs. rewrite Hmod at 1 2. reflexivity. }
  split; [apply contributing_candidates|]. split; [exact Hsubs|].
  split; [apply aggregated_candidates|]. split; [exact Hurls|].
  intros sub Hsub. rewrite Hsubs in Hsub.
  apply list_elem_of_In, in_map_iff in Hsub as (child & <- & _). simpl. exact Hurls.
Qed.

End InferProperties.

Lemma infer_modules_degenerate_witness :
  infer_modules Difflib.ratio sample_blocks [("u", "not html")] = Ok [].
Proof.
  apply (proj2 (proj2 (infer_modules_degenerate Difflib.ratio sample_blocks))).
  intros u s (html & sections & Hin & Hex & Hs & _).
  apply list_elem_of_singleton in Hin. injection Hin as -> ->.
  vm_compute in Hex. injection Hex as <-. inversion Hs.
Defined.

Definition sample_module : Module_ :=
  mkModule "User Management" "Manage users and permissions. How to create a user."
    [mkSubmodule "Create User" "How to create a user."
       ["https://example.com/users"; "https://example.com/admin"] 0.55;
     mkSubmodule "Delete User" "How to delete a user."
       ["https://example.com/users"; "https://example.com/admin"] 0.55]
    ["https://example.com/users"; "https://example.com/admin"] 0.74.

Lemma sample_inference :
  infer_modules Difflib.ratio sample_blocks sample_pages = Ok [sample_module].
Proof. vm_compute. reflexivity. Qed.

Lemma canonical_titles_occur_witness :
  exists u html blocks sections s,
    (u, html) ∈ sample_pages
    /\ sample_blocks html = Ok blocks
    /\ build_sections blocks = Some sections
    /\ s ∈ sections
    /\ title s = "User Management"
    /\ is_valid_module_title "User Management" = true
    /\ (level s <= 2)%Z
    /\ title_source blocks (level s) "User Management".
Proof.
  apply (proj2 (canonical_titles_occur Difflib.ratio sample_blocks)
           sample_pages [sample_module] sample_module).
  - vm_compute. reflexivity.
  - left.
Defined.

Definition overview_module : Module_ :=
  mkModule "Overview" "Welcome to the help center of the product." []
           ["https://example.com/welcome"] 0.58.

(** C10, as the specification words it, fails: a page that has a paragraph
    and no heading yields a module named ["Overview"], a title that is
    neither the text of a block of the page nor a part of its markup. *)
Lemma module_named_overview :
  ~ (forall (ratio : string -> string -> float)
            (html_blocks : string -> result (list (string * string)))
            (pages : list (string * string)) (ms : list Module_) (m : Module_),
       infer_modules ratio html_blocks pages = Ok ms -> m ∈ ms ->
       exists u html,
         (u, html) ∈ pages
         /\ (has_substring (name m) html = true
             \/ exists blocks tag, html_blocks html = Ok blocks /\ (tag, name m) ∈ blocks)).
Proof.
  intros H.
  destruct (H Difflib.ratio sample_blocks [("https://example.com/welcome", page_welcome)]
              [overview_module] overview_module)
    as (u & html & Hin & Hocc).
  - vm_compute. reflexivity.
  - left.
  - apply list_elem_of_singleton in Hin. injection Hin as -> ->.
    destruct Hocc as [Hsub | (blocks & tag & Hblocks & Htag)].
    + vm_compute in Hsub. discriminate Hsub.
    + vm_compute in Hblocks. injection Hblocks as <-.
      apply list_elem_of_singleton in Htag. discriminate Htag.
Qed.

Lemma infer_modules_submodules_witness :
  submodules sample_module
  = map (submodule_of (source_urls sample_module))
        (dedup_first
           (submodule_candidates
              (contributing Difflib.ratio sample_blocks sample_pages "User Management")))
  /\ list_to_set (source_urls sample_module)
     = aggregated Difflib.ratio sample_blocks sample_pages "User Management".
Proof.
  destruct (infer_modules_submodules Difflib.ratio sample_blocks
              sample_pages [sample_module] sample_module)
    as (_ & Hsubs & _ & Hurls & _).
  - vm_compute. reflexivity.
  - left.
  - split; [exact Hsubs | exact Hurls].
Defined.

(** ** Normalized URLs *)

Lemma contains_app (c : ascii) (a b : string) :
  Py.contains c (a +:+ b) = Py.contains c a || Py.contains c b.
Proof.
  induction a as [|d a IH]; simpl; [reflexivity|].
  rewrite IH. apply orb_assoc.
Qed.

(** Splitting at the first occurrence of a character takes the text apart
    around that character. *)
Lemma split_once_Some (c : ascii) (s before after : string) :
  Urllib.split_once c s = Some (before, after) ->
  s = before +:+ String c after.
Proof.
  revert before. induction s as [|d s IH]; intros before; simpl; [discriminate|].
  destruct (Ascii.eqb_spec c d) as [->|Hne].
  - intros [= <- <-]. reflexivity.
  - destruct (Urllib.split_once c s) as [[b a]|]; [|discriminate].
    intros [= <- <-]. rewrite (IH b eq_refl). reflexivity.
Qed.

Lemma split_once_None (c : ascii) (s : string) :
  Urllib.split_once c s = None -> Py.contains c s = false.
Proof.
  induction s as [|d s IH]; simpl; [reflexivity|].
  destruct (Ascii.eqb c d); [discriminate|].
  destruct (Urllib.split_once c s) as [[b a]|]; [discriminate|].
  intros _. apply IH. reflexivity.
Qed.

Lemma split_once_before (c : ascii) (s before after : string) :
  Urllib.split_once c s = Some (before, after) -> Py.contains c before = false.
Proof.
  revert before. induction s as [|d s IH]; intros before; simpl; [discriminate|].
  destruct (Ascii.eqb c d) eqn:Hcd.
  - intros [= <- <-]. reflexivity.
  - destruct (Urllib.split_once c s) as [[b a]|]; [|discriminate].
    intros [= <- <-]. simpl. rewrite Hcd. apply (IH b). reflexivity.
Qed.

Lemma split_once_free (c d : ascii) (s before after : string) :
  Urllib.split_once c s = Some (before, after) ->
  Py.contains d s = false ->
  Py.contains d before = false /\ Py.contains d after = false.
Proof.
  intros Hsplit Hfree. rewrite (split_once_Some _ _ _ _ Hsplit) in Hfree.
  rewrite contains_app in Hfree. simpl in Hfree.
  apply orb_false_elim in Hfree as [Hb Ha].
  apply orb_false_elim in Ha as [_ Ha]. split; assumption.
Qed.

Lemma span_netloc_free (s : string) :
  Py.contains "#" (fst (Urllib.span_netloc s)) = false.
Proof.
  induction s as [|c s IH]; [reflexivity|].
  cbn [Urllib.span_netloc].
  destruct (Urllib.netloc_delim c) eqn:Hd; [reflexivity|].
  destruct (Urllib.span_netloc s) as [n rest].
  cbn [fst] in *. cbn [Py.contains]. rewrite IH, orb_false_r.
  unfold Urllib.netloc_delim in Hd.
  apply orb_false_elim in Hd as [_ Hd]. rewrite Ascii.eqb_sym. exact Hd.
Qed.

Lemma split_last_segment_app (s : string) :
  s = fst (Urllib.split_last_segment s) +:+ snd (Urllib.split_last_segment s).
Proof.
  induction s as [|c s IH]; simpl; [reflexivity|].
  destruct (Urllib.split_last_segment s) as [dir last]. simpl in IH.
  destruct (Ascii.eqb c "/"); simpl; [rewrite IH at 1; reflexivity|].
  destruct dir; simpl in *; rewrite IH at 1; reflexivity.
Qed.

Lemma splitparams_free (d : ascii) (s : string) :
  Py.contains d s = false ->
  Py.contains d (fst (Urllib.splitparams s)) = false
  /\ Py.contains d (snd (Urllib.splitparams s)) = false.
Proof.
  intros Hfree. unfold Urllib.splitparams.
  destruct (Py.contains "/" s).
  - pose proof (split_last_segment_app s) as Happ.
    destruct (Urllib.split_last_segment s) as [dir last]. simpl in Happ.
    rewrite Happ, contains_app in Hfree. apply orb_false_elim in Hfree as [Hdir Hlast].
    destruct (Urllib.split_once ";" last) as [[before after]|] eqn:Hsplit; simpl.
    + destruct (split_once_free _ d _ _ _ Hsplit Hlast) as [Hb Ha].
      rewrite contains_app, Hdir, Hb. split; [reflexivity | exact Ha].
    + rewrite Happ, contains_app, Hdir, Hlast. split; reflexivity.
  - destruct (Urllib.split_once ";" s) as [[before after]|] eqn:Hsplit; simpl.
    + exact (split_once_free _ d _ _ _ Hsplit Hfree).
    + split; [exact Hfree | reflexivity].
Qed.

Section NormalizeProperties.

Variable valid_netloc : string -> bool.

(** No component that [urlparse] hands back, the fragment and the scheme
    apart, holds a [#]. *)
Lemma urlparse_free (url default_scheme : string) (p : Urllib.ParseResult) :
  Urllib.urlparse valid_netloc url default_scheme = Ok p ->
  Py.contains "#" (Urllib.netloc p) = false
  /\ Py.contains "#" (Urllib.path p) = false
  /\ Py.contains "#" (Urllib.params p) = false
  /\ Py.contains "#" (Urllib.query p) = false.
Proof.
  unfold Urllib.urlparse, Urllib.urlsplit.
  destruct (Urllib.split_scheme _ (Urllib.clean_url url)) as [sch rest].
  set (nl := if Urllib.starts_with_two_slashes rest
             then Urllib.span_netloc (drop 2 rest) else (EmptyString, rest)).
  assert (Hnl : Py.contains "#" (fst nl) = false).
  { unfold nl. destruct (Urllib.starts_with_two_slashes rest);
      [apply span_netloc_free | reflexivity]. }
  destruct nl as [nloc rest1]. simpl in Hnl.
  destruct (valid_netloc nloc); simpl; [|discriminate].
  set (fr := match Urllib.split_once "#" rest1 with
             | Some (before, after) => (before, after)
             | None => (rest1, EmptyString)
             end).
  assert (Hfr : Py.contains "#" (fst fr) = false).
  { unfold fr. destruct (Urllib.split_once "#" rest1) as [[b a]|] eqn:Hs; simpl.
    - exact (split_once_before _ _ _ _ Hs).
    - exact (split_once_None _ _ Hs). }
  destruct fr as [rest2 frag]. simpl in Hfr.
  set (qr := match Urllib.split_once "?" rest2 with
             | Some (before, after) => (before, after)
             | None => (rest2, EmptyString)
             end).
  assert (Hqr : Py.contains "#" (fst qr) = false /\ Py.contains "#" (snd qr) = false).
  { unfold qr. destruct (Urllib.split_once "?" rest2) as [[b a]|] eqn:Hs; simpl.
    - exact (split_once_free _ _ _ _ _ Hs Hfr).
    - split; [exact Hfr | reflexivity]. }
  destruct qr as [pth qry]. simpl in Hqr. destruct Hqr as [Hp Hq]. simpl.
  match goal with |- (if ?b then _ else _) = _ -> _ => destruct b end.
  - destruct (splitparams_free "#" pth Hp) as [H1 H2].
    destruct (Urllib.splitparams pth) as [u prm]. simpl in H1, H2.
    intros [= <-]. simpl. tauto.
  - intros [= <-]. simpl. tauto.
Qed.

Lemma string_app_cons (d : ascii) (a b : string) :
  String d a +:+ b = String d (a +:+ b).
Proof. reflexivity. Qed.

Lemma string_app_assoc (a b c : string) : (a +:+ b) +:+ c = a +:+ (b +:+ c).
Proof.
  induction a as [|d a IH]; [reflexivity|].
  rewrite !string_app_cons, IH. reflexivity.
Qed.

Lemma get_scheme_http (rest : string) :
  Urllib.get_scheme ("http:" +:+ rest) = "http".
Proof. reflexivity. Qed.

Lemma get_scheme_https (rest : string) :
  Urllib.get_scheme ("https:" +:+ rest) = "https".
Proof. reflexivity. Qed.

(** Putting the components back together behind a scheme starts with the
    scheme and a colon, and brings in no [#] of its own. *)
Lemma urlunparse_shape (sch nl pth prm qry : string) :
  Py.is_empty sch = false ->
  let r := Urllib.urlunparse (Urllib.mkParseResult sch nl pth prm qry "") in
  (exists rest, r = sch +:+ String ":" rest)
  /\ (Py.contains "#" sch = false -> Py.contains "#" nl = false ->
      Py.contains "#" pth = false -> Py.contains "#" prm = false ->
      Py.contains "#" qry = false -> Py.contains "#" r = false).
Proof.
  intros Hsch. unfold Urllib.urlunparse, Urllib.urlunsplit.
  cbn [Urllib.scheme Urllib.netloc Urllib.path Urllib.params Urllib.query Urllib.fragment].
  rewrite Hsch. cbn [negb Py.is_empty andb].
  set (u0 := if negb (Py.is_empty prm) then pth +:+ ";" +:+ prm else pth).
  set (u1 := if negb (Py.is_empty nl)
                || Urllib.mem sch Urllib.uses_netloc
                   && negb (Urllib.starts_with_two_slashes u0)
             then "//" +:+ nl +:+
                  (if negb (Py.is_empty u0) && negb (Urllib.starts_with_slash u0)
                   then "/" +:+ u0 else u0)
             else u0).
  split.
  - destruct (negb (Py.is_empty qry)).
    + exists (u1 +:+ "?" +:+ qry). rewrite !string_app_assoc. reflexivity.
    + exists u1. reflexivity.
  - intros H1 H2 H3 H4 H5.
    assert (Hu0 : Py.contains "#" u0 = false).
    { unfold u0. destruct (negb (Py.is_empty prm)); [|exact H3].
      rewrite !contains_app, H3, H4. reflexivity. }
    assert (Hu1 : Py.contains "#" u1 = false).
    { unfold u1. destruct (_ || _); [|exact Hu0].
      destruct (_ && _); rewrite !contains_app, H2, ?Hu0; reflexivity. }
    destruct (negb (Py.is_empty qry)); rewrite !contains_app, H1, Hu1, ?H5; reflexivity.
Qed.

(** A result obtained under one check of network locations is obtained
    under every check that accepts at least as much. *)
Section ChecksCompared.

Variable stricter : string -> bool.
Hypothesis accepts_more : forall n, stricter n = true -> valid_netloc n = true.

Lemma urlsplit_mono (url default_scheme : string) (p : Urllib.ParseResult) :
  Urllib.urlsplit stricter url default_scheme = Ok p ->
  Urllib.urlsplit valid_netloc url default_scheme = Ok p.
Proof.
  unfold Urllib.urlsplit.
  destruct (Urllib.split_scheme _ (Urllib.clean_url url)) as [sch rest].
  destruct (if Urllib.starts_with_two_slashes rest
            then Urllib.span_netloc (drop 2 rest) else (EmptyString, rest))
    as [nloc rest1].
  destruct (stricter nloc) eqn:Hs; [|discriminate].
  rewrite (accepts_more nloc Hs). exact (fun H => H).
Qed.

Lemma urlparse_mono (url default_scheme : string) (p : Urllib.ParseResult) :
  Urllib.urlparse stricter url default_scheme = Ok p ->
  Urllib.urlparse valid_netloc url default_scheme = Ok p.
Proof.
  unfold Urllib.urlparse.
  destruct (Urllib.urlsplit stricter url default_scheme) as [r|] eqn:Hr; [|discriminate].
  rewrite (urlsplit_mono _ _ _ Hr). exact (fun H => H).
Qed.

Lemma urljoin_mono (base url joined : string) :
  Urllib.urljoin stricter base url = Ok joined ->
  Urllib.urljoin valid_netloc base url = Ok joined.
Proof.
  unfold Urllib.urljoin.
  destruct (Py.is_empty base); [exact (fun H => H)|].
  destruct (Py.is_empty url); [exact (fun H => H)|].
  destruct (Urllib.urlparse stricter base "") as [b|] eqn:Hb; [|discriminate].
  rewrite (urlparse_mono _ _ _ Hb). cbn [rbind].
  destruct (Urllib.urlparse stricter url (Urllib.scheme b)) as [u|] eqn:Hu; [|discriminate].
  rewrite (urlparse_mono _ _ _ Hu). exact (fun H => H).
Qed.

Lemma normalize_url_mono (base_url link r : string) :
  normalize_url stricter base_url link = Ok r ->
  normalize_url valid_netloc base_url link = Ok r.
Proof.
  unfold normalize_url.
  destruct (Urllib.urlparse stricter base_url "") as [pb|] eqn:Hpb; [|discriminate].
  rewrite (urlparse_mono _ _ _ Hpb). cbn [rbind].
  destruct (Urllib.urljoin stricter base_url link) as [joined|] eqn:Hj; [|discriminate].
  rewrite (urljoin_mono _ _ _ Hj). cbn [rbind].
  destruct (Urllib.urlparse stricter joined "") as [p|] eqn:Hp; [|discriminate].
  rewrite (urlparse_mono _ _ _ Hp). exact (fun H => H).
Qed.

End ChecksCompared.

(** C8. Whatever [normalize_url] returns, if it is not the empty string
    then its scheme is [http] or [https], and it holds no [#], hence no
    fragment component; and [normalize_url("https://a.com",
    "https://a.com/p#x")] is ["https://a.com/p"]. *)
Theorem normalize_url_http_without_fragment :
  (forall base_url link r,
     normalize_url valid_netloc base_url link = Ok r ->
     (r <> "" -> Urllib.get_scheme r = "http" \/ Urllib.get_scheme r = "https")
     /\ Py.contains "#" r = false)
  /\ (valid_netloc "a.com" = true ->
      normalize_url valid_netloc "https://a.com" "https://a.com/p#x" = Ok "https://a.com/p").
Proof.
  split.
  - intros base_url link r. unfold normalize_url.
    destruct (Urllib.urlparse valid_netloc base_url "") as [pb|]; [|discriminate].
    destruct (Urllib.urljoin valid_netloc base_url link) as [joined|]; [|discriminate].
    cbn [rbind].
    destruct (Urllib.urlparse valid_netloc joined "") as [p|] eqn:Hp; [|discriminate].
    cbn [rbind].
    destruct (http_scheme (Urllib.scheme p)) eqn:Hs; cbn [negb].
    + intros [= <-].
      destruct (urlparse_free joined "" p Hp) as (Hn & Hpa & Hpr & Hq).
      assert (Hsch : Urllib.scheme p = "http" \/ Urllib.scheme p = "https").
      { unfold http_scheme in Hs. apply orb_true_iff in Hs as [Hs|Hs];
          apply String.eqb_eq in Hs; tauto. }
      destruct (urlunparse_shape (Urllib.scheme p) (Urllib.netloc p) (Urllib.path p)
                  (Urllib.params p) (Urllib.query p)) as [[rest Hrest] Hfree].
      { destruct Hsch as [-> | ->]; reflexivity. }
      split.
      * intros _. rewrite Hrest.
        destruct Hsch as [-> | ->]; [left; apply get_scheme_http | right; apply get_scheme_https].
      * apply Hfree; try assumption. destruct Hsch as [-> | ->]; reflexivity.
    + intros [= <-]. split; [congruence | reflexivity].
  - intros Hok. apply (normalize_url_mono (String.eqb "a.com")).
    + intros n Hn. apply String.eqb_eq in Hn as <-. exact Hok.
    + vm_compute. reflexivity.
Qed.

End NormalizeProperties.

Lemma normalize_url_http_without_fragment_witness :
  Urllib.get_scheme "https://a.com/docs/p?q=1" = "https"
  /\ Py.contains "#" "https://a.com/docs/p?q=1" = false
  /\ normalize_url balanced_brackets "https://a.com" "https://a.com/p#x" = Ok "https://a.com/p".
Proof.
  destruct (normalize_url_http_without_fragment balanced_brackets) as [Hall Hex].
  destruct (Hall "https://a.com/docs/guide/" "../p?q=1#frag" "https://a.com/docs/p?q=1")
    as [Hscheme Hfree].
  - vm_compute. reflexivity.
  - split; [|split; [exact Hfree | apply Hex; reflexivity]].
    destruct Hscheme as [H | H]; [discriminate | vm_compute in H; discriminate H | exact H].
Defined.

(** ** The bounded crawl *)

Section CrawlProperties.

Variable Net : Type.
Variable http_get : Net -> string -> Net * option Response.
Variable Disk : Type.
Variable disk_get : Disk -> string -> option Page.
Variable disk_set : Disk -> string -> Page -> Disk.
Variable anchor_hrefs : string -> option (list string).
Variable is_same_domain : string -> string -> bool.
Variable valid_netloc : string -> bool.
Variable max_pages : Z.
Variable max_depth : Z.
Variable allow_cross_domain : bool.

Local Notation State := (CrawlState Net Disk).
Local Notation links_of := (extract_links anchor_hrefs is_same_domain valid_netloc allow_cross_domain).
Local Notation body :=
  (crawl_body Net http_get Disk disk_get disk_set anchor_hrefs is_same_domain
              valid_netloc max_depth allow_cross_domain).
Local Notation loop :=
  (crawl_loop Net http_get Disk disk_get disk_set anchor_hrefs is_same_domain
              valid_netloc max_pages max_depth allow_cross_domain).
Local Notation run :=
  (crawl Net http_get Disk disk_get disk_set anchor_hrefs is_same_domain
         valid_netloc max_pages max_depth allow_cross_domain).

(** [reached roots log ps u d]: [u] is [d] hops away from a seed, along
    links of pages that were fetched; [log] holds, for each page of [ps],
    the URL it was fetched for and the depth it was dequeued at. *)
Inductive reached (roots : list string) (log : list (string * Z)) (ps : list Page)
    : string -> Z -> Prop :=
| reached_seed (u : string) :
    u ∈ roots -> reached roots log ps u 0
| reached_hop (i : nat) (u' : string) (d : Z) (page : Page)
              (links : list string) (u : string) :
    log !! i = Some (u', d) ->
    ps !! i = Some page ->
    reached roots log ps u' d ->
    links_of u' (html page) = Ok links ->
    u ∈ links ->
    reached roots log ps u (d + 1).

Lemma reached_mono (roots : list string) (log log' : list (string * Z))
    (ps ps' : list Page) (u : string) (d : Z) :
  reached roots log ps u d -> reached roots (log ++ log') (ps ++ ps') u d.
Proof.
  induction 1 as [u Hu | i u' d page links u Hlog Hps _ IH Hlinks Hu].
  - apply reached_seed. exact Hu.
  - eapply reached_hop; [| |exact IH|exact Hlinks|exact Hu].
    + apply lookup_app_l_Some. exact Hlog.
    + apply lookup_app_l_Some. exact Hps.
Qed.

(** One run of the loop body either leaves the pages and the queue alone
    or appends one page, fetched for the dequeued URL at a depth within
    the limit, and queues links of that page one hop further. *)
Lemma crawl_body_cases (u : string) (d : Z) (s s' : State) :
  body u d s = Ok s' ->
  (pages s' = pages s /\ fetched s' = fetched s /\ queue s' = queue s)
  \/ (exists page links new,
        (d <= max_depth)%Z
        /\ links_of u (html page) = Ok links
        /\ (forall l, l ∈ new -> l ∈ links)
        /\ pages s' = pages s ++ [page]
        /\ fetched s' = fetched s ++ [(u, d)]
        /\ queue s' = queue s ++ map (fun link => (link, (d + 1)%Z)) new).
Proof.
  unfold crawl_body.
  destruct (bool_decide (u ∈ visited s) || (max_depth <? d)%Z) eqn:Hskip.
  - intros [= <-]. left. tauto.
  - apply orb_false_elim in Hskip as [_ Hdepth]. apply Z.ltb_ge in Hdepth.
    destruct (Urllib.urlparse valid_netloc u "") as [parsed|]; [|discriminate].
    cbn [rbind]. destruct (negb (http_scheme (Urllib.scheme parsed))).
    + intros [= <-]. left. simpl. tauto.
    + cbn [env queue visited pages fetched].
      destruct (fetch Net http_get Disk disk_get disk_set (env s) u) as [env' [page|]].
      * cbn [env queue visited pages fetched].
        destruct (links_of u (html page)) as [links|] eqn:Hlinks; [|discriminate].
        cbn [rbind]. intros [= <-]. right.
        eexists page, links, _. cbn [env queue visited pages fetched].
        split; [exact Hdepth|]. split; [exact Hlinks|].
        split; [|split; [reflexivity|split; reflexivity]].
        intros l Hl. apply elem_of_List_filter in Hl as [Hl _]. exact Hl.
      * intros [= <-]. left. simpl. tauto.
Qed.

Definition crawl_ok (roots : list string) (s : State) : Prop :=
  length (fetched s) = length (pages s)
  /\ ((0 <= max_pages)%Z -> (Z.of_nat (length (pages s)) <= max_pages)%Z)
  /\ (forall u d, (u, d) ∈ fetched s ->
        (0 <= d <= max_depth)%Z /\ reached roots (fetched s) (pages s) u d)
  /\ (forall u d, (u, d) ∈ queue s ->
        (0 <= d)%Z /\ reached roots (fetched s) (pages s) u d).

Lemma crawl_body_ok (roots : list string) (u : string) (d : Z) (s s' : State) :
  crawl_ok roots s ->
  (0 <= d)%Z -> reached roots (fetched s) (pages s) u d ->
  (Z.of_nat (length (pages s)) < max_pages)%Z ->
  body u d s = Ok s' ->
  crawl_ok roots s'.
Proof.
  intros (Hlen & Hbudget & Hlog & Hqueue) Hd Hu Hroom Hbody.
  destruct (crawl_body_cases u d s s' Hbody)
    as [(Hp & Hf & Hq) | (page & links & new & Hdepth & Hlinks & Hnew & Hp & Hf & Hq)].
  - unfold crawl_ok. rewrite Hp, Hf, Hq. tauto.
  - unfold crawl_ok. rewrite Hp, Hf, Hq. split; [|split; [|split]].
    + rewrite !length_app. simpl. lia.
    + intros _. rewrite length_app. simpl. lia.
    + intros u0 d0 Hin. apply elem_of_app in Hin as [Hin | Hin].
      * destruct (Hlog u0 d0 Hin) as [Hd0 Hr]. split; [exact Hd0|].
        apply reached_mono. exact Hr.
      * apply list_elem_of_singleton in Hin. injection Hin as -> ->.
        split; [lia|]. apply reached_mono. exact Hu.
    + intros u0 d0 Hin. apply elem_of_app in Hin as [Hin | Hin].
      * destruct (Hqueue u0 d0 Hin) as [Hd0 Hr]. split; [exact Hd0|].
        apply reached_mono. exact Hr.
      * apply list_elem_of_In, in_map_iff in Hin as (l & [= <- <-] & Hl).
        split; [lia|].
        apply (reached_hop roots _ _ (length (fetched s)) u d page links l).
        -- apply list_lookup_middle. reflexivity.
        -- apply list_lookup_middle. exact Hlen.
        -- apply reached_mono. exact Hu.
        -- exact Hlinks.
        -- apply Hnew, list_elem_of_In, Hl.
Qed.

Definition dequeued (s : State) (rest : list (string * Z)) : State :=
  mkCrawlState rest (visited s) (pages s) (fetched s) (env s).

Lemma crawl_loop_ok (roots : list string) (fuel : nat) :
  forall s s', crawl_ok roots s -> loop fuel s = Some (Ok s') -> crawl_ok roots s'.
Proof.
  induction fuel as [|fuel IH]; intros s s' Hs Hloop.
  - simpl in Hloop. destruct (queue s) as [|[u d] rest]; [congruence|].
    destruct (Z.of_nat (length (pages s)) <? max_pages)%Z; congruence.
  - simpl in Hloop. destruct (queue s) as [|[u d] rest] eqn:Hq; [congruence|].
    destruct (Z.ltb_spec (Z.of_nat (length (pages s))) max_pages) as [Hroom|_];
      [|congruence].
    fold (dequeued s rest) in Hloop.
    destruct (body u d (dequeued s rest)) as [s1|] eqn:Hbody; [|discriminate Hloop].
    apply (IH s1 s'); [|exact Hloop].
    destruct Hs as (Hlen & Hbudget & Hlog & Hqueue).
    destruct (Hqueue u d) as [Hd Hu]; [rewrite Hq; left|].
    apply (crawl_body_ok roots u d (dequeued s rest) s1); try assumption.
    split; [exact Hlen|]. split; [exact Hbudget|]. split; [exact Hlog|].
    intros u0 d0 Hin. apply Hqueue. rewrite Hq. right. exact Hin.
Qed.

(** The loop ends: a run of the body that does not shorten the queue
    uses up one page of the budget. *)
Lemma crawl_loop_terminates (budget : nat) :
  forall (n : nat) (s : State),
    (max_pages - Z.of_nat (length (pages s)) <= Z.of_nat budget)%Z ->
    length (queue s) <= n ->
    exists fuel, is_Some (loop fuel s).
Proof.
  induction budget as [|budget IHb].
  - intros n s Hb _. exists 0. simpl. destruct (queue s) as [|[u d] rest]; [eexists; reflexivity|].
    destruct (Z.ltb_spec (Z.of_nat (length (pages s))) max_pages); [lia | eexists; reflexivity].
  - induction n as [|n IHn]; intros s Hb Hn.
    + exists 0. simpl. destruct (queue s) as [|[u d] rest]; [eexists; reflexivity|].
      simpl in Hn. lia.
    + destruct (queue s) as [|[u d] rest] eqn:Hq.
      { exists 0. simpl. rewrite Hq. eexists. reflexivity. }
      destruct (Z.ltb_spec (Z.of_nat (length (pages s))) max_pages) as [Hroom|Hfull].
      2:{ exists 0. simpl. rewrite Hq.
          destruct (Z.ltb_spec (Z.of_nat (length (pages s))) max_pages); [lia|].
          eexists. reflexivity. }
      destruct (body u d (dequeued s rest)) as [s1|] eqn:Hbody.
      * assert (Hnext : exists fuel, is_Some (loop fuel s1)).
        { destruct (crawl_body_cases u d _ s1 Hbody)
            as [(Hp & _ & Hq1) | (page & _ & _ & _ & _ & _ & Hp & _ & _)].
          - apply IHn.
            + rewrite Hp. exact Hb.
            + rewrite Hq1. simpl in Hn |- *. lia.
          - apply (IHb (length (queue s1))); [|lia].
            rewrite Hp, length_app. simpl in *. lia. }
        destruct Hnext as [fuel Hfuel]. exists (S fuel). simpl. rewrite Hq.
        destruct (Z.ltb_spec (Z.of_nat (length (pages s))) max_pages); [|lia].
        fold (dequeued s rest). rewrite Hbody. exact Hfuel.
      * exists 1. simpl. rewrite Hq.
        destruct (Z.ltb_spec (Z.of_nat (length (pages s))) max_pages); [|lia].
        fold (dequeued s rest). rewrite Hbody. eexists. reflexivity.
Qed.

Lemma crawl_init_ok (roots : list string) (e : Env Net Disk) :
  crawl_ok roots (crawl_init roots e).
Proof.
  split; [reflexivity|]. split; [simpl; lia|]. split.
  - intros u d Hin. inversion Hin.
  - intros u d Hin. simpl in Hin.
    apply list_elem_of_In, in_map_iff in Hin as (root & [= <- <-] & Hroot).
    split; [lia|]. apply reached_seed, list_elem_of_In, Hroot.
Qed.

Lemma crawl_loop_no_budget (fuel : nat) (roots : list string) (e : Env Net Disk)
    (s : State) :
  (max_pages <= 0)%Z ->
  loop fuel (crawl_init roots e) = Some (Ok s) -> pages s = [].
Proof.
  intros Hneg Hloop.
  assert (Hs : s = crawl_init roots e).
  { assert (Hfull : (Z.of_nat (length (pages (crawl_init roots e))) <? max_pages)%Z
                    = false) by (apply Z.ltb_ge; simpl; lia).
    destruct fuel; cbn [crawl_loop] in Hloop;
      (destruct (queue (crawl_init roots e)) as [|[u d] rest];
       [congruence | rewrite Hfull in Hloop; congruence]). }
  rewrite Hs. reflexivity.
Qed.

(** C2 (amended). [Crawler.crawl] ends for every seed list and every
    configuration, and what it returns is the list of pages of the state
    in which its loop ends.  In that state, when the page budget
    [max_pages] is not negative, there are at most [max_pages] pages
    (with a budget of zero or less there is no page); the log [fetched]
    of the loop names, page by page, the URL that was dequeued for the
    page and the depth it was dequeued at; and every entry of the log has
    a depth between 0 and [max_depth] and a URL that lies that many hops
    away from a seed, along links of the pages fetched before. *)
Theorem crawl_bounded (roots : list string) (e : Env Net Disk) :
  (exists fuel, is_Some (run fuel roots e))
  /\ (forall fuel ps,
        run fuel roots e = Some (Ok ps) ->
        exists s, loop fuel (crawl_init roots e) = Some (Ok s) /\ pages s = ps)
  /\ forall fuel s,
       loop fuel (crawl_init roots e) = Some (Ok s) ->
       ((0 <= max_pages)%Z -> (Z.of_nat (length (pages s)) <= max_pages)%Z)
       /\ ((max_pages <= 0)%Z -> pages s = [])
       /\ length (fetched s) = length (pages s)
       /\ forall u d, (u, d) ∈ fetched s ->
            (0 <= d <= max_depth)%Z /\ reached roots (fetched s) (pages s) u d.
Proof.
  split; [|split].
  - destruct (crawl_loop_terminates
                (Z.to_nat max_pages) (length (queue (crawl_init roots e)))
                (crawl_init roots e)) as [fuel [r Hr]].
    + simpl. lia.
    + lia.
    + exists fuel. unfold crawl. rewrite Hr. destruct r; eexists; reflexivity.
  - intros fuel ps. unfold crawl.
    destruct (loop fuel (crawl_init roots e)) as [[s|]|] eqn:Hloop;
      try discriminate.
    intros [= <-]. exists s. split; reflexivity.
  - intros fuel s Hloop.
    destruct (crawl_loop_ok roots fuel _ s (crawl_init_ok roots e) Hloop)
      as (Hlen & Hbudget & Hlog & _).
    split; [exact Hbudget|].
    split; [intros Hneg; exact (crawl_loop_no_budget fuel roots e s Hneg Hloop)|].
    split; [exact Hlen | exact Hlog].
Qed.

End CrawlProperties.

(** C2, as the specification words it, fails: with a negative page budget
    the crawl returns the empty list, which has more than [max_pages]
    pages. *)
Lemma crawl_negative_budget :
  ~ (forall (max_pages max_depth : Z) (roots : list string) (fuel : nat) (ps : list Page),
       sample_crawl max_pages max_depth fuel roots = Some (Ok ps) ->
       (Z.of_nat (length ps) <= max_pages)%Z).
Proof.
  intros H.
  specialize (H (-1)%Z 3%Z ["https://example.com/users"] 0 [] eq_refl).
  simpl in H. lia.
Qed.

Definition sample_crawled : list Page :=
  [mkPage "https://example.com/users" page_users 200;
   mkPage "https://example.com/admin" page_admin 200].

(** The state in which the sample crawler ends when it starts from one
    seed with a budget of 5 pages and a depth limit of 1: the page at
    depth 2 is not fetched. *)
Definition sample_bounded : CrawlState unit unit :=
  Eval vm_compute in
    match sample_crawl_loop 5 1 10 ["https://example.com/users"] with
    | Some (Ok s) => s
    | _ => crawl_init [] sample_env
    end.

Example sample_bounded_run :
  sample_crawl_loop 5 1 10 ["https://example.com/users"] = Some (Ok sample_bounded).
Proof. vm_compute. reflexivity. Qed.

Lemma crawl_bounded_witness :
  pages sample_bounded = sample_crawled
  /\ fetched sample_bounded
     = [("https://example.com/users", 0%Z); ("https://example.com/admin", 1%Z)]
  /\ (Z.of_nat (length (pages sample_bounded)) <= 5)%Z
  /\ length (fetched sample_bounded) = length (pages sample_bounded)
  /\ forall u d, (u, d) ∈ fetched sample_bounded ->
       (0 <= d <= 1)%Z
       /\ reached sample_anchor_hrefs same_host balanced_brackets false
                  ["https://example.com/users"]
                  (fetched sample_bounded) (pages sample_bounded) u d.
Proof.
  split; [reflexivity|]. split; [reflexivity|].
  destruct (proj2 (proj2 (crawl_bounded unit sample_http_get unit no_disk_get no_disk_set
                            sample_anchor_hrefs same_host balanced_brackets 5 1 false
                            ["https://example.com/users"] sample_env))
                  10 sample_bounded sample_bounded_run) as (Hbudget & _ & Hlen & Hlog).
  split; [apply Hbudget; lia|]. split; [exact Hlen | exact Hlog].
Defined.

(** * Further properties of the code *)

(** ** [dedupe_preserve_order] *)

Lemma dedupe_loop_NoDup (seen : gset string) (items : list string) :
  NoDup (dedupe_loop seen items).
Proof.
  revert seen. induction items as [|item rest IH]; intros seen; simpl.
  - apply NoDup_nil_2.
  - destruct (decide (item ∈ seen)) as [Hin|Hnin]; [apply IH|].
    apply NoDup_cons_2; [|apply IH].
    rewrite dedupe_loop_elem. intros [_ Hx]. apply Hx.
    apply elem_of_union. left. apply elem_of_singleton. reflexivity.
Qed.

(** Starting with more items already seen only removes those items from
    the result. *)
Lemma dedupe_loop_filter (seen known : gset string) (items : list string) :
  dedupe_loop (seen ∪ known) items
  = filter (fun x => x ∉ seen) (dedupe_loop known items).
Proof.
  revert known. induction items as [|item rest IH]; intros known; simpl; [reflexivity|].
  destruct (decide (item ∈ known)) as [Hk|Hk].
  - rewrite decide_True by (apply elem_of_union; right; exact Hk). apply IH.
  - destruct (decide (item ∈ seen)) as [Hs|Hs].
    + rewrite decide_True by (apply elem_of_union; left; exact Hs).
      rewrite filter_cons_False by (intros H; exact (H Hs)).
      rewrite <- IH. f_equal. apply set_eq. intros x.
      rewrite !elem_of_union, elem_of_singleton. split; [tauto|].
      intros [H | [-> | H]]; tauto.
    + rewrite decide_False by (rewrite elem_of_union; tauto).
      rewrite filter_cons_True by exact Hs. f_equal.
      rewrite <- IH. f_equal. apply set_eq. intros x.
      rewrite !elem_of_union, elem_of_singleton. tauto.
Qed.

Lemma dedupe_loop_app (seen : gset string) (l1 l2 : list string) :
  dedupe_loop seen (l1 ++ l2)
  = dedupe_loop seen l1 ++ dedupe_loop (list_to_set l1 ∪ seen) l2.
Proof.
  revert seen. induction l1 as [|x l1 IH]; intros seen; simpl.
  - rewrite union_empty_l_L. reflexivity.
  - destruct (decide (x ∈ seen)) as [Hin|Hnin].
    + rewrite IH. f_equal. f_equal. apply set_eq. intros y.
      rewrite !elem_of_union, elem_of_singleton. split; [tauto|].
      intros [[-> | H] | H]; tauto.
    + simpl. rewrite IH. f_equal. f_equal. f_equal. apply set_eq. intros y.
      rewrite !elem_of_union, elem_of_singleton. tauto.
Qed.

(** X1. [dedupe_preserve_order] returns a list without repetitions that
    has exactly the items of its argument, and applying it a second time
    changes nothing. *)
Theorem dedupe_preserve_order_set (items : list string) :
  NoDup (dedupe_preserve_order items)
  /\ (forall x, x ∈ dedupe_preserve_order items <-> x ∈ items)
  /\ dedupe_preserve_order (dedupe_preserve_order items) = dedupe_preserve_order items.
Proof.
  unfold dedupe_preserve_order. split; [apply dedupe_loop_NoDup|]. split.
  - intros x. rewrite dedupe_loop_elem. split; [tauto|].
    intros H. split; [exact H | apply not_elem_of_empty].
  - generalize (dedupe_loop_NoDup ∅ items).
    induction (dedupe_loop ∅ items) as [|x l IH]; intros Hnd; [reflexivity|].
    apply NoDup_cons in Hnd as [Hx Hnd]. simpl.
    rewrite decide_False by apply not_elem_of_empty. f_equal.
    rewrite dedupe_loop_filter, IH by exact Hnd.
    clear IH. induction l as [|y l IH]; [reflexivity|].
    apply not_elem_of_cons in Hx as [Hne Hx].
    rewrite filter_cons_True by (rewrite elem_of_singleton; congruence).
    f_equal. apply IH; [exact Hx|]. apply NoDup_cons in Hnd. tauto.
Qed.

(** X2. [dedupe_preserve_order] keeps the first occurrence of every item,
    in the order of the first occurrences: the result for [l1 ++ l2] is
    the result for [l1] followed by the result for [l2] without the items
    of [l1]. *)
Theorem dedupe_preserve_order_app (l1 l2 : list string) :
  dedupe_preserve_order (l1 ++ l2)
  = dedupe_preserve_order l1
    ++ filter (fun x => x ∉ l1) (dedupe_preserve_order l2).
Proof.
  unfold dedupe_preserve_order.
  rewrite dedupe_loop_app, dedupe_loop_filter. f_equal.
  apply list_filter_iff. intros x. rewrite elem_of_list_to_set. tauto.
Qed.

(** ** What [fetch] keeps in memory *)

Section FetchProperties.

Variable Net : Type.
Variable http_get : Net -> string -> Net * option Response.
Variable Disk : Type.
Variable disk_get : Disk -> string -> option Page.
Variable disk_set : Disk -> string -> Page -> Disk.

Local Notation get := (fetch Net http_get Disk disk_get disk_set).
Local Notation remote := (fetch_remote Net http_get Disk disk_set).

(** A response that [fetch] turns into a page: its content type, in lower
    case, starts with [text/html] and names no binary format, and its
    text has at least 100 characters. *)
Definition acceptable (resp : Response) : Prop :=
  looks_like_binary (Py.lower (resp_content_type resp)) = false
  /\ String.prefix "text/html" (Py.lower (resp_content_type resp)) = true
  /\ (100 <= Py.len (resp_text resp))%Z.

Definition page_of (resp : Response) : Page :=
  mkPage (resp_url resp) (resp_text resp) (resp_status resp).

Lemma fetch_remote_cases (e e' : Env Net Disk) (u : string) (r : option Page) :
  remote e u = (e', r) ->
  net e' = fst (http_get (net e) u)
  /\ match r with
     | None => cache e' = cache e /\ persistent_cache e' = persistent_cache e
     | Some page =>
         cache e' = <[u := page]> (cache e)
         /\ persistent_cache e'
            = option_map (fun d => disk_set d u page) (persistent_cache e)
         /\ exists resp, snd (http_get (net e) u) = Some resp
                         /\ acceptable resp /\ page = page_of resp
     end.
Proof.
  unfold fetch_remote. destruct (http_get (net e) u) as [net' [resp|]]; simpl.
  - destruct (looks_like_binary _) eqn:Hbin; [intros [= <- <-]; simpl; tauto|].
    destruct (String.prefix "text/html" _) eqn:Hhtml; simpl;
      [|intros [= <- <-]; simpl; tauto].
    destruct (Z.ltb_spec (Py.len (resp_text resp)) 100) as [Hshort|Hlong];
      intros [= <- <-]; simpl; [tauto|].
    split; [reflexivity|]. split; [reflexivity|]. split; [reflexivity|].
    exists resp. split; [reflexivity|]. split; [|reflexivity].
    split; [exact Hbin|]. split; [exact Hhtml | exact Hlong].
  - intros [= <- <-]. simpl. tauto.
Qed.

(** The three ways of [fetch]: out of the memory, out of the directory,
    or over the network. *)
Lemma fetch_cases (e e' : Env Net Disk) (u : string) (r : option Page) :
  get e u = (e', r) ->
  (exists page, cache e !! u = Some page /\ e' = e /\ r = Some page)
  \/ (cache e !! u = None
      /\ exists d page, persistent_cache e = Some d /\ disk_get d u = Some page
                        /\ r = Some page
                        /\ e' = mkEnv (<[u := page]> (cache e)) (persistent_cache e) (net e))
  \/ (cache e !! u = None
      /\ match persistent_cache e with
         | Some d => disk_get d u = None
         | None => True
         end
      /\ remote e u = (e', r)).
Proof.
  unfold fetch. destruct (cache e !! u) as [page|] eqn:Hc.
  - intros [= <- <-]. left. exists page. tauto.
  - destruct (persistent_cache e) as [d|] eqn:Hd.
    + destruct (disk_get d u) as [page|] eqn:Hg.
      * intros [= <- <-]. right. left. split; [reflexivity|]. exists d, page. tauto.
      * intros H. right. right. tauto.
    + intros H. right. right. tauto.
Qed.

(** [fetch] never drops or replaces an entry of the memory. *)
Lemma fetch_keeps (e e' : Env Net Disk) (u : string) (r : option Page) :
  get e u = (e', r) ->
  forall v page, cache e !! v = Some page -> cache e' !! v = Some page.
Proof.
  intros Hget v page Hv.
  assert (Hne : cache e !! u = None -> v <> u) by congruence.
  destruct (fetch_cases e e' u _ Hget)
    as [(p & Hc & -> & ->) | [(Hc & d & p & _ & _ & -> & ->) | (Hc & _ & Hr)]].
  - exact Hv.
  - simpl. rewrite lookup_insert_ne; [exact Hv|]. intros ->. exact (Hne Hc eq_refl).
  - destruct (fetch_remote_cases e e' u _ Hr) as [_ Hcases].
    destruct r as [p|].
    + destruct Hcases as (-> & _ & _).
      rewrite lookup_insert_ne; [exact Hv|]. intros ->. exact (Hne Hc eq_refl).
    + destruct Hcases as [-> _]. exact Hv.
Qed.

(** A page that [fetch] returns is in the memory afterwards. *)
Lemma fetch_stores (e e' : Env Net Disk) (u : string) (page : Page) :
  get e u = (e', Some page) -> cache e' !! u = Some page.
Proof.
  intros Hget.
  destruct (fetch_cases e e' u _ Hget)
    as [(p & Hc & -> & [= ->]) | [(_ & d & p & _ & _ & [= ->] & ->) | (_ & _ & Hr)]].
  - exact Hc.
  - simpl. apply lookup_insert_eq.
  - destruct (fetch_remote_cases e e' u _ Hr) as (_ & -> & _).
    apply lookup_insert_eq.
Qed.

(** Without a directory, what is in the memory after [fetch] was there
    before or is the page of an acceptable response. *)
Lemma fetch_without_directory (e e' : Env Net Disk) (u : string) (r : option Page) :
  persistent_cache e = None ->
  get e u = (e', r) ->
  persistent_cache e' = None
  /\ (forall page, r = Some page -> cache e' !! u = Some page)
  /\ forall v page, cache e' !! v = Some page ->
       cache e !! v = Some page
       \/ exists resp, snd (http_get (net e) u) = Some resp
                       /\ acceptable resp /\ page = page_of resp.
Proof.
  intros Hnone Hget. split; [|split].
  - destruct (fetch_cases e e' u _ Hget)
      as [(p & Hc & -> & ->) | [(Hc & d & p & Hd & _) | (Hc & _ & Hr)]].
    + exact Hnone.
    + congruence.
    + destruct (fetch_remote_cases e e' u _ Hr) as [_ Hcases].
      destruct r as [p|].
      * destruct Hcases as (_ & -> & _). rewrite Hnone. reflexivity.
      * destruct Hcases as [_ ->]. exact Hnone.
  - intros page ->. exact (fetch_stores e e' u page Hget).
  - intros v page Hv.
    destruct (fetch_cases e e' u _ Hget)
      as [(p & Hc & -> & ->) | [(Hc & d & p & Hd & _) | (Hc & _ & Hr)]].
    + left. exact Hv.
    + congruence.
    + destruct (fetch_remote_cases e e' u _ Hr) as [_ Hcases].
      destruct r as [p|].
      * destruct Hcases as (Hcache & _ & resp & Hresp & Hacc & ->).
        rewrite Hcache in Hv. destruct (decide (u = v)) as [->|Hne].
        -- rewrite lookup_insert_eq in Hv. injection Hv as <-.
           right. exists resp. tauto.
        -- rewrite lookup_insert_ne in Hv by exact Hne. left. exact Hv.
      * destruct Hcases as [Hcache _]. rewrite Hcache in Hv. left. exact Hv.
Qed.

(** X3. When [fetch] returns a page for a URL, the page is in the
    crawler's memory under that URL, and fetching the URL again returns
    the same page and changes nothing: neither the memory, nor the
    directory, nor the network. *)
Theorem fetch_memoized (e e' : Env Net Disk) (u : string) (page : Page) :
  get e u = (e', Some page) ->
  cache e' !! u = Some page /\ get e' u = (e', Some page).
Proof.
  intros Hget. pose proof (fetch_stores e e' u page Hget) as Hc.
  split; [exact Hc|]. unfold fetch. rewrite Hc. reflexivity.
Qed.

(** X4. [fetch] only adds to the crawler's memory: every entry stays as it
    is, the entries of the other URLs are the old ones, and a fetch that
    returns no page found no entry for the URL and leaves the memory and
    the directory as they were. *)
Theorem fetch_cache_grows (e e' : Env Net Disk) (u : string) (r : option Page) :
  get e u = (e', r) ->
  (forall v page, cache e !! v = Some page -> cache e' !! v = Some page)
  /\ (forall v, v <> u -> cache e' !! v = cache e !! v)
  /\ (r = None ->
      cache e !! u = None /\ cache e' = cache e
      /\ persistent_cache e' = persistent_cache e).
Proof.
  intros Hget. split; [exact (fetch_keeps e e' u r Hget)|].
  destruct (fetch_cases e e' u _ Hget)
    as [(p & Hc & -> & ->) | [(Hc & d & p & _ & _ & -> & ->) | (Hc & _ & Hr)]].
  - split; [reflexivity | discriminate].
  - simpl. split; [|discriminate].
    intros v Hv. apply lookup_insert_ne. congruence.
  - destruct (fetch_remote_cases e e' u _ Hr) as [_ Hcases].
    destruct r as [page|].
    + destruct Hcases as (-> & _ & _). split; [|discriminate].
      intros v Hv. apply lookup_insert_ne. congruence.
    + destruct Hcases as [-> ->]. tauto.
Qed.

End FetchProperties.

Lemma fetch_memoized_witness :
  let get := fetch unit sample_http_get unit no_disk_get no_disk_set in
  let e' := fst (get sample_env "https://example.com/users") in
  let page := mkPage "https://example.com/users" page_users 200 in
  cache e' !! "https://example.com/users" = Some page
  /\ get e' "https://example.com/users" = (e', Some page).
Proof.
  apply (fetch_memoized unit sample_http_get unit no_disk_get no_disk_set sample_env).
  vm_compute. reflexivity.
Defined.

Lemma fetch_cache_grows_witness :
  let get := fetch unit sample_http_get unit no_disk_get no_disk_set in
  get sample_env "https://example.com/logo" = (sample_env, None)
  /\ (forall v page, cache sample_env !! v = Some page -> cache sample_env !! v = Some page)
  /\ (forall v, v <> "https://example.com/logo" ->
                cache sample_env !! v = cache sample_env !! v)
  /\ ((None : option Page) = None ->
      cache sample_env !! "https://example.com/logo" = None
      /\ cache sample_env = cache sample_env
      /\ persistent_cache sample_env = persistent_cache sample_env).
Proof.
  assert (Hget : fetch unit sample_http_get unit no_disk_get no_disk_set sample_env
                       "https://example.com/logo" = (sample_env, None))
    by (vm_compute; reflexivity).
  split; [exact Hget|].
  exact (fetch_cache_grows unit sample_http_get unit no_disk_get no_disk_set
           sample_env sample_env "https://example.com/logo" None Hget).
Defined.

(** ** The links of a page *)

Lemma lower_char_hash (d : ascii) :
  Ascii.eqb "#" (Py.lower_char d) = Ascii.eqb "#" d.
Proof. destruct d as [[] [] [] [] [] [] [] []]; reflexivity. Qed.

Lemma has_substring_char (c : ascii) (s : string) :
  has_substring (String c "") s = Py.contains c s.
Proof.
  induction s as [|d s IH]; [reflexivity|].
  simpl. rewrite IH. destruct (Ascii.eqb c d) eqn:Hcd.
  - apply Ascii.eqb_eq in Hcd. subst d.
    destruct (ascii_dec c c) as [_|Hne]; [|contradiction].
    destruct s; reflexivity.
  - destruct (ascii_dec c d) as [Heq|_]; [|reflexivity].
    apply Ascii.eqb_neq in Hcd. contradiction.
Qed.

Lemma contains_lower_hash (s : string) :
  Py.contains "#" (Py.lower s) = Py.contains "#" s.
Proof.
  induction s as [|d s IH]; [reflexivity|].
  cbn [Py.contains Py.lower]. rewrite lower_char_hash, IH. reflexivity.
Qed.

Lemma skip_href_hash (href : string) :
  Py.contains "#" href = true -> skip_href href = true.
Proof.
  intros Hc. unfold skip_href. apply orb_true_iff. right.
  apply existsb_exists. exists "#". split; [simpl; tauto|].
  rewrite has_substring_char, contains_lower_hash. exact Hc.
Qed.

Section NormalizedShape.

Variable valid_netloc : string -> bool.

(** What [normalize_url] hands back, unless it is the empty string. *)
Lemma normalize_url_shape (base_url link r : string) :
  normalize_url valid_netloc base_url link = Ok r ->
  Py.is_empty r = false ->
  (exists rest, r = "http:" +:+ rest \/ r = "https:" +:+ rest)
  /\ Py.contains "#" r = false.
Proof.
  unfold normalize_url.
  destruct (Urllib.urlparse valid_netloc base_url "") as [pb|]; [|discriminate].
  destruct (Urllib.urljoin valid_netloc base_url link) as [joined|]; [|discriminate].
  cbn [rbind].
  destruct (Urllib.urlparse valid_netloc joined "") as [p|] eqn:Hp; [|discriminate].
  cbn [rbind].
  destruct (http_scheme (Urllib.scheme p)) eqn:Hs; cbn [negb];
    [|intros [= <-]; discriminate].
  intros [= <-] _.
  destruct (urlparse_free valid_netloc joined "" p Hp) as (Hn & Hpa & Hpr & Hq).
  assert (Hsch : Urllib.scheme p = "http" \/ Urllib.scheme p = "https").
  { unfold http_scheme in Hs. apply orb_true_iff in Hs as [Hs|Hs];
      apply String.eqb_eq in Hs; tauto. }
  destruct (urlunparse_shape (Urllib.scheme p) (Urllib.netloc p) (Urllib.path p)
              (Urllib.params p) (Urllib.query p)) as [[rest Hrest] Hfree].
  { destruct Hsch as [-> | ->]; reflexivity. }
  split.
  - exists rest. rewrite Hrest. destruct Hsch as [-> | ->]; [left | right]; reflexivity.
  - apply Hfree; try assumption. destruct Hsch as [-> | ->]; reflexivity.
Qed.

End NormalizedShape.

Section LinkProperties.

Variable anchor_hrefs : string -> option (list string).
Variable is_same_domain : string -> string -> bool.
Variable valid_netloc : string -> bool.
Variable allow_cross_domain : bool.

Local Notation links_of :=
  (extract_links anchor_hrefs is_same_domain valid_netloc allow_cross_domain).
Local Notation link_step :=
  (extract_link is_same_domain valid_netloc allow_cross_domain).
Local Notation links_loop :=
  (extract_links_loop is_same_domain valid_netloc allow_cross_domain).

(** The [href] values that get as far as [normalize_url]. *)
Definition considered (href : string) : Prop :=
  Py.is_empty href = false /\ skip_href href = false.

(** [href] becomes the link [l] of a page at [base_url]. *)
Definition yields (base_url href l : string) : Prop :=
  considered href
  /\ normalize_url valid_netloc base_url href = Ok l
  /\ Py.is_empty l = false
  /\ (allow_cross_domain = false -> is_same_domain base_url l = true).

Lemma strip_hash (href : string) :
  Py.strip href = "#" -> Py.contains "#" href = true.
Proof.
  unfold Py.strip. intros Hhash.
  assert (Hl : Py.contains "#" (Py.lstrip href) = true).
  { revert Hhash. generalize (Py.lstrip href). intros s.
    induction s as [|c s IH]; simpl; [discriminate|].
    destruct (Py.isspace c && Py.is_empty (Py.rstrip s)); [discriminate|].
    intros [= -> Hr]. reflexivity. }
  revert Hl. clear. induction href as [|c s IH]; simpl; [discriminate|].
  destruct (Py.isspace c).
  - intros H. rewrite (IH H). apply orb_true_r.
  - simpl. exact (fun H => H).
Qed.

Lemma extract_link_cases (base_url : string) (links : list string) (href : string) :
  match link_step base_url links href with
  | Ok links' =>
      (considered href -> normalize_url valid_netloc base_url href <> Raise)
      /\ ((links' = links /\ forall l, ~ yields base_url href l)
          \/ (exists l, links' = links ++ [l] /\ yields base_url href l))
  | Raise => considered href /\ normalize_url valid_netloc base_url href = Raise
  end.
Proof.
  unfold extract_link, yields, considered.
  destruct (Py.is_empty href) eqn:He; simpl.
  { split; [intros [H _]; discriminate H|].
    left. split; [reflexivity|]. intros l [[H _] _]. discriminate H. }
  destruct (skip_href href) eqn:Hs.
  { destruct (String.eqb (Py.strip href) "#");
      (split; [intros [_ H]; discriminate H|]);
      left; (split; [reflexivity|]); intros l [[_ H] _]; discriminate H. }
  destruct (String.eqb (Py.strip href) "#") eqn:Hhash.
  { apply String.eqb_eq, strip_hash, skip_href_hash in Hhash. congruence. }
  destruct (normalize_url valid_netloc base_url href) as [normalized|] eqn:Hn;
    cbn [rbind]; [|tauto].
  destruct (Py.is_empty normalized) eqn:Hempty.
  { split; [discriminate|].
    left. split; [reflexivity|]. intros l (_ & [= <-] & H & _). congruence. }
  destruct allow_cross_domain eqn:Hallow; simpl.
  { split; [discriminate|].
    right. exists normalized. split; [reflexivity|].
    split; [tauto|]. split; [reflexivity|]. split; [exact Hempty | discriminate]. }
  destruct (is_same_domain base_url normalized) eqn:Hsame; simpl;
    (split; [discriminate|]).
  - right. exists normalized. split; [reflexivity|].
    split; [tauto|]. split; [reflexivity|]. split; [exact Hempty|].
    intros _. exact Hsame.
  - left. split; [reflexivity|]. intros l (_ & [= <-] & _ & H).
    specialize (H eq_refl). congruence.
Qed.

Lemma extract_links_loop_spec (base_url : string) (hrefs : list string) :
  forall links,
  match links_loop base_url links hrefs with
  | Ok links' =>
      (forall href, href ∈ hrefs -> considered href ->
                    normalize_url valid_netloc base_url href <> Raise)
      /\ exists new, links' = links ++ new
           /\ forall l, l ∈ new <-> exists href, href ∈ hrefs /\ yields base_url href l
  | Raise =>
      exists href, href ∈ hrefs /\ considered href
                   /\ normalize_url valid_netloc base_url href = Raise
  end.
Proof.
  induction hrefs as [|href hrefs IH]; intros links; simpl.
  - split; [intros h Hh; inversion Hh|].
    exists []. split; [rewrite app_nil_r; reflexivity|].
    intros l. rewrite elem_of_nil. split; [tauto|]. intros (h & Hh & _). inversion Hh.
  - pose proof (extract_link_cases base_url links href) as Hstep.
    destruct (link_step base_url links href) as [links1|]; cbn [rbind].
    + specialize (IH links1). destruct Hstep as [Hfine Hstep].
      destruct (links_loop base_url links1 hrefs) as [links'|].
      * destruct IH as (Hrest & new & -> & Hnew). split.
        { intros h Hh. apply elem_of_cons in Hh as [-> | Hh]; [exact Hfine | exact (Hrest h Hh)]. }
        destruct Hstep as [[-> Hnone] | (l0 & -> & Hl0)].
        -- exists new. split; [reflexivity|]. intros l. rewrite Hnew. split.
           ++ intros (h & Hh & Hy). exists h. split; [right; exact Hh | exact Hy].
           ++ intros (h & Hh & Hy). apply elem_of_cons in Hh as [-> | Hh].
              ** destruct (Hnone l Hy).
              ** exists h. split; assumption.
        -- exists (l0 :: new). split; [rewrite <- app_assoc; reflexivity|].
           intros l. rewrite elem_of_cons, Hnew. split.
           ++ intros [-> | (h & Hh & Hy)].
              ** exists href. split; [left | exact Hl0].
              ** exists h. split; [right; exact Hh | exact Hy].
           ++ intros (h & Hh & Hy). apply elem_of_cons in Hh as [-> | Hh].
              ** left. destruct Hy as (_ & Hy & _), Hl0 as (_ & Hl0 & _). congruence.
              ** right. exists h. split; assumption.
      * destruct IH as (h & Hh & Hc). exists h. split; [right; exact Hh | exact Hc].
    + exists href. split; [left | exact Hstep].
Qed.

(** X5. Every link that [extract_links] returns starts with [http:] or
    [https:], holds no [#], is on the domain of the page unless the
    crawler allows other domains, and is [normalize_url] of an [href] of
    the page that itself holds no [#]: an anchor with a fragment is
    passed over, not followed without its fragment.  The links are
    exactly what the [href] values yield that are not empty and match no
    skip pattern. *)
Theorem extract_links_sound (base_url html : string) (links : list string) :
  links_of base_url html = Ok links ->
  (forall l, l ∈ links ->
     (exists rest, l = "http:" +:+ rest \/ l = "https:" +:+ rest)
     /\ Py.contains "#" l = false
     /\ (allow_cross_domain = false -> is_same_domain base_url l = true)
     /\ exists hrefs href,
          anchor_hrefs html = Some hrefs /\ href ∈ hrefs
          /\ Py.contains "#" href = false
          /\ normalize_url valid_netloc base_url href = Ok l)
  /\ (forall hrefs, anchor_hrefs html = Some hrefs ->
       forall l, l ∈ links <-> exists href, href ∈ hrefs /\ yields base_url href l)
  /\ (anchor_hrefs html = None -> links = []).
Proof.
  unfold extract_links. destruct (anchor_hrefs html) as [hrefs|] eqn:Hrefs.
  - pose proof (extract_links_loop_spec base_url hrefs []) as Hspec.
    destruct (links_loop base_url [] hrefs) as [links'|]; [|discriminate].
    intros [= ->]. destruct Hspec as (_ & new & -> & Hnew). simpl.
    split; [|split; [|discriminate]].
    + intros l Hl.
      apply Hnew in Hl as (href & Hin & (_ & Hskip) & Hnorm & Hne & Hsame).
      destruct (normalize_url_shape valid_netloc base_url href l Hnorm Hne)
        as [Hshape Hfree].
      split; [exact Hshape|]. split; [exact Hfree|]. split; [exact Hsame|].
      exists hrefs, href. split; [reflexivity|]. split; [exact Hin|].
      split; [|exact Hnorm].
      destruct (Py.contains "#" href) eqn:Hc; [|reflexivity].
      rewrite (skip_href_hash href Hc) in Hskip. discriminate Hskip.
    + intros hrefs' [= <-]. exact Hnew.
  - intros [= <-]. split; [|split; [discriminate | reflexivity]].
    intros l Hl. inversion Hl.
Qed.

(** X6. [extract_links] raises exactly when [normalize_url] raises for
    some [href] of the page that is not empty and matches no skip
    pattern; a page that the parser refuses has no links and raises
    nothing. *)
Theorem extract_links_raises (base_url html : string) :
  links_of base_url html = Raise
  <-> exists hrefs href,
        anchor_hrefs html = Some hrefs /\ href ∈ hrefs
        /\ Py.is_empty href = false /\ skip_href href = false
        /\ normalize_url valid_netloc base_url href = Raise.
Proof.
  unfold extract_links. destruct (anchor_hrefs html) as [hrefs|] eqn:Hrefs.
  - pose proof (extract_links_loop_spec base_url hrefs []) as Hspec. split.
    + intros Hraise. rewrite Hraise in Hspec.
      destruct Hspec as (href & Hin & [He Hs] & Hn). exists hrefs, href. tauto.
    + intros (hrefs' & href & [= <-] & Hin & He & Hs & Hn).
      destruct (links_loop base_url [] hrefs) as [links|]; [|reflexivity].
      exfalso. destruct Hspec as [Hfine _].
      exact (Hfine href Hin (conj He Hs) Hn).
  - split; [discriminate|]. intros (hrefs & _ & Hh & _). discriminate Hh.
Qed.

End LinkProperties.

Lemma extract_links_sound_witness :
  let links_of := extract_links sample_anchor_hrefs same_host balanced_brackets false in
  links_of "https://example.com/users" page_users
  = Ok ["https://example.com/admin"; "https://example.com/logo"]
  /\ Py.contains "#" "https://example.com/admin" = false
  /\ same_host "https://example.com/users" "https://example.com/admin" = true.
Proof.
  assert (Hlinks : extract_links sample_anchor_hrefs same_host balanced_brackets false
                     "https://example.com/users" page_users
                   = Ok ["https://example.com/admin"; "https://example.com/logo"])
    by (vm_compute; reflexivity).
  split; [exact Hlinks|].
  destruct (proj1 (extract_links_sound sample_anchor_hrefs same_host balanced_brackets
                     false _ _ _ Hlinks) "https://example.com/admin")
    as (_ & Hfree & Hsame & _); [left|].
  split; [exact Hfree | exact (Hsame eq_refl)].
Defined.

(** ** The trace of a crawl *)

Section CrawlTrace.

Variable Net : Type.
Variable http_get : Net -> string -> Net * option Response.
Variable Disk : Type.
Variable disk_get : Disk -> string -> option Page.
Variable disk_set : Disk -> string -> Page -> Disk.
Variable anchor_hrefs : string -> option (list string).
Variable is_same_domain : string -> string -> bool.
Variable valid_netloc : string -> bool.
Variable max_pages : Z.
Variable max_depth : Z.
Variable allow_cross_domain : bool.

Local Notation State := (CrawlState Net Disk).
Local Notation links_of :=
  (extract_links anchor_hrefs is_same_domain valid_netloc allow_cross_domain).
Local Notation get := (fetch Net http_get Disk disk_get disk_set).
Local Notation body :=
  (crawl_body Net http_get Disk disk_get disk_set anchor_hrefs is_same_domain
              valid_netloc max_depth allow_cross_domain).
Local Notation loop :=
  (crawl_loop Net http_get Disk disk_get disk_set anchor_hrefs is_same_domain
              valid_netloc max_pages max_depth allow_cross_domain).

(** The links of a page that go to the back of the queue. *)
Definition unvisited (seen : gset string) (links : list string) : list string :=
  List.filter (fun link => negb (bool_decide (link ∈ seen))) links.

(** The effect of one run of the loop body, way by way: the URL is passed
    over; it is marked and dropped for its scheme; it is marked and the
    fetch fails; it is marked, fetched and its links are queued. *)
Inductive crawl_step (u : string) (d : Z) (s : State) : State -> Prop :=
| step_skip :
    u ∈ visited s \/ (max_depth < d)%Z ->
    crawl_step u d s s
| step_scheme (parsed : Urllib.ParseResult) :
    u ∉ visited s -> (d <= max_depth)%Z ->
    Urllib.urlparse valid_netloc u "" = Ok parsed ->
    http_scheme (Urllib.scheme parsed) = false ->
    crawl_step u d s
      (mkCrawlState (queue s) ({[u]} ∪ visited s) (pages s) (fetched s) (env s))
| step_failed (parsed : Urllib.ParseResult) (env' : Env Net Disk) :
    u ∉ visited s -> (d <= max_depth)%Z ->
    Urllib.urlparse valid_netloc u "" = Ok parsed ->
    http_scheme (Urllib.scheme parsed) = true ->
    get (env s) u = (env', None) ->
    crawl_step u d s
      (mkCrawlState (queue s) ({[u]} ∪ visited s) (pages s) (fetched s) env')
| step_page (parsed : Urllib.ParseResult) (env' : Env Net Disk) (page : Page)
            (links : list string) :
    u ∉ visited s -> (d <= max_depth)%Z ->
    Urllib.urlparse valid_netloc u "" = Ok parsed ->
    http_scheme (Urllib.scheme parsed) = true ->
    get (env s) u = (env', Some page) ->
    links_of u (html page) = Ok links ->
    crawl_step u d s
      (mkCrawlState
         (queue s ++ map (fun link => (link, (d + 1)%Z))
                         (unvisited ({[u]} ∪ visited s) links))
         ({[u]} ∪ visited s) (pages s ++ [page]) (fetched s ++ [(u, d)]) env').

Lemma crawl_body_step (u : string) (d : Z) (s s' : State) :
  body u d s = Ok s' -> crawl_step u d s s'.
Proof.
  unfold crawl_body.
  destruct (bool_decide (u ∈ visited s) || (max_depth <? d)%Z) eqn:Hskip.
  - intros [= <-]. apply step_skip.
    apply orb_true_iff in Hskip as [H | H].
    + left. apply bool_decide_eq_true_1 in H. exact H.
    + right. apply Z.ltb_lt in H. exact H.
  - apply orb_false_elim in Hskip as [Hnew Hdepth].
    apply bool_decide_eq_false_1 in Hnew. apply Z.ltb_ge in Hdepth.
    destruct (Urllib.urlparse valid_netloc u "") as [parsed|] eqn:Hparsed; [|discriminate].
    cbn [rbind]. destruct (http_scheme (Urllib.scheme parsed)) eqn:Hs; cbn [negb].
    + cbn [env queue visited pages fetched].
      destruct (get (env s) u) as [env' [page|]] eqn:Hget.
      * cbn [env queue visited pages fetched].
        destruct (links_of u (html page)) as [links|] eqn:Hlinks; [|discriminate].
        cbn [rbind]. intros [= <-]. cbn [env queue visited pages fetched].
        exact (step_page u d s parsed env' page links Hnew Hdepth Hparsed Hs Hget Hlinks).
      * intros [= <-]. cbn [env queue visited pages fetched].
        exact (step_failed u d s parsed env' Hnew Hdepth Hparsed Hs Hget).
    + intros [= <-].
      exact (step_scheme u d s parsed Hnew Hdepth Hparsed Hs).
Qed.

(** A property of the state that holds at the start and that every run
    of the loop body keeps holds when the loop ends. *)
Lemma crawl_loop_invariant (I : State -> Prop) :
  (forall s u d rest s',
     I s -> queue s = (u, d) :: rest ->
     crawl_step u d (mkCrawlState rest (visited s) (pages s) (fetched s) (env s)) s' ->
     I s') ->
  forall fuel s s', I s -> loop fuel s = Some (Ok s') -> I s'.
Proof.
  intros Hkeep. induction fuel as [|fuel IH]; intros s s' Hs Hloop; simpl in Hloop.
  - destruct (queue s) as [|[u d] rest]; [congruence|].
    destruct (Z.of_nat (length (pages s)) <? max_pages)%Z; congruence.
  - destruct (queue s) as [|[u d] rest] eqn:Hq; [congruence|].
    destruct (Z.of_nat (length (pages s)) <? max_pages)%Z; [|congruence].
    destruct (body u d (mkCrawlState rest (visited s) (pages s) (fetched s) (env s)))
      as [s1|] eqn:Hbody; [|discriminate Hloop].
    apply (IH s1 s'); [|exact Hloop].
    exact (Hkeep s u d rest s1 Hs Hq (crawl_body_step _ _ _ _ Hbody)).
Qed.

(** X7. [crawl] never fetches a URL twice: the URLs for which it got
    its pages are pairwise distinct, and each of them has been marked as
    visited. *)
Theorem crawl_fetches_once (fuel : nat) (roots : list string) (e : Env Net Disk)
    (s : State) :
  loop fuel (crawl_init roots e) = Some (Ok s) ->
  NoDup (map fst (fetched s))
  /\ forall u, u ∈ map fst (fetched s) -> u ∈ visited s.
Proof.
  apply (crawl_loop_invariant
           (fun s => NoDup (map fst (fetched s))
                     /\ forall u, u ∈ map fst (fetched s) -> u ∈ visited s)).
  - intros s0 u d rest s' [Hnd Hvis] _ Hstep.
    inversion Hstep as [Hskip | parsed Hnew | parsed env' Hnew
                        | parsed env' page links Hnew];
      subst; cbn [fetched visited] in *.
    + split; assumption.
    + split; [exact Hnd|]. intros v Hv. apply elem_of_union. right. exact (Hvis v Hv).
    + split; [exact Hnd|]. intros v Hv. apply elem_of_union. right. exact (Hvis v Hv).
    + rewrite map_app. simpl. split.
      * apply NoDup_app. split; [exact Hnd|]. split; [|apply NoDup_singleton].
        intros v Hv Hv'. apply list_elem_of_singleton in Hv'. subst v.
        exact (Hnew (Hvis u Hv)).
      * intros v Hv. apply elem_of_app in Hv as [Hv | Hv].
        -- apply elem_of_union. right. exact (Hvis v Hv).
        -- apply list_elem_of_singleton in Hv. subst v.
           apply elem_of_union. left. apply elem_of_singleton. reflexivity.
  - simpl. split; [apply NoDup_nil_2|]. intros u Hu. inversion Hu.
Qed.

Definition depths (l : list (string * Z)) : list Z := map snd l.

(** The depths of the log followed by those of the queue never go down,
    and the queue spans at most two depths. *)
Definition breadth_first (s : State) : Prop :=
  StronglySorted Z.le (depths (fetched s) ++ depths (queue s))
  /\ forall y y', y ∈ depths (queue s) -> y' ∈ depths (queue s) -> (y' <= y + 1)%Z.

Lemma breadth_first_dequeue (s : State) (u : string) (d : Z) (rest : list (string * Z)) :
  breadth_first s -> queue s = (u, d) :: rest ->
  StronglySorted Z.le (depths (fetched s))
  /\ StronglySorted Z.le (depths rest)
  /\ (forall x, x ∈ depths (fetched s) -> (x <= d)%Z)
  /\ (forall y, y ∈ depths rest -> (d <= y <= d + 1)%Z).
Proof.
  intros [Hsorted Hspan] Hq. rewrite Hq in Hsorted, Hspan. simpl in Hsorted, Hspan.
  apply StronglySorted_app in Hsorted as (Hlow & Hlog & Hqueue).
  apply StronglySorted_cons in Hqueue as [Hd Hrest]. rewrite Forall_forall in Hd.
  split; [exact Hlog|]. split; [exact Hrest|]. split.
  - intros x Hx. apply (Hlow x d Hx). left.
  - intros y Hy. split; [exact (Hd y Hy)|].
    apply (Hspan d y); [left | right; exact Hy].
Qed.

Lemma breadth_first_rest (s : State) (u : string) (d : Z) (rest : list (string * Z))
    (seen : gset string) (e' : Env Net Disk) :
  breadth_first s -> queue s = (u, d) :: rest ->
  breadth_first (mkCrawlState rest seen (pages s) (fetched s) e').
Proof.
  intros Hs Hq. destruct (breadth_first_dequeue s u d rest Hs Hq)
    as (Hlog & Hrest & Hlow & Hhigh).
  split; cbn [fetched queue].
  - apply StronglySorted_app. split; [|split; assumption].
    intros x y Hx Hy. specialize (Hlow x Hx). specialize (Hhigh y Hy). lia.
  - intros y y' Hy Hy'. pose proof (Hhigh y Hy). pose proof (Hhigh y' Hy'). lia.
Qed.

(** X8. [crawl] goes breadth first: the depths at which the pages were
    obtained never go down along the list of pages. *)
Theorem crawl_breadth_first (fuel : nat) (roots : list string) (e : Env Net Disk)
    (s : State) :
  loop fuel (crawl_init roots e) = Some (Ok s) ->
  StronglySorted Z.le (depths (fetched s)).
Proof.
  intros Hloop.
  assert (Hs : breadth_first s).
  { revert Hloop. apply (crawl_loop_invariant breadth_first).
    - intros s0 u d rest s' Hs0 Hq Hstep.
      inversion Hstep as [Hskip | parsed Hnew | parsed env' Hnew
                          | parsed env' page links Hnew];
        subst; cbn [fetched visited queue pages env] in *;
        try exact (breadth_first_rest s0 u d rest _ _ Hs0 Hq).
      destruct (breadth_first_dequeue s0 u d rest Hs0 Hq)
        as (Hlog & Hrest & Hlow & Hhigh).
      set (new := unvisited _ links).
      assert (Hnew' : forall y, y ∈ depths (map (fun link => (link, (d + 1)%Z)) new)
                                -> y = (d + 1)%Z).
      { intros y Hy. unfold depths in Hy. rewrite map_map in Hy. simpl in Hy.
        apply list_elem_of_In, in_map_iff in Hy as (l & <- & _). reflexivity. }
      split; cbn [fetched queue]; unfold depths in *; rewrite !map_app.
      + simpl. apply StronglySorted_app. split; [|split].
        * intros x y Hx Hy. apply elem_of_app in Hx as [Hx | Hx], Hy as [Hy | Hy].
          -- specialize (Hlow x Hx). specialize (Hhigh y Hy). lia.
          -- specialize (Hlow x Hx). rewrite (Hnew' y Hy). lia.
          -- apply list_elem_of_singleton in Hx. subst x. specialize (Hhigh y Hy). lia.
          -- apply list_elem_of_singleton in Hx. subst x. rewrite (Hnew' y Hy). lia.
        * apply StronglySorted_app. split; [|split; [exact Hlog|]].
          -- intros x y Hx Hy. apply list_elem_of_singleton in Hy. subst y.
             exact (Hlow x Hx).
          -- repeat constructor.
        * apply StronglySorted_app. split; [|split; [exact Hrest|]].
          -- intros x y Hx Hy. specialize (Hhigh x Hx). rewrite (Hnew' y Hy). lia.
          -- clear -Hnew'. induction new as [|l new IH]; [constructor|].
             simpl. constructor.
             ++ apply IH. intros y Hy. apply Hnew'. right. exact Hy.
             ++ apply Forall_forall. intros y Hy.
                rewrite (Hnew' y); [lia|]. right. exact Hy.
      + intros y y' Hy Hy'. apply elem_of_app in Hy as [Hy | Hy], Hy' as [Hy' | Hy'].
        * pose proof (Hhigh y Hy). pose proof (Hhigh y' Hy'). lia.
        * specialize (Hhigh y Hy). rewrite (Hnew' y' Hy'). lia.
        * specialize (Hhigh y' Hy'). rewrite (Hnew' y Hy). lia.
        * rewrite (Hnew' y Hy), (Hnew' y' Hy'). lia.
    - split; cbn [fetched queue crawl_init]; unfold depths; rewrite map_map; simpl.
      + induction roots as [|r roots IH]; [constructor|].
        simpl. constructor; [exact IH|]. apply Forall_forall. intros y Hy.
        apply list_elem_of_In, in_map_iff in Hy as (l & <- & _). lia.
      + intros y y' Hy Hy'.
        apply list_elem_of_In, in_map_iff in Hy as (l & <- & _).
        apply list_elem_of_In, in_map_iff in Hy' as (l' & <- & _). lia. }
  destruct Hs as [Hsorted _]. apply StronglySorted_app in Hsorted. tauto.
Qed.

(** X9. [crawl] fetches only URLs that [urlparse] accepts and whose
    scheme is [http] or [https]; a seed of any other scheme yields no
    page. *)
Theorem crawl_requests_http (fuel : nat) (roots : list string) (e : Env Net Disk)
    (s : State) :
  loop fuel (crawl_init roots e) = Some (Ok s) ->
  forall u d, (u, d) ∈ fetched s ->
    exists parsed, Urllib.urlparse valid_netloc u "" = Ok parsed
                   /\ (Urllib.scheme parsed = "http" \/ Urllib.scheme parsed = "https").
Proof.
  apply (crawl_loop_invariant
           (fun s => forall u d, (u, d) ∈ fetched s ->
              exists parsed, Urllib.urlparse valid_netloc u "" = Ok parsed
                /\ (Urllib.scheme parsed = "http" \/ Urllib.scheme parsed = "https"))).
  - intros s0 u d rest s' Hs0 _ Hstep.
    inversion Hstep as [Hskip | parsed Hnew | parsed env' Hnew
                        | parsed env' page links Hnew Hdepth Hparsed Hscheme];
      subst; cbn [fetched] in *; try exact Hs0.
    intros v dv Hv. apply elem_of_app in Hv as [Hv | Hv]; [exact (Hs0 v dv Hv)|].
    apply list_elem_of_singleton in Hv. injection Hv as -> ->.
    exists parsed. split; [exact Hparsed|].
    unfold http_scheme in Hscheme. apply orb_true_iff in Hscheme as [Hsch | Hsch];
      apply String.eqb_eq in Hsch; tauto.
  - intros u d Hin. inversion Hin.
Qed.

(** X10. When [crawl] ends, the log and the list of pages are equally
    long, and the crawler's memory holds every returned page under the
    URL it was fetched for, so that fetching that URL again returns the
    page without a request. *)
Theorem crawl_pages_in_memory (fuel : nat) (roots : list string) (e : Env Net Disk)
    (s : State) :
  loop fuel (crawl_init roots e) = Some (Ok s) ->
  length (fetched s) = length (pages s)
  /\ forall i u d page,
       fetched s !! i = Some (u, d) -> pages s !! i = Some page ->
       cache (env s) !! u = Some page
       /\ get (env s) u = (env s, Some page).
Proof.
  intros Hloop.
  assert (Hs : length (fetched s) = length (pages s)
               /\ forall i u d page,
                    fetched s !! i = Some (u, d) -> pages s !! i = Some page ->
                    cache (env s) !! u = Some page).
  { revert Hloop.
    apply (crawl_loop_invariant
             (fun s => length (fetched s) = length (pages s)
                       /\ forall i u d page,
                            fetched s !! i = Some (u, d) -> pages s !! i = Some page ->
                            cache (env s) !! u = Some page)).
    - intros s0 u d rest s' [Hlen Hmem] _ Hstep.
      inversion Hstep as [Hskip | parsed Hnew | parsed env' Hnew _ _ _ Hget
                          | parsed env' page links Hnew _ _ _ Hget];
        subst; cbn [fetched pages env] in *.
      + split; assumption.
      + split; assumption.
      + split; [exact Hlen|]. intros i v dv p Hf Hp.
        exact (fetch_keeps _ _ _ _ _ _ _ _ _ Hget v p (Hmem i v dv p Hf Hp)).
      + split; [rewrite !length_app; simpl; lia|].
        intros i v dv p Hf Hp.
        destruct (decide (i < length (fetched s0))) as [Hi|Hi].
        * rewrite lookup_app_l in Hf by exact Hi.
          rewrite lookup_app_l in Hp by (rewrite <- Hlen; exact Hi).
          exact (fetch_keeps _ _ _ _ _ _ _ _ _ Hget v p (Hmem i v dv p Hf Hp)).
        * rewrite lookup_app_r in Hf by lia.
          rewrite lookup_app_r in Hp by lia. rewrite <- Hlen in Hp.
          destruct (i - length (fetched s0)) as [|k]; simpl in Hf, Hp; [|discriminate].
          injection Hf as -> ->. injection Hp as ->.
          exact (fetch_stores _ _ _ _ _ _ _ _ _ Hget).
    - split; [reflexivity|]. intros i u d page Hf. inversion Hf. }
  destruct Hs as [Hlen Hmem]. split; [exact Hlen|].
  intros i u d page Hf Hp. specialize (Hmem i u d page Hf Hp).
  split; [exact Hmem|]. unfold fetch. rewrite Hmem. reflexivity.
Qed.

(** The pages of a crawler that starts with an empty memory and has no
    directory all come from acceptable responses. *)
Definition from_response (page : Page) : Prop :=
  exists n u resp,
    snd (http_get n u) = Some resp /\ acceptable resp /\ page = page_of resp.

Lemma crawl_loop_cold (fuel : nat) (roots : list string) (e : Env Net Disk) (s : State) :
  cache e = ∅ -> persistent_cache e = None ->
  loop fuel (crawl_init roots e) = Some (Ok s) ->
  forall page, page ∈ pages s -> from_response page.
Proof.
  intros Hempty Hnone Hloop.
  assert (Hs : persistent_cache (env s) = None
               /\ (forall v page, cache (env s) !! v = Some page -> from_response page)
               /\ forall page, page ∈ pages s -> from_response page).
  { revert Hloop.
    apply (crawl_loop_invariant
             (fun s => persistent_cache (env s) = None
                       /\ (forall v page, cache (env s) !! v = Some page
                                          -> from_response page)
                       /\ forall page, page ∈ pages s -> from_response page)).
    - intros s0 u d rest s' (Hdir & Hmem & Hpages) _ Hstep.
      inversion Hstep as [Hskip | parsed Hnew | parsed env' Hnew _ _ _ Hget
                          | parsed env' page links Hnew _ _ _ Hget];
        subst; cbn [fetched pages env] in *; try tauto.
      + destruct (fetch_without_directory _ _ _ _ _ _ _ _ _ Hdir Hget)
          as (Hdir' & _ & Hmem').
        split; [exact Hdir'|]. split; [|exact Hpages].
        intros v p Hv. destruct (Hmem' v p Hv) as [Hold | (resp & Hresp & Hacc & ->)].
        * exact (Hmem v p Hold).
        * exists (net (env s0)), u, resp. tauto.
      + destruct (fetch_without_directory _ _ _ _ _ _ _ _ _ Hdir Hget)
          as (Hdir' & Hstored & Hmem').
        assert (Hmem1 : forall v p, cache env' !! v = Some p -> from_response p).
        { intros v p Hv. destruct (Hmem' v p Hv) as [Hold | (resp & Hresp & Hacc & ->)].
          - exact (Hmem v p Hold).
          - exists (net (env s0)), u, resp. tauto. }
        split; [exact Hdir'|]. split; [exact Hmem1|].
        intros p Hp. apply elem_of_app in Hp as [Hp | Hp]; [exact (Hpages p Hp)|].
        apply list_elem_of_singleton in Hp. subst p.
        exact (Hmem1 u page (Hstored page eq_refl)).
    - cbn [crawl_init env pages]. split; [exact Hnone|]. split.
      + intros v page Hv. rewrite Hempty, lookup_empty in Hv. discriminate Hv.
      + intros page Hp. inversion Hp. }
  intros page Hp. destruct Hs as (_ & _ & Hpages). exact (Hpages page Hp).
Qed.

(** X11. A crawler that starts with an empty memory and has no directory
    on disk returns only pages that it made from responses of the
    transport whose content type starts with [text/html], in any case of
    the letters, and names no binary format; each page has at least 100
    characters. *)
Theorem crawl_cold_start (fuel : nat) (roots : list string) (e : Env Net Disk)
    (s : State) :
  cache e = ∅ -> persistent_cache e = None ->
  loop fuel (crawl_init roots e) = Some (Ok s) ->
  forall page, page ∈ pages s ->
    (100 <= Py.len (html page))%Z
    /\ exists n u resp,
         snd (http_get n u) = Some resp /\ acceptable resp /\ page = page_of resp.
Proof.
  intros Hempty Hnone Hloop page Hp.
  destruct (crawl_loop_cold fuel roots e s Hempty Hnone Hloop page Hp)
    as (n & u & resp & Hresp & Hacc & ->).
  split; [exact (proj2 (proj2 Hacc))|]. exists n, u, resp. tauto.
Qed.

End CrawlTrace.

(** The run of the sample crawler from one seed. *)
Definition sample_log : list (string * Z) :=
  [("https://example.com/users", 0%Z); ("https://example.com/admin", 1%Z);
   ("https://example.com/audit", 2%Z)].

Lemma crawl_fetches_once_witness :
  fetched sample_final = sample_log
  /\ NoDup (map fst (fetched sample_final))
  /\ forall u, u ∈ map fst (fetched sample_final) -> u ∈ visited sample_final.
Proof.
  split; [reflexivity|].
  exact (crawl_fetches_once unit sample_http_get unit no_disk_get no_disk_set
           sample_anchor_hrefs same_host balanced_brackets 40 3 false
           10 ["https://example.com/users"] sample_env sample_final sample_run).
Defined.

Lemma crawl_breadth_first_witness :
  depths (fetched sample_final) = [0; 1; 2]%Z
  /\ StronglySorted Z.le (depths (fetched sample_final)).
Proof.
  split; [reflexivity|].
  exact (crawl_breadth_first unit sample_http_get unit no_disk_get no_disk_set
           sample_anchor_hrefs same_host balanced_brackets 40 3 false
           10 ["https://example.com/users"] sample_env sample_final sample_run).
Defined.

Lemma crawl_requests_http_witness :
  exists parsed,
    Urllib.urlparse balanced_brackets "https://example.com/admin" "" = Ok parsed
    /\ (Urllib.scheme parsed = "http" \/ Urllib.scheme parsed = "https").
Proof.
  refine (crawl_requests_http unit sample_http_get unit no_disk_get no_disk_set
            sample_anchor_hrefs same_host balanced_brackets 40 3 false
            10 ["https://example.com/users"] sample_env sample_final sample_run
            "https://example.com/admin" 1%Z _).
  right. left.
Defined.

Lemma crawl_pages_in_memory_witness :
  let admin := mkPage "https://example.com/admin" page_admin 200 in
  let get := fetch unit sample_http_get unit no_disk_get no_disk_set in
  cache (env sample_final) !! "https://example.com/admin" = Some admin
  /\ get (env sample_final) "https://example.com/admin" = (env sample_final, Some admin).
Proof.
  refine (proj2 (crawl_pages_in_memory unit sample_http_get unit no_disk_get
                   no_disk_set sample_anchor_hrefs same_host balanced_brackets
                   40 3 false 10 ["https://example.com/users"] sample_env sample_final
                   sample_run)
                1 "https://example.com/admin" 1%Z _ _ _); reflexivity.
Defined.

Lemma crawl_cold_start_witness :
  (100 <= Py.len page_admin)%Z
  /\ exists n u resp,
       snd (sample_http_get n u) = Some resp
       /\ acceptable resp
       /\ mkPage "https://example.com/admin" page_admin 200 = page_of resp.
Proof.
  refine (crawl_cold_start unit sample_http_get unit no_disk_get no_disk_set
            sample_anchor_hrefs same_host balanced_brackets 40 3 false
            10 ["https://example.com/users"] sample_env sample_final
            eq_refl eq_refl sample_run
            (mkPage "https://example.com/admin" page_admin 200) _).
  right. left.
Defined.

(** ** When a summary is empty *)

Lemma take_all (n : nat) (s : string) :
  String.length s <= n -> Py.take n s = s.
Proof.
  revert s. induction n as [|n IH]; intros [|c s] Hlen; simpl in *; try reflexivity; [lia|].
  rewrite IH by lia. reflexivity.
Qed.

Lemma is_empty_app (a b : string) :
  Py.is_empty (a +:+ b) = Py.is_empty a && Py.is_empty b.
Proof. destruct a; reflexivity. Qed.

Lemma summary_fallback_not_empty (t : string) :
  Py.is_empty (Py.strip t) = false -> Py.is_empty (summary_fallback t) = false.
Proof.
  intros Ht. unfold summary_fallback. rewrite is_empty_app.
  destruct (Z.ltb_spec 200 (Py.len t)) as [Hlong|Hshort].
  - apply andb_false_r.
  - rewrite take_all by (unfold Py.len in Hshort; lia). rewrite Ht. reflexivity.
Qed.

Lemma summarize_text_is_empty (t : string) (max_sentences : Z) :
  Py.is_empty (summarize_text t max_sentences) = Py.is_empty (Py.strip t).
Proof.
  unfold summarize_text.
  destruct t as [|c t]; [reflexivity|]. cbn [Py.is_empty orb].
  destruct (Py.is_empty (Py.strip (String c t))) eqn:Hblank; [reflexivity|].
  pose proof (summary_fallback_not_empty _ Hblank) as Hfb.
  destruct (real_sentences (String c t)) as [|s l]; [exact Hfb|].
  destruct (Py.is_empty (Py.strip (Py.join " " (Py.slice_to max_sentences (s :: l)))))
    eqn:Hsum; simpl; assumption.
Qed.

(** X12. [summarize_text] returns the empty string only for a text that
    is empty or all whitespace, whatever the number of sentences asked
    for, a negative one included. *)
Theorem summarize_text_empty (t : string) (max_sentences : Z) :
  summarize_text t max_sentences = "" <-> Py.strip t = "".
Proof.
  rewrite <- !is_empty_true, summarize_text_is_empty. reflexivity.
Qed.

(** ** Descriptions *)

Lemma module_description_not_empty (s : Section) :
  Py.is_empty (module_description s) = false.
Proof.
  unfold module_description.
  destruct (Py.is_empty (Py.strip _)) eqn:Hblank; [reflexivity|].
  rewrite summarize_text_is_empty. exact Hblank.
Qed.

Lemma submodule_description_not_empty (s : Section) :
  Py.is_empty (submodule_description s) = false.
Proof.
  unfold submodule_description.
  destruct (Py.is_empty (Py.strip (text s))) eqn:Hblank; simpl; [reflexivity|].
  rewrite summarize_text_is_empty. exact Hblank.
Qed.

(** ** The order of the confidences *)

Ltac compare_cases :=
  repeat match goal with
         | H : context [(?a ?= ?b)%Z] |- _ => destruct (Z.compare_spec a b); try discriminate H
         | H : context [Pos.compare_cont Eq ?a ?b] |- _ =>
             change (Pos.compare_cont Eq a b) with (Pos.compare a b) in H;
             destruct (Pos.compare_spec a b); try discriminate H
         | |- context [(?a ?= ?b)%Z] => destruct (Z.compare_spec a b)
         | |- context [Pos.compare_cont Eq ?a ?b] =>
             change (Pos.compare_cont Eq a b) with (Pos.compare a b);
             destruct (Pos.compare_spec a b)
         end.

Lemma SFltb_trans (a b c : spec_float) :
  SFltb a b = true -> SFltb b c = true -> SFltb a c = true.
Proof.
  unfold SFltb.
  destruct a as [[]|[]| |[] ma ea], b as [[]|[]| |[] mb eb], c as [[]|[]| |[] mc ec];
    simpl; try congruence; intros Hab Hbc;
    compare_cases; subst; simpl in *; try reflexivity; try discriminate; try lia.
Qed.

Lemma SFltb_asym (a b : spec_float) : SFltb a b = true -> SFltb b a = false.
Proof.
  unfold SFltb.
  destruct a as [[]|[]| |[] ma ea], b as [[]|[]| |[] mb eb];
    simpl; try congruence; intros Hab;
    compare_cases; subst; simpl in *; try reflexivity; try discriminate; try lia.
Qed.

(** [<] on floats is transitive, so what is not below an element that is
    below [m] is not above [m] either. *)
Lemma float_ltb_chain (y m z : float) :
  PrimFloat.ltb y m = true -> PrimFloat.ltb y z = false -> PrimFloat.ltb m z = false.
Proof.
  rewrite !ltb_spec. intros Hym Hyz.
  destruct (SFltb (Prim2SF m) (Prim2SF z)) eqn:Hmz; [|reflexivity].
  rewrite (SFltb_trans _ _ _ Hym Hmz) in Hyz. discriminate Hyz.
Qed.

Lemma float_ltb_asym (x y : float) :
  PrimFloat.ltb x y = true -> PrimFloat.ltb y x = false.
Proof. rewrite !ltb_spec. apply SFltb_asym. Qed.

(** Two numbers that are not NaN compare one way or the other. *)
Lemma float_not_ltb_leb (lo x y : float) :
  PrimFloat.leb lo x = true -> PrimFloat.leb lo y = true ->
  PrimFloat.ltb x y = false -> PrimFloat.leb y x = true.
Proof.
  rewrite ltb_spec, !leb_spec. unfold SFltb, SFleb.
  destruct (Prim2SF lo) as [[]|[]| |[] ml el], (Prim2SF x) as [[]|[]| |[] mx ex],
           (Prim2SF y) as [[]|[]| |[] my ey];
    simpl; try congruence; intros _ _ Hxy;
    compare_cases; subst; simpl in *; try reflexivity; try discriminate; try lia.
Qed.

(** ** The list of modules *)

Definition not_below (a b : Module_) : Prop :=
  PrimFloat.ltb (confidence a) (confidence b) = false.

Lemma insert_by_confidence_sorted (m : Module_) (sorted : list Module_) :
  StronglySorted not_below sorted ->
  StronglySorted not_below (insert_by_confidence m sorted).
Proof.
  induction sorted as [|x rest IH]; intros Hs; simpl.
  - repeat constructor.
  - apply StronglySorted_cons in Hs as [Hx Hrest]. rewrite Forall_forall in Hx.
    destruct (PrimFloat.ltb (confidence x) (confidence m)) eqn:Hxm.
    + constructor; [constructor; [exact Hrest | apply Forall_forall; exact Hx]|].
      apply Forall_forall. intros z Hz. apply elem_of_cons in Hz as [-> | Hz].
      * exact (float_ltb_asym _ _ Hxm).
      * exact (float_ltb_chain _ _ _ Hxm (Hx z Hz)).
    + constructor; [exact (IH Hrest)|].
      apply Forall_forall. intros z Hz.
      apply insert_by_confidence_elem in Hz as [-> | Hz]; [exact Hxm | exact (Hx z Hz)].
Qed.

Lemma sort_by_confidence_sorted (modules : list Module_) :
  StronglySorted not_below (sort_by_confidence modules).
Proof.
  unfold sort_by_confidence.
  assert (Hgen : forall acc, StronglySorted not_below acc ->
            StronglySorted not_below
              (fold_left (fun sorted m => insert_by_confidence m sorted) modules acc)).
  { induction modules as [|m modules IH]; intros acc Hacc; simpl; [exact Hacc|].
    apply IH, insert_by_confidence_sorted, Hacc. }
  apply Hgen. constructor.
Qed.

Lemma insert_by_confidence_perm (m : Module_) (sorted : list Module_) :
  insert_by_confidence m sorted ≡ₚ m :: sorted.
Proof.
  induction sorted as [|x rest IH]; simpl; [reflexivity|].
  destruct (PrimFloat.ltb (confidence x) (confidence m)); [reflexivity|].
  rewrite IH. apply Permutation_swap.
Qed.

Lemma sort_by_confidence_perm (modules : list Module_) :
  sort_by_confidence modules ≡ₚ modules.
Proof.
  unfold sort_by_confidence.
  assert (Hgen : forall acc,
            fold_left (fun sorted m => insert_by_confidence m sorted) modules acc
            ≡ₚ modules ++ acc).
  { induction modules as [|m modules IH]; intros acc; simpl; [reflexivity|].
    rewrite IH, insert_by_confidence_perm. symmetry. apply Permutation_middle. }
  rewrite Hgen, app_nil_r. reflexivity.
Qed.

Definition has_sections (entry : string * list Section) : bool :=
  match snd entry with
  | [] => false
  | _ :: _ => true
  end.

Lemma build_modules_names (srcs : gmap string (gset string))
    (entries : list (string * list Section)) :
  forall acc,
  map name (fold_left (build_module srcs) entries acc)
  = map name acc ++ map fst (List.filter has_sections entries).
Proof.
  induction entries as [|[t secs] entries IH]; intros acc; simpl.
  - rewrite app_nil_r. reflexivity.
  - rewrite IH. destruct secs as [|top rest]; simpl; [reflexivity|].
    rewrite map_app, <- app_assoc. reflexivity.
Qed.

Lemma NoDup_map_filter {A B : Type} (f : A -> B) (p : A -> bool) (l : list A) :
  NoDup (map f l) -> NoDup (map f (List.filter p l)).
Proof.
  induction l as [|x l IH]; simpl; intros Hnd; [exact Hnd|].
  apply NoDup_cons in Hnd as [Hx Hnd]. destruct (p x); simpl; [|exact (IH Hnd)].
  apply NoDup_cons_2; [|exact (IH Hnd)].
  intros Hin. apply Hx. apply list_elem_of_In, in_map_iff in Hin as (y & Hy & Hin).
  apply filter_In in Hin as [Hin _].
  apply list_elem_of_In, in_map_iff. exists y. tauto.
Qed.

Section ModuleListProperties.

Variable ratio : string -> string -> float.
Variable html_blocks : string -> result (list (string * string)).

(** The result of [infer_modules], unless it is empty for want of
    candidates: the modules of the regrouped sections, sorted. *)
Lemma infer_modules_shape (pages : list (string * string)) (ms : list Module_) :
  infer_modules ratio html_blocks pages = Ok ms ->
  ms = []
  \/ exists mm,
       NoDup (map fst (merged_modules mm))
       /\ ms = sort_by_confidence
                 (fold_left (build_module (merged_sources mm)) (merged_modules mm) []).
Proof.
  unfold infer_modules. destruct pages as [|p pages]; [intros [= <-]; left; reflexivity|].
  set (g := gather html_blocks (p :: pages)).
  destruct (module_sections g) as [|e es] eqn:Hms; [intros [= <-]; left; reflexivity|].
  destruct (reorganize _ (section_sources g) (e :: es) (mkMerged [] ∅))
    as [mm|] eqn:Hre; simpl; [|discriminate].
  intros [= <-]. right. exists mm. split; [|reflexivity].
  apply (reorganize_spec _ _ _ _ _ Hre). simpl. apply NoDup_nil_2.
Qed.

(** X13. No two modules that [infer_modules] returns have the same
    name. *)
Theorem infer_modules_names_distinct (pages : list (string * string))
    (ms : list Module_) :
  infer_modules ratio html_blocks pages = Ok ms -> NoDup (map name ms).
Proof.
  intros Hinfer.
  destruct (infer_modules_shape pages ms Hinfer) as [-> | (mm & Hnd & ->)];
    [apply NoDup_nil_2|].
  rewrite (Permutation_map name (sort_by_confidence_perm _)).
  rewrite build_modules_names. simpl. apply NoDup_map_filter, Hnd.
Qed.

Lemma module_confidence_bounds (pages : list (string * string)) (ms : list Module_)
    (m : Module_) :
  infer_modules ratio html_blocks pages = Ok ms -> m ∈ ms ->
  PrimFloat.leb 0.3 (confidence m) = true /\ PrimFloat.leb (confidence m) 0.95 = true.
Proof.
  intros Hinfer Hm.
  destruct (infer_modules_elem ratio html_blocks pages ms m Hinfer Hm)
    as (srcs & top & rest & _ & -> & _).
  simpl. apply clamp_bounds.
Qed.

(** X14. [infer_modules] returns its modules by confidence, highest
    first: no module has a lower confidence than one that comes after it;
    and every confidence lies between 0.3 and 0.95. *)
Theorem infer_modules_sorted (pages : list (string * string)) (ms : list Module_) :
  infer_modules ratio html_blocks pages = Ok ms ->
  StronglySorted (fun a b => PrimFloat.leb (confidence b) (confidence a) = true) ms
  /\ forall m, m ∈ ms ->
       PrimFloat.leb 0.3 (confidence m) = true /\ PrimFloat.leb (confidence m) 0.95 = true.
Proof.
  intros Hinfer. split; [|intros m Hm; exact (module_confidence_bounds pages ms m Hinfer Hm)].
  assert (Hsorted : StronglySorted not_below ms).
  { destruct (infer_modules_shape pages ms Hinfer) as [-> | (mm & _ & ->)];
      [constructor | apply sort_by_confidence_sorted]. }
  pose proof (fun m Hm => proj1 (module_confidence_bounds pages ms m Hinfer Hm)) as Hlow.
  clear Hinfer. induction Hsorted as [|a l Hl IH Ha]; [constructor|].
  constructor.
  - apply IH. intros m Hm. apply Hlow. right. exact Hm.
  - rewrite Forall_forall in Ha. apply Forall_forall. intros b Hb.
    apply (float_not_ltb_leb 0.3).
    + apply Hlow. left.
    + apply Hlow. right. exact Hb.
    + exact (Ha b Hb).
Qed.

(** X15. Every module that [infer_modules] returns has at least one
    source URL; its source URLs are pairwise distinct and are URLs of the
    input pages; and each of its submodules carries the same list of
    source URLs as the module. *)
Theorem infer_modules_sources (pages : list (string * string)) (ms : list Module_)
    (m : Module_) :
  infer_modules ratio html_blocks pages = Ok ms -> m ∈ ms ->
  source_urls m <> []
  /\ NoDup (source_urls m)
  /\ (forall u, u ∈ source_urls m -> u ∈ map fst pages)
  /\ forall sub, sub ∈ submodules m -> sub_source_urls sub = source_urls m.
Proof.
  intros Hinfer Hm.
  destruct (infer_modules_elem ratio html_blocks pages ms m Hinfer Hm)
    as (srcs & top & rest & Hsecs & Hmod & Hsrc & _).
  assert (Hurls : forall u, u ∈ source_urls m <-> u ∈ aggregated ratio html_blocks pages (name m)).
  { intros u. rewrite <- Hsrc, <- source_list_set, elem_of_list_to_set.
    rewrite Hmod at 1. reflexivity. }
  split; [|split; [|split]].
  - assert (Htop : top ∈ contributing ratio html_blocks pages (name m))
      by (rewrite Hsecs; left).
    apply contributing_candidates in Htop as [Hmap [u Hu]].
    assert (Hin : u ∈ source_urls m).
    { apply Hurls, aggregated_candidates. exists top. split; assumption. }
    intros Hnil. rewrite Hnil in Hin. inversion Hin.
  - rewrite Hmod. simpl. apply dedupe_loop_NoDup.
  - intros u Hu. apply Hurls, aggregated_candidates in Hu
      as (s & _ & html & sections & Hin & _).
    exact (elem_of_map_fst _ _ _ Hin).
  - intros sub Hsub. rewrite Hmod in Hsub |- *. simpl in Hsub |- *.
    apply list_elem_of_In, in_map_iff in Hsub as (child & <- & _). reflexivity.
Qed.

Lemma dedup_first_elem (l : list Section) (x : Section) :
  x ∈ dedup_first l -> x ∈ l.
Proof.
  induction l as [|c l IH]; simpl; [tauto|].
  rewrite !elem_of_cons. intros [-> | Hx]; [tauto|]. right. apply IH.
  apply elem_of_List_filter in Hx. tauto.
Qed.

Lemma dedup_first_NoDup (l : list Section) : NoDup (map title (dedup_first l)).
Proof.
  induction l as [|c l IH]; simpl; [apply NoDup_nil_2|].
  apply NoDup_cons_2; [|apply NoDup_map_filter, IH].
  intros Hin. apply list_elem_of_In, in_map_iff in Hin as (d & Hd & Hin).
  apply filter_In in Hin as [_ Hne]. rewrite Hd, String.eqb_refl in Hne.
  discriminate Hne.
Qed.

(** X16. Within a module that [infer_modules] returns no two submodules
    have the same name; the name of every submodule is a valid module
    title, and its confidence lies between 0.3 and 0.95. *)
Theorem infer_modules_submodule_names (pages : list (string * string))
    (ms : list Module_) (m : Module_) :
  infer_modules ratio html_blocks pages = Ok ms -> m ∈ ms ->
  NoDup (map sub_name (submodules m))
  /\ forall sub, sub ∈ submodules m ->
       is_valid_module_title (sub_name sub) = true
       /\ PrimFloat.leb 0.3 (sub_confidence sub) = true
       /\ PrimFloat.leb (sub_confidence sub) 0.95 = true.
Proof.
  intros Hinfer Hm.
  destruct (infer_modules_elem ratio html_blocks pages ms m Hinfer Hm)
    as (srcs & top & rest & _ & -> & _).
  simpl. split.
  - rewrite map_map. simpl. apply dedup_first_NoDup.
  - intros sub Hsub. apply list_elem_of_In, in_map_iff in Hsub as (child & <- & Hchild).
    simpl. split; [|apply clamp_bounds].
    apply list_elem_of_In, dedup_first_elem in Hchild.
    unfold submodule_candidates in Hchild.
    apply elem_of_List_filter in Hchild as [_ Hel].
    unfold eligible in Hel. apply andb_true_iff in Hel. tauto.
Qed.

(** X17. No module and no submodule that [infer_modules] returns has
    an empty description. *)
Theorem infer_modules_descriptions (pages : list (string * string))
    (ms : list Module_) (m : Module_) :
  infer_modules ratio html_blocks pages = Ok ms -> m ∈ ms ->
  description m <> ""
  /\ forall sub, sub ∈ submodules m -> sub_description sub <> "".
Proof.
  intros Hinfer Hm.
  destruct (infer_modules_elem ratio html_blocks pages ms m Hinfer Hm)
    as (srcs & top & rest & _ & -> & _).
  simpl. split.
  - intros Hd. pose proof (module_description_not_empty top) as Hne.
    rewrite Hd in Hne. discriminate Hne.
  - intros sub Hsub. apply list_elem_of_In, in_map_iff in Hsub as (child & <- & _).
    simpl. intros Hd. pose proof (submodule_description_not_empty child) as Hne.
    rewrite Hd in Hne. discriminate Hne.
Qed.

End ModuleListProperties.

(** ** Which titles are merged *)

Section MergeDirect.

Variable ratio : string -> string -> float.
Variable threshold : float.

Definition similar (a b : string) : Prop :=
  PrimFloat.leb threshold (ratio (normalize_title a) (normalize_title b)) = true.

(** A title stands for itself or for a title it was compared with, and
    what stands for it is not longer than it. *)
Definition direct (m : gmap string string) : Prop :=
  forall t c, m !! t = Some c ->
    (Py.len c <= Py.len t)%Z /\ (c = t \/ similar c t \/ similar t c).

Lemma direct_insert (m : gmap string string) (t c : string) :
  direct m -> (Py.len c <= Py.len t)%Z -> (c = t \/ similar c t \/ similar t c) ->
  direct (<[t := c]> m).
Proof.
  intros Hm Hlen Hsim k v Hkv. destruct (decide (t = k)) as [->|Hne].
  - rewrite lookup_insert_eq in Hkv. injection Hkv as <-. split; assumption.
  - rewrite lookup_insert_ne in Hkv by exact Hne. exact (Hm k v Hkv).
Qed.

Lemma merge_pair_direct (title1 title2 : string) (m : gmap string string) :
  direct m -> direct (merge_pair ratio threshold title1 m title2).
Proof.
  intros Hm. unfold merge_pair.
  destruct (PrimFloat.leb threshold _) eqn:Hsim; [|exact Hm].
  destruct (Z.leb_spec (Py.len title1) (Py.len title2)) as [Hle|Hgt].
  - apply direct_insert; [apply direct_insert|..]; try assumption; try lia; tauto.
  - apply direct_insert; [apply direct_insert|..]; try assumption; try lia; tauto.
Qed.

Lemma merge_loop_direct (ts : list string) :
  forall m, direct m -> direct (merge_loop ratio threshold ts m).
Proof.
  induction ts as [|title1 rest IH]; intros m Hm; simpl; [exact Hm|].
  apply IH. clear IH. revert m Hm.
  induction rest as [|title2 rest IH]; intros m Hm; simpl; [exact Hm|].
  apply IH, merge_pair_direct, Hm.
Qed.

(** X18. Whatever [merge_similar_titles] maps a title to is not longer
    than the title, and is the title itself or a title with which it was
    found similar in a direct comparison (in one order or the other):
    similarity is not chained. *)
Theorem merge_similar_titles_direct (titles : list string) (t c : string) :
  merge_similar_titles ratio titles threshold !! t = Some c ->
  (Py.len c <= Py.len t)%Z
  /\ (c = t \/ similar c t \/ similar t c).
Proof.
  unfold merge_similar_titles. apply merge_loop_direct.
  assert (Hgen : forall m, direct m ->
            direct (fold_left (fun canonical t => <[t := t]> canonical) titles m)).
  { induction titles as [|x ts IH]; intros m Hm; simpl; [exact Hm|].
    apply IH, direct_insert; [exact Hm | lia | tauto]. }
  apply Hgen. intros k v Hkv. rewrite lookup_empty in Hkv. discriminate Hkv.
Qed.

End MergeDirect.

Lemma infer_modules_names_distinct_witness : NoDup (map name [sample_module]).
Proof.
  exact (infer_modules_names_distinct Difflib.ratio sample_blocks sample_pages
           [sample_module] sample_inference).
Defined.

Lemma infer_modules_sorted_witness :
  StronglySorted (fun a b => PrimFloat.leb (confidence b) (confidence a) = true)
                 [sample_module]
  /\ forall m, m ∈ [sample_module] ->
       PrimFloat.leb 0.3 (confidence m) = true /\ PrimFloat.leb (confidence m) 0.95 = true.
Proof.
  exact (infer_modules_sorted Difflib.ratio sample_blocks sample_pages
           [sample_module] sample_inference).
Defined.

Lemma sample_module_inferred : sample_module ∈ [sample_module].
Proof. left. Qed.

Lemma infer_modules_sources_witness :
  source_urls sample_module <> []
  /\ NoDup (source_urls sample_module)
  /\ (forall u, u ∈ source_urls sample_module -> u ∈ map fst sample_pages)
  /\ forall sub, sub ∈ submodules sample_module ->
       sub_source_urls sub = source_urls sample_module.
Proof.
  exact (infer_modules_sources Difflib.ratio sample_blocks sample_pages
           [sample_module] sample_module sample_inference sample_module_inferred).
Defined.

Lemma infer_modules_submodule_names_witness :
  NoDup (map sub_name (submodules sample_module))
  /\ forall sub, sub ∈ submodules sample_module ->
       is_valid_module_title (sub_name sub) = true
       /\ PrimFloat.leb 0.3 (sub_confidence sub) = true
       /\ PrimFloat.leb (sub_confidence sub) 0.95 = true.
Proof.
  exact (infer_modules_submodule_names Difflib.ratio sample_blocks sample_pages
           [sample_module] sample_module sample_inference sample_module_inferred).
Defined.

Lemma infer_modules_descriptions_witness :
  description sample_module <> ""
  /\ forall sub, sub ∈ submodules sample_module -> sub_description sub <> "".
Proof.
  exact (infer_modules_descriptions Difflib.ratio sample_blocks sample_pages
           [sample_module] sample_module sample_inference sample_module_inferred).
Defined.

Lemma merge_similar_titles_direct_witness :
  (Py.len "User Management" <= Py.len "Users Management")%Z
  /\ ("User Management" = "Users Management"
      \/ similar Difflib.ratio 0.8 "User Management" "Users Management"
      \/ similar Difflib.ratio 0.8 "Users Management" "User Management").
Proof.
  apply (merge_similar_titles_direct Difflib.ratio 0.8
           ["Users Management"; "User Management"]).
  vm_compute. reflexivity.
Defined.

(** ** The pipeline *)

Definition has_html (page : Page) : bool := negb (Py.is_empty (html page)).

Lemma alist_update_elem {V : Type} (dflt : V) (f : V -> V) (k k' : string) (v : V)
    (d : list (string * V)) :
  (k', v) ∈ alist_update dflt f k d ->
  (k', v) ∈ d \/ (k' = k /\ exists old, v = f old).
Proof.
  induction d as [|[k0 v0] d IH]; simpl.
  - intros Hin. apply list_elem_of_singleton in Hin. injection Hin as -> ->.
    right. split; [reflexivity|]. exists dflt. reflexivity.
  - destruct (String.eqb_spec k k0) as [->|Hne]; rewrite !elem_of_cons.
    + intros [[= -> ->] | Hin]; [|tauto].
      right. split; [reflexivity|]. exists v0. reflexivity.
    + intros [Heq | Hin]; [tauto|]. destruct (IH Hin); tauto.
Qed.

(** The keys of [html_map] are the URLs of the pages that have a text, in
    the order of their first occurrence; every entry is the text of such
    a page. *)
Lemma html_map_of_spec (pages : list Page) :
  map fst (html_map_of pages)
  = dedupe_preserve_order (map url (List.filter has_html pages))
  /\ forall u h, (u, h) ∈ html_map_of pages ->
       exists page, page ∈ pages /\ url page = u /\ html page = h /\ h <> "".
Proof.
  unfold html_map_of, dedupe_preserve_order.
  assert (Hgen : forall acc,
    let r := fold_left
               (fun html_map page =>
                  if negb (Py.is_empty (html page))
                  then alist_update (html page) (fun _ => html page) (url page) html_map
                  else html_map) pages acc in
    map fst r
    = map fst acc ++ dedupe_loop (list_to_set (map fst acc))
                                 (map url (List.filter has_html pages))
    /\ forall u h, (u, h) ∈ r ->
         (u, h) ∈ acc
         \/ exists page, page ∈ pages /\ url page = u /\ html page = h /\ h <> "").
  { induction pages as [|p pages IH]; intros acc; simpl.
    - rewrite app_nil_r. split; [reflexivity | tauto].
    - unfold has_html at 1. destruct (Py.is_empty (html p)) eqn:He; simpl.
      + destruct (IH acc) as [IH1 IH2]. split; [exact IH1|].
        intros u h Hin. destruct (IH2 u h Hin) as [H | (page & Hp & H)]; [tauto|].
        right. exists page. split; [right; exact Hp | exact H].
      + destruct (IH (alist_update (html p) (fun _ => html p) (url p) acc)) as [IH1 IH2].
        split.
        * rewrite IH1, alist_update_keys.
          destruct (bool_decide (url p ∈ map fst acc)) eqn:Hk.
          -- apply bool_decide_eq_true_1 in Hk.
             rewrite decide_True by (apply elem_of_list_to_set; exact Hk). reflexivity.
          -- apply bool_decide_eq_false_1 in Hk.
             rewrite decide_False by (rewrite elem_of_list_to_set; exact Hk).
             rewrite <- app_assoc. simpl. f_equal. f_equal. f_equal.
             apply set_eq. intros x.
             rewrite elem_of_list_to_set, elem_of_app, list_elem_of_singleton,
               elem_of_union, elem_of_singleton, elem_of_list_to_set. tauto.
        * intros u h Hin. destruct (IH2 u h Hin) as [H | (page & Hp & H)].
          -- apply alist_update_elem in H as [H | [-> [old ->]]]; [tauto|].
             right. exists p. split; [left|]. split; [reflexivity|].
             split; [reflexivity|]. intros Hh. rewrite Hh in He. discriminate He.
          -- right. exists page. split; [right; exact Hp | exact H]. }
  destruct (Hgen []) as [H1 H2]. simpl in H1. split.
  - rewrite H1. f_equal.
  - intros u h Hin. destruct (H2 u h Hin) as [H | H]; [inversion H | exact H].
Qed.

Section CrawlEnds.

Variable Net : Type.
Variable http_get : Net -> string -> Net * option Response.
Variable Disk : Type.
Variable disk_get : Disk -> string -> option Page.
Variable disk_set : Disk -> string -> Page -> Disk.
Variable anchor_hrefs : string -> option (list string).
Variable is_same_domain : string -> string -> bool.
Variable valid_netloc : string -> bool.
Variable max_pages : Z.
Variable max_depth : Z.
Variable allow_cross_domain : bool.

Local Notation run :=
  (crawl Net http_get Disk disk_get disk_set anchor_hrefs is_same_domain
         valid_netloc max_pages max_depth allow_cross_domain).
Local Notation loop :=
  (crawl_loop Net http_get Disk disk_get disk_set anchor_hrefs is_same_domain
              valid_netloc max_pages max_depth allow_cross_domain).

Lemma crawl_terminates (roots : list string) (e : Env Net Disk) :
  exists fuel, is_Some (run fuel roots e).
Proof.
  destruct (crawl_loop_terminates Net http_get Disk disk_get disk_set anchor_hrefs
              is_same_domain valid_netloc max_pages max_depth allow_cross_domain
              (Z.to_nat max_pages) (length (queue (crawl_init roots e)))
              (crawl_init roots e)) as [fuel [r Hr]].
  - simpl. lia.
  - lia.
  - exists fuel. unfold crawl. rewrite Hr. destruct r; eexists; reflexivity.
Qed.

Lemma crawl_without_budget (fuel : nat) (roots : list string) (e : Env Net Disk) :
  (max_pages <= 0)%Z -> run fuel roots e = Some (Ok []).
Proof.
  intros Hneg. unfold crawl.
  assert (Hloop : loop fuel (crawl_init roots e) = Some (Ok (crawl_init roots e))).
  { assert (Hfull : (Z.of_nat (length (pages (crawl_init roots e))) <? max_pages)%Z
                    = false) by (apply Z.ltb_ge; simpl; lia).
    destruct fuel; cbn [crawl_loop];
      (destruct (queue (crawl_init roots e)) as [|[u d] rest];
       [reflexivity | rewrite Hfull; reflexivity]). }
  rewrite Hloop. reflexivity.
Qed.

Lemma crawl_pages (fuel : nat) (roots : list string) (e : Env Net Disk)
    (crawled : list Page) :
  run fuel roots e = Some (Ok crawled) ->
  exists s, loop fuel (crawl_init roots e) = Some (Ok s) /\ crawled = pages s.
Proof.
  unfold crawl. destruct (loop fuel (crawl_init roots e)) as [[s|]|]; try discriminate.
  intros [= <-]. exists s. split; reflexivity.
Qed.

End CrawlEnds.

Section PipelineProperties.

Variable ratio : string -> string -> float.
Variable html_blocks : string -> result (list (string * string)).
Variable Net : Type.
Variable http_get : Net -> string -> Net * option Response.
Variable Disk : Type.
Variable disk_get : Disk -> string -> option Page.
Variable disk_set : Disk -> string -> Page -> Disk.
Variable anchor_hrefs : string -> option (list string).
Variable is_same_domain : string -> string -> bool.
Variable valid_netloc : string -> bool.
Variable open_cache : result Disk.

Local Notation crawler max_pages max_depth :=
  (crawl Net http_get Disk disk_get disk_set anchor_hrefs is_same_domain
         valid_netloc max_pages max_depth false).

(** X19. [run_extraction] returns a result for every input, whatever
    the crawl or the inference raises; and for an empty list of URLs or a
    page budget of zero or less the result has no modules. *)
Theorem run_extraction_returns (urls : list string) (max_pages max_depth : Z)
    (use_cache : bool) (n : Net) :
  (exists fuel,
     is_Some (run_extraction ratio html_blocks Net http_get Disk disk_get disk_set
                anchor_hrefs is_same_domain valid_netloc open_cache
                urls max_pages max_depth use_cache fuel n))
  /\ forall fuel,
       urls = [] \/ (max_pages <= 0)%Z ->
       run_extraction ratio html_blocks Net http_get Disk disk_get disk_set
         anchor_hrefs is_same_domain valid_netloc open_cache
         urls max_pages max_depth use_cache fuel n
       = Some (mkExtractionResult []).
Proof.
  split.
  - unfold run_extraction. destruct urls as [|u urls]; [exists 0; eexists; reflexivity|].
    unfold run_extraction_body.
    destruct (cache_choice Disk open_cache use_cache) as [pc|];
      [|exists 0; eexists; reflexivity].
    destruct (crawl_terminates Net http_get Disk disk_get disk_set anchor_hrefs
                is_same_domain valid_netloc max_pages max_depth false
                (dedupe_preserve_order (u :: urls)) (new_crawler Net Disk pc n))
      as [fuel [r Hr]].
    exists fuel. rewrite Hr. destruct r as [[|p ps]|]; try (eexists; reflexivity).
    destruct (html_map_of (p :: ps)); [eexists; reflexivity|].
    destruct (infer_modules _ _ _); eexists; reflexivity.
  - intros fuel [-> | Hneg]; [reflexivity|].
    unfold run_extraction. destruct urls as [|u urls]; [reflexivity|].
    unfold run_extraction_body.
    destruct (cache_choice Disk open_cache use_cache) as [pc|]; [|reflexivity].
    rewrite crawl_without_budget by exact Hneg. reflexivity.
Qed.

(** X20. Every source URL of every module that [run_extraction] returns
    is the URL of a page with a text that the crawl returned, the crawl
    of a fresh crawler from the deduplicated URLs. *)
Theorem run_extraction_sources (urls : list string) (max_pages max_depth : Z)
    (use_cache : bool) (fuel : nat) (n : Net) (r : ExtractionResult) (m : Module_)
    (u : string) :
  run_extraction ratio html_blocks Net http_get Disk disk_get disk_set
    anchor_hrefs is_same_domain valid_netloc open_cache
    urls max_pages max_depth use_cache fuel n = Some r ->
  m ∈ modules r -> u ∈ source_urls m ->
  exists persistent_cache crawled page,
    cache_choice Disk open_cache use_cache = Ok persistent_cache
    /\ crawl Net http_get Disk disk_get disk_set anchor_hrefs is_same_domain
              valid_netloc max_pages max_depth false fuel
              (dedupe_preserve_order urls)
              (new_crawler Net Disk persistent_cache n) = Some (Ok crawled)
    /\ page ∈ crawled /\ url page = u /\ html page <> "".
Proof.
  unfold run_extraction. destruct urls as [|u0 urls]; [intros [= <-] Hm; inversion Hm|].
  unfold run_extraction_body.
  destruct (cache_choice Disk open_cache use_cache) as [pc|] eqn:Hpc;
    [|intros [= <-] Hm; inversion Hm].
  destruct (crawler max_pages max_depth fuel (dedupe_preserve_order (u0 :: urls))
              (new_crawler Net Disk pc n)) as [[crawled|]|] eqn:Hcrawl;
    [|intros [= <-] Hm; inversion Hm|discriminate].
  destruct crawled as [|p ps] eqn:Hps; [intros [= <-] Hm; inversion Hm|].
  rewrite <- Hps in *. clear Hps p ps.
  destruct (html_map_of crawled) as [|e es] eqn:Hmap; [intros [= <-] Hm; inversion Hm|].
  rewrite <- Hmap. clear e es Hmap.
  destruct (infer_modules ratio html_blocks (html_map_of crawled)) as [ms|] eqn:Hinfer;
    [|intros [= <-] Hm; inversion Hm].
  intros [= <-] Hm Hu. simpl in Hm.
  destruct (infer_modules_elem ratio html_blocks _ ms m Hinfer Hm)
    as (srcs & top & rest & _ & Hmod & Hsrc & _).
  assert (Hagg : u ∈ aggregated ratio html_blocks (html_map_of crawled) (name m)).
  { rewrite <- Hsrc, <- source_list_set, elem_of_list_to_set.
    rewrite Hmod in Hu. exact Hu. }
  apply aggregated_candidates in Hagg as (s & _ & h & sections & Hin & _).
  destruct (proj2 (html_map_of_spec crawled) u h Hin) as (page & Hp & Hurl & Hhtml & Hne).
  exists pc, crawled, page. split; [reflexivity|]. split; [exact Hcrawl|]. split; [exact Hp|].
  split; [exact Hurl | congruence].
Qed.

(** X21. Without the directory on disk every crawled page has a text,
    so the page texts that go into the inference are keyed by the URLs of
    all the crawled pages, in the order of their first occurrence, and
    are none only when no page was crawled. *)
Theorem run_extraction_cold_map (max_pages max_depth : Z) (fuel : nat)
    (roots : list string) (n : Net) (crawled : list Page) :
  crawl Net http_get Disk disk_get disk_set anchor_hrefs is_same_domain
        valid_netloc max_pages max_depth false fuel roots
        (new_crawler Net Disk None n)
  = Some (Ok crawled) ->
  map fst (html_map_of crawled) = dedupe_preserve_order (map url crawled)
  /\ (html_map_of crawled = [] -> crawled = []).
Proof.
  intros Hcrawl.
  destruct (crawl_pages _ _ _ _ _ _ _ _ _ _ _ _ _ _ _ Hcrawl) as (s & Hloop & ->).
  assert (Hall : List.filter has_html (pages s) = pages s).
  { apply forallb_filter_id, forallb_forall. intros page Hp.
    destruct (crawl_loop_cold Net http_get Disk disk_get disk_set anchor_hrefs
                is_same_domain valid_netloc max_pages max_depth false fuel roots
                (new_crawler Net Disk None n) s eq_refl eq_refl Hloop page
                (proj2 (list_elem_of_In _ _) Hp))
      as (n0 & u & resp & _ & (_ & _ & Hlen) & ->).
    unfold has_html, page_of. simpl.
    destruct (resp_text resp); [unfold Py.len in Hlen; simpl in Hlen; lia | reflexivity]. }
  destruct (html_map_of_spec (pages s)) as [Hkeys _]. rewrite Hall in Hkeys.
  split; [exact Hkeys|].
  intros Hnil. rewrite Hnil in Hkeys. simpl in Hkeys.
  destruct (pages s) as [|p ps]; [reflexivity|].
  unfold dedupe_preserve_order in Hkeys. simpl in Hkeys.
  rewrite decide_False in Hkeys by apply not_elem_of_empty. discriminate Hkeys.
Qed.

End PipelineProperties.

Lemma run_extraction_returns_witness :
  is_Some (sample_extraction ["https://example.com/users"] 5 1 10)
  /\ sample_extraction ["https://example.com/users"] 0 1 10
     = Some (mkExtractionResult []).
Proof.
  split; [vm_compute; eexists; reflexivity|].
  apply (proj2 (run_extraction_returns Difflib.ratio sample_blocks unit sample_http_get
                  unit no_disk_get no_disk_set sample_anchor_hrefs same_host
                  balanced_brackets Raise ["https://example.com/users"] 0 1 false tt)).
  right. lia.
Defined.

Lemma run_extraction_sources_witness :
  exists (persistent_cache : option unit) crawled page,
    cache_choice unit Raise false = Ok persistent_cache
    /\ crawl unit sample_http_get unit no_disk_get no_disk_set sample_anchor_hrefs
              same_host balanced_brackets 5 1 false 10
              (dedupe_preserve_order ["https://example.com/users"])
              (new_crawler unit unit persistent_cache tt) = Some (Ok crawled)
    /\ page ∈ crawled /\ url page = "https://example.com/admin" /\ html page <> "".
Proof.
  refine (run_extraction_sources Difflib.ratio sample_blocks unit sample_http_get
            unit no_disk_get no_disk_set sample_anchor_hrefs same_host
            balanced_brackets Raise ["https://example.com/users"] 5 1 false 10 tt
            (mkExtractionResult [sample_module]) sample_module
            "https://example.com/admin" _ _ _).
  - vm_compute. reflexivity.
  - left.
  - right. left.
Defined.

Lemma run_extraction_cold_map_witness :
  map fst (html_map_of sample_crawled)
  = dedupe_preserve_order (map url sample_crawled)
  /\ (html_map_of sample_crawled = [] -> sample_crawled = []).
Proof.
  apply (run_extraction_cold_map unit sample_http_get unit no_disk_get no_disk_set
           sample_anchor_hrefs same_host balanced_brackets 5 1 10
           ["https://example.com/users"] tt).
  vm_compute. reflexivity.
Defined.


(** ** The outline of a page *)

(** An entry of an outline: the level, the title and the text of a
    section. *)
Definition outline_of_obj (o : Obj) : Z * string * string :=
  (o_level o, o_title o, o_text o).

(** The sections of a tree in document order: a section, then its
    children with theirs, first child first. *)
Fixpoint outline_of (s : Section) : list (Z * string * string) :=
  (level s, title s, text s) :: flat_map outline_of (children s).

(** [acc += (" " + t) if acc else t] *)
Definition join_text (acc t : string) : string :=
  if Py.is_empty acc then t else acc +:+ " " +:+ t.

(** The blocks read from the end: the texts that no heading of the
    blocks precedes, and for every heading its level, its text and the
    texts that follow it up to the next heading, joined by blanks. *)
Fixpoint headed (blocks : list (string * string))
    : list string * list (Z * string * string) :=
  match blocks with
  | [] => ([], [])
  | (tag, txt) :: rest =>
      let '(pending, entries) := headed rest in
      match level_map tag with
      | Some lvl => ([], (lvl, txt, fold_left join_text pending "") :: entries)
      | None => (txt :: pending, entries)
      end
  end.

Definition outline (blocks : list (string * string)) : list (Z * string * string) :=
  map (fun t => (1%Z, "Overview", t)) (fst (headed blocks)) ++ snd (headed blocks).

Example outline_example :
  outline [("p", "Intro"); ("li", "More"); ("h2", "A"); ("p", "one"); ("p", "two");
           ("h1", "B"); ("h3", "C"); ("li", "three")]
  = [(1%Z, "Overview", "Intro"); (1%Z, "Overview", "More"); (2%Z, "A", "one two");
     (1%Z, "B", ""); (3%Z, "C", "three")].
Proof. reflexivity. Qed.

(** *** The texts *)

Lemma outline_of_obj_add_child (c p : nat) (h : list Obj) :
  map outline_of_obj (alter (add_child c) p h) = map outline_of_obj h.
Proof.
  revert p. induction h as [|o h IH]; intros p; [reflexivity|].
  destruct p as [|p]; simpl; [reflexivity|]. f_equal. apply IH.
Qed.

Lemma snoc_lookup {A : Type} (l : list A) (p : nat) (x : A) :
  S p = length l -> l !! p = Some x -> l = take p l ++ [x].
Proof.
  revert p. induction l as [|y l IH]; intros p Hlen Hx; [discriminate Hlen|].
  destruct p as [|p]; simpl in *.
  - injection Hx as ->. destruct l; [reflexivity | discriminate Hlen].
  - f_equal. apply IH; [lia | exact Hx].
Qed.

Lemma headed_heading (tag txt : string) (lvl : Z) (rest : list (string * string)) :
  level_map tag = Some lvl ->
  headed ((tag, txt) :: rest)
  = ([], (lvl, txt, fold_left join_text (fst (headed rest)) "") :: snd (headed rest)).
Proof. intros Htag. simpl. destruct (headed rest). rewrite Htag. reflexivity. Qed.

Lemma headed_body (tag txt : string) (rest : list (string * string)) :
  level_map tag = None ->
  headed ((tag, txt) :: rest) = (txt :: fst (headed rest), snd (headed rest)).
Proof. intros Htag. simpl. destruct (headed rest). rewrite Htag. reflexivity. Qed.

(** Under a heading: the texts that follow go to the object on top of
    the stack, the last one allocated. *)
Lemma build_loop_texts_headed (blocks : list (string * string)) :
  forall (h : list Obj) (root : list nat) (p : nat) (rest : list nat) (o : Obj),
  S p = length h -> h !! p = Some o ->
  map outline_of_obj (bs_heap (fold_left build_step blocks (mkBuildState h root (p :: rest))))
  = map outline_of_obj (take p h)
    ++ (o_level o, o_title o, fold_left join_text (fst (headed blocks)) (o_text o))
       :: snd (headed blocks).
Proof.
  induction blocks as [|[tag txt] blocks IH]; intros h root p rest o Hlen Hp.
  - simpl. rewrite (snoc_lookup h p o Hlen Hp) at 1. rewrite map_app. reflexivity.
  - cbn [fold_left]. unfold build_step at 2. cbn [bs_heap bs_stack bs_root].
    destruct (level_map tag) as [lvl|] eqn:Htag.
    + rewrite (headed_heading tag txt lvl blocks Htag). cbn [fst snd fold_left].
      set (new := mkObj lvl txt "" []).
      assert (Hh : map outline_of_obj h
                   = map outline_of_obj (take p h) ++ [outline_of_obj o]).
      { rewrite (snoc_lookup h p o Hlen Hp) at 1. rewrite map_app. reflexivity. }
      destruct (pop_while (h ++ [new]) lvl (p :: rest)) as [|q stack].
      * rewrite (IH (h ++ [new]) _ (length h) [] new).
        -- rewrite take_app_length, Hh, <- app_assoc. reflexivity.
        -- rewrite length_app. simpl. lia.
        -- apply list_lookup_middle. reflexivity.
      * assert (Hnew : exists o', alter (add_child (length h)) q (h ++ [new]) !! length h
                                  = Some o'
                                  /\ outline_of_obj o' = outline_of_obj new).
        { destruct (lookup_alter_level (add_child (length h)) (h ++ [new]) q (length h) new)
            as [o' [Ho' _]]; [reflexivity | apply list_lookup_middle; reflexivity|].
          exists o'. split; [exact Ho'|].
          destruct (lookup_alter_inv _ _ _ _ _ Ho') as [o0 [Ho0 Hcase]].
          rewrite list_lookup_middle in Ho0 by reflexivity. injection Ho0 as <-.
          destruct Hcase as [[_ ->] | [_ ->]]; reflexivity. }
        destruct Hnew as (o' & Ho' & Hentry).
        rewrite (IH _ _ (length h) (q :: stack) o').
        -- injection Hentry as -> -> ->.
           rewrite <- firstn_map, outline_of_obj_add_child, map_app, <- (length_map outline_of_obj h), take_app_length.
           rewrite Hh, <- app_assoc. reflexivity.
        -- rewrite length_alter, length_app. simpl. lia.
        -- exact Ho'.
    + rewrite (headed_body tag txt blocks Htag). cbn [fst snd fold_left].
      rewrite (IH _ _ p rest (add_text txt o)).
      * rewrite take_alter_ge by lia. reflexivity.
      * rewrite length_alter. exact Hlen.
      * rewrite list_lookup_alter_eq, Hp. reflexivity.
Qed.

(** Before the first heading every text is a section of its own. *)
Lemma build_loop_texts (blocks : list (string * string)) :
  forall (h : list Obj) (root : list nat),
  map outline_of_obj (bs_heap (fold_left build_step blocks (mkBuildState h root [])))
  = map outline_of_obj h ++ outline blocks.
Proof.
  induction blocks as [|[tag txt] blocks IH]; intros h root.
  - simpl. rewrite app_nil_r. reflexivity.
  - cbn [fold_left]. unfold build_step at 2. cbn [bs_heap bs_stack bs_root].
    unfold outline. destruct (level_map tag) as [lvl|] eqn:Htag.
    + rewrite (headed_heading tag txt lvl blocks Htag). cbn [fst snd map app pop_while].
      rewrite (build_loop_texts_headed blocks _ _ (length h) [] (mkObj lvl txt "" [])).
      * rewrite take_app_length. reflexivity.
      * rewrite length_app. simpl. lia.
      * apply list_lookup_middle. reflexivity.
    + rewrite (headed_body tag txt blocks Htag). cbn [fst snd map].
      rewrite IH, map_app, <- app_assoc. reflexivity.
Qed.

(** *** The order *)

(** The addresses of the tree below an address, in document order. *)
Fixpoint walk (fuel : nat) (h : list Obj) (a : nat) : option (list nat) :=
  match fuel with
  | O => None
  | S fuel' =>
      match h !! a with
      | None => None
      | Some o =>
          match mapM (walk fuel' h) (o_children o) with
          | None => None
          | Some ls => Some (a :: concat ls)
          end
      end
  end.

Definition walks (fuel : nat) (h : list Obj) (addrs : list nat) : option (list nat) :=
  match mapM (walk fuel h) addrs with
  | None => None
  | Some ls => Some (concat ls)
  end.

Lemma walk_unfold (fuel : nat) (h : list Obj) (a : nat) :
  walk (S fuel) h a
  = match h !! a with
    | None => None
    | Some o =>
        match walks fuel h (o_children o) with
        | None => None
        | Some l => Some (a :: l)
        end
    end.
Proof.
  simpl. unfold walks. destruct (h !! a) as [o|]; [|reflexivity].
  destruct (mapM _ _); reflexivity.
Qed.

Lemma walks_nil (fuel : nat) (h : list Obj) : walks fuel h [] = Some [].
Proof. reflexivity. Qed.

Lemma walks_cons (fuel : nat) (h : list Obj) (a : nat) (addrs : list nat) :
  walks fuel h (a :: addrs)
  = match walk fuel h a, walks fuel h addrs with
    | Some l, Some l' => Some (l ++ l')
    | _, _ => None
    end.
Proof.
  unfold walks. cbn [mapM]. unfold mbind, option_bind, mret, option_ret.
  destruct (walk fuel h a) as [l|]; [|reflexivity].
  destruct (mapM (walk fuel h) addrs) as [ls|]; reflexivity.
Qed.

Lemma walks_app (fuel : nat) (h : list Obj) (l1 l2 : list nat) :
  walks fuel h (l1 ++ l2)
  = match walks fuel h l1, walks fuel h l2 with
    | Some r1, Some r2 => Some (r1 ++ r2)
    | _, _ => None
    end.
Proof.
  induction l1 as [|a l1 IH]; cbn [app].
  - rewrite walks_nil. destruct (walks fuel h l2); reflexivity.
  - rewrite !walks_cons, IH. destruct (walk fuel h a) as [l|]; [|reflexivity].
    destruct (walks fuel h l1) as [r1|]; [|reflexivity].
    destruct (walks fuel h l2) as [r2|]; [|reflexivity].
    rewrite app_assoc. reflexivity.
Qed.

(** More fuel, and a store that has the same children at the addresses
    walked, give the same walk. *)
Lemma walk_stable (h h' : list Obj) :
  forall n m a l,
  walk n h a = Some l -> n <= m ->
  (forall b o, b ∈ l -> h !! b = Some o ->
     exists o', h' !! b = Some o' /\ o_children o' = o_children o) ->
  walk m h' a = Some l.
Proof.
  induction n as [|n IH]; intros m a l Hw Hnm Hsame; [discriminate Hw|].
  destruct m as [|m]; [lia|].
  rewrite walk_unfold in Hw |- *.
  destruct (h !! a) as [o|] eqn:Ho; [|discriminate Hw].
  destruct (walks n h (o_children o)) as [l0|] eqn:Hl0; [|discriminate Hw].
  injection Hw as <-.
  destruct (Hsame a o) as (o' & Ho' & Hch); [left | exact Ho|].
  rewrite Ho', Hch.
  assert (Hrec : walks m h' (o_children o) = Some l0).
  { assert (Hsub : forall b o, b ∈ l0 -> h !! b = Some o ->
              exists o', h' !! b = Some o' /\ o_children o' = o_children o).
    { intros b ob Hb. apply Hsame. right. exact Hb. }
    clear Hsame Ho Ho' Hch. revert l0 Hl0 Hsub.
    induction (o_children o) as [|c cs IHc]; intros l0 Hl0 Hsub.
    - rewrite walks_nil in Hl0 |- *. exact Hl0.
    - rewrite walks_cons in Hl0 |- *.
      destruct (walk n h c) as [lc|] eqn:Hc; [|discriminate Hl0].
      destruct (walks n h cs) as [lcs|] eqn:Hcs; [|discriminate Hl0].
      injection Hl0 as <-.
      rewrite (IH m c lc Hc); [|lia|].
      + rewrite (IHc lcs eq_refl); [reflexivity|].
        intros b ob Hb. apply Hsub. apply elem_of_app. right. exact Hb.
      + intros b ob Hb. apply Hsub. apply elem_of_app. left. exact Hb. }
  rewrite Hrec. reflexivity.
Qed.

Lemma walks_stable (h h' : list Obj) (n m : nat) (addrs l : list nat) :
  walks n h addrs = Some l -> n <= m ->
  (forall b o, b ∈ l -> h !! b = Some o ->
     exists o', h' !! b = Some o' /\ o_children o' = o_children o) ->
  walks m h' addrs = Some l.
Proof.
  revert l. induction addrs as [|a addrs IH]; intros l Hl Hnm Hsame.
  - rewrite walks_nil in Hl |- *. exact Hl.
  - rewrite walks_cons in Hl |- *.
    destruct (walk n h a) as [la|] eqn:Ha; [|discriminate Hl].
    destruct (walks n h addrs) as [ls|] eqn:Hs; [|discriminate Hl].
    injection Hl as <-.
    rewrite (walk_stable h h' n m a la Ha Hnm).
    + rewrite (IH ls eq_refl Hnm); [reflexivity|].
      intros b o Hb. apply Hsame. apply elem_of_app. right. exact Hb.
    + intros b o Hb. apply Hsame. apply elem_of_app. left. exact Hb.
Qed.

(** Every address of a walk is in the store. *)
Lemma walk_valid (h : list Obj) :
  forall n a l, walk n h a = Some l -> forall b, b ∈ l -> b < length h.
Proof.
  induction n as [|n IH]; intros a l Hw b Hb; [discriminate Hw|].
  rewrite walk_unfold in Hw.
  destruct (h !! a) as [o|] eqn:Ho; [|discriminate Hw].
  destruct (walks n h (o_children o)) as [l0|] eqn:Hl0; [|discriminate Hw].
  injection Hw as <-. apply elem_of_cons in Hb as [-> | Hb].
  - eapply lookup_lt_Some. exact Ho.
  - clear Ho. revert l0 Hl0 Hb. induction (o_children o) as [|c cs IHc]; intros l0 Hl0 Hb.
    + rewrite walks_nil in Hl0. injection Hl0 as <-. inversion Hb.
    + rewrite walks_cons in Hl0.
      destruct (walk n h c) as [lc|] eqn:Hc; [|discriminate Hl0].
      destruct (walks n h cs) as [lcs|] eqn:Hcs; [|discriminate Hl0].
      injection Hl0 as <-. apply elem_of_app in Hb as [Hb | Hb].
      * exact (IH c lc Hc b Hb).
      * exact (IHc lcs eq_refl Hb).
Qed.

Lemma walks_valid (h : list Obj) (n : nat) (addrs l : list nat) :
  walks n h addrs = Some l -> forall b, b ∈ l -> b < length h.
Proof.
  revert l. induction addrs as [|a addrs IH]; intros l Hl b Hb.
  - rewrite walks_nil in Hl. injection Hl as <-. inversion Hb.
  - rewrite walks_cons in Hl.
    destruct (walk n h a) as [la|] eqn:Ha; [|discriminate Hl].
    destruct (walks n h addrs) as [ls|] eqn:Hs; [|discriminate Hl].
    injection Hl as <-. apply elem_of_app in Hb as [Hb | Hb].
    + exact (walk_valid h n a la Ha b Hb).
    + exact (IH ls eq_refl b Hb).
Qed.

(** The stack read from the bottom is a path that goes from the last
    root to a last child, to a last child of that, and so on. *)
Fixpoint rightmost (h : list Obj) (siblings path : list nat) : Prop :=
  match path with
  | [] => True
  | a :: path' =>
      last siblings = Some a
      /\ exists o, h !! a = Some o /\ rightmost h (o_children o) path'
  end.

Lemma rightmost_app (h : list Obj) (path1 path2 : list nat) :
  forall siblings, rightmost h siblings (path1 ++ path2) -> rightmost h siblings path1.
Proof.
  induction path1 as [|a path1 IH]; intros siblings; simpl; [tauto|].
  intros (Hlast & o & Ho & Hrest). split; [exact Hlast|].
  exists o. split; [exact Ho | exact (IH _ Hrest)].
Qed.

Lemma last_Some_snoc {A : Type} (l : list A) (x : A) :
  last l = Some x -> exists l', l = l' ++ [x].
Proof.
  intros Hl. destruct l as [|y l _] using rev_ind; [discriminate Hl|].
  rewrite last_snoc in Hl. injection Hl as ->. exists l. reflexivity.
Qed.

Lemma rightmost_same (h h' : list Obj) :
  (forall b o, h !! b = Some o ->
     exists o', h' !! b = Some o' /\ o_children o' = o_children o) ->
  forall path siblings, rightmost h siblings path -> rightmost h' siblings path.
Proof.
  intros Hsame. induction path as [|a path IH]; intros siblings; simpl; [tauto|].
  intros (Hlast & o & Ho & Hrest). split; [exact Hlast|].
  destruct (Hsame a o Ho) as (o' & Ho' & Hch). exists o'. split; [exact Ho'|].
  rewrite Hch. exact (IH _ Hrest).
Qed.

Lemma pop_while_suffix (h : list Obj) (lvl : Z) (stack : list nat) :
  exists popped, stack = popped ++ pop_while h lvl stack.
Proof.
  induction stack as [|a stack [popped IH]]; simpl.
  - exists []. reflexivity.
  - destruct (lvl <=? level_at h a)%Z.
    + exists (a :: popped). simpl. f_equal. exact IH.
    + exists []. reflexivity.
Qed.

(** A store with one more object at the end, and a child added to an
    object of the old store. *)
Section Hang.

Variable h : list Obj.
Variable leaf : Obj.
Variable p : nat.
Hypothesis leaf_childless : o_children leaf = [].
Hypothesis p_valid : p < length h.

Let c : nat := length h.
Let h' : list Obj := alter (add_child c) p (h ++ [leaf]).

Lemma hang_other (b : nat) (o : Obj) :
  b <> p -> h !! b = Some o -> h' !! b = Some o.
Proof.
  intros Hne Hb. unfold h'. rewrite list_lookup_alter_ne by congruence.
  apply lookup_app_l_Some. exact Hb.
Qed.

Lemma hang_parent (o : Obj) :
  h !! p = Some o -> h' !! p = Some (add_child c o).
Proof.
  intros Hp. unfold h'. rewrite list_lookup_alter_eq.
  rewrite (lookup_app_l_Some _ _ _ _ Hp). reflexivity.
Qed.

Lemma hang_leaf : h' !! c = Some leaf.
Proof.
  unfold h', c. rewrite list_lookup_alter_ne by lia.
  apply list_lookup_middle. reflexivity.
Qed.

Lemma hang_walk_leaf (n : nat) : walk (S n) h' c = Some [c].
Proof.
  rewrite walk_unfold, hang_leaf, leaf_childless, walks_nil. reflexivity.
Qed.

Lemma hang_stable (n m : nat) (addrs l : list nat) :
  walks n h addrs = Some l -> n <= m -> p ∉ l -> walks m h' addrs = Some l.
Proof.
  intros Hl Hnm Hp. apply (walks_stable h h' n m addrs l Hl Hnm).
  intros b o Hb Ho. exists o. split; [|reflexivity].
  apply hang_other; [|exact Ho]. intros ->. exact (Hp Hb).
Qed.

(** Hanging a fresh leaf under the end of the path puts it at the end of
    the walk and at the end of the path. *)
Lemma walks_hang (path : list nat) :
  forall siblings n l,
  rightmost h siblings path -> last path = Some p ->
  walks n h siblings = Some l -> NoDup l ->
  walks (S n) h' siblings = Some (l ++ [c])
  /\ rightmost h' siblings (path ++ [c])
  /\ p ∈ l.
Proof.
  induction path as [|a path IH]; intros siblings n l Hpath Hlast Hl Hnd;
    [discriminate Hlast|].
  destruct Hpath as (Hsib & o & Ho & Hrest).
  destruct (last_Some_snoc siblings a Hsib) as [init ->].
  rewrite walks_app in Hl.
  destruct (walks n h init) as [l1|] eqn:Hl1; [|discriminate Hl].
  rewrite walks_cons, walks_nil in Hl.
  destruct (walk n h a) as [l2|] eqn:Hl2; [|discriminate Hl].
  injection Hl as <-. rewrite app_nil_r in Hnd |- *.
  destruct n as [|n]; [discriminate Hl2|].
  rewrite walk_unfold, Ho in Hl2.
  destruct (walks n h (o_children o)) as [l3|] eqn:Hl3; [|discriminate Hl2].
  injection Hl2 as <-.
  apply NoDup_app in Hnd as (Hnd1 & Hdisj & Hnd2).
  apply NoDup_cons in Hnd2 as [Ha Hnd3].
  destruct path as [|a2 path].
  - injection Hlast as ->.
    assert (Hinit : walks (S (S n)) h' init = Some l1).
    { apply (hang_stable (S n)); [exact Hl1 | lia|].
      intros Hp. apply (Hdisj p Hp). left. }
    assert (Hkids : walks (S n) h' (o_children o ++ [c]) = Some (l3 ++ [c])).
    { rewrite walks_app, (hang_stable n (S n) _ l3 Hl3) by (lia || exact Ha).
      rewrite walks_cons, walks_nil, hang_walk_leaf. reflexivity. }
    split; [|split].
    + rewrite walks_app, Hinit, walks_cons, walks_nil, walk_unfold.
      rewrite (hang_parent o Ho). cbn [add_child o_children]. rewrite Hkids.
      rewrite app_nil_r, <- app_assoc. reflexivity.
    + simpl. split; [exact Hsib|]. exists (add_child c o).
      split; [exact (hang_parent o Ho)|]. cbn [add_child o_children].
      split; [apply last_snoc|]. exists leaf. split; [exact hang_leaf | exact I].
    + apply elem_of_app. right. left.
  - destruct (IH (o_children o) n l3 Hrest Hlast Hl3 Hnd3) as (Hkids & Hpath' & Hp).
    assert (Hne : a <> p) by (intros ->; exact (Ha Hp)).
    assert (Hinit : walks (S (S n)) h' init = Some l1).
    { apply (hang_stable (S n)); [exact Hl1 | lia|].
      intros Hp1. apply (Hdisj p Hp1). right. exact Hp. }
    split; [|split].
    + rewrite walks_app, Hinit, walks_cons, walks_nil, walk_unfold.
      rewrite (hang_other a o Hne Ho), Hkids.
      rewrite app_nil_r, <- app_assoc. reflexivity.
    + cbn [app rightmost]. split; [exact Hsib|]. exists o.
      split; [exact (hang_other a o Hne Ho) | exact Hpath'].
    + apply elem_of_app. right. right. exact Hp.
Qed.

End Hang.

(** The objects are allocated in document order, and the stack is the
    rightmost path of the forest. *)
Definition in_document_order (st : BuildState) : Prop :=
  state_ok st
  /\ walks (length (bs_heap st)) (bs_heap st) (bs_root st)
     = Some (seq 0 (length (bs_heap st)))
  /\ rightmost (bs_heap st) (bs_root st) (rev (bs_stack st)).

Lemma walks_new_root (h : list Obj) (root : list nat) (o : Obj) :
  o_children o = [] ->
  walks (length h) h root = Some (seq 0 (length h)) ->
  walks (length (h ++ [o])) (h ++ [o]) (root ++ [length h])
  = Some (seq 0 (length (h ++ [o]))).
Proof.
  intros Ho Hw. rewrite length_app. simpl. rewrite Nat.add_1_r.
  rewrite walks_app, (walks_stable h (h ++ [o]) _ (S (length h)) _ _ Hw).
  - rewrite walks_cons, walks_nil, walk_unfold.
    rewrite list_lookup_middle by reflexivity. rewrite Ho, walks_nil.
    rewrite seq_S. reflexivity.
  - lia.
  - intros b ob _ Hb. exists ob. split; [|reflexivity].
    apply lookup_app_l_Some. exact Hb.
Qed.

Lemma build_step_order (st : BuildState) (block : string * string) :
  in_document_order st -> in_document_order (build_step st block).
Proof.
  intros (Hok & Hwalk & Hpath).
  split; [exact (build_step_ok st block Hok)|].
  destruct Hok as (Hheap & Hroot & Hstack).
  destruct block as [tag txt]. unfold build_step.
  destruct (level_map tag) as [lvl|].
  - set (new := mkObj lvl txt "" []).
    destruct (pop_while_suffix (bs_heap st ++ [new]) lvl (bs_stack st)) as [popped Hpop].
    destruct (pop_while (bs_heap st ++ [new]) lvl (bs_stack st)) as [|p rest].
    + cbn [bs_heap bs_root bs_stack]. split.
      * apply walks_new_root; [reflexivity | exact Hwalk].
      * simpl. split; [apply last_snoc|]. exists new.
        split; [apply list_lookup_middle; reflexivity | exact I].
    + cbn [bs_heap bs_root bs_stack].
      assert (Hp : p < length (bs_heap st)).
      { apply Hstack. rewrite Hpop. apply elem_of_app. right. left. }
      assert (Hprefix : rightmost (bs_heap st) (bs_root st) (rev (p :: rest))).
      { rewrite Hpop, rev_app_distr in Hpath. exact (rightmost_app _ _ _ _ Hpath). }
      destruct (walks_hang (bs_heap st) new p eq_refl Hp (rev (p :: rest))
                  (bs_root st) (length (bs_heap st)) (seq 0 (length (bs_heap st)))
                  Hprefix)
        as (Hwalk' & Hpath' & _).
      * simpl. apply last_snoc.
      * exact Hwalk.
      * apply NoDup_seq.
      * split.
        -- rewrite length_alter, length_app. simpl. rewrite Nat.add_1_r, seq_S.
           exact Hwalk'.
        -- exact Hpath'.
  - destruct (bs_stack st) as [|p rest] eqn:Hst; cbn [bs_heap bs_root bs_stack].
    + split; [apply walks_new_root; [reflexivity | exact Hwalk] | exact I].
    + assert (Hsame : forall b o, bs_heap st !! b = Some o ->
                exists o', alter (add_text txt) p (bs_heap st) !! b = Some o'
                           /\ o_children o' = o_children o).
      { intros b o Hb. destruct (decide (p = b)) as [->|Hne].
        - exists (add_text txt o). rewrite list_lookup_alter_eq, Hb. split; reflexivity.
        - exists o. rewrite list_lookup_alter_ne by exact Hne. split; [exact Hb | reflexivity]. }
      split.
      * rewrite length_alter.
        apply (walks_stable _ _ _ _ _ _ Hwalk); [lia|].
        intros b o _ Hb. exact (Hsame b o Hb).
      * exact (rightmost_same _ _ Hsame _ _ Hpath).
Qed.

Lemma build_loop_order (blocks : list (string * string)) (st : BuildState) :
  in_document_order st -> in_document_order (fold_left build_step blocks st).
Proof.
  revert st. induction blocks as [|b blocks IH]; intros st Hst; simpl; [exact Hst|].
  apply IH, build_step_order, Hst.
Qed.

(** *** Reading along the walk *)

Definition outline_at (h : list Obj) (a : nat) : Z * string * string :=
  match h !! a with
  | Some o => outline_of_obj o
  | None => (0%Z, "", "")
  end.

Lemma outline_at_all (h : list Obj) :
  map (outline_at h) (seq 0 (length h)) = map outline_of_obj h.
Proof.
  induction h as [|o h IH] using rev_ind; [reflexivity|].
  rewrite length_app. simpl. rewrite Nat.add_1_r, seq_S, !map_app. simpl.
  unfold outline_at at 2. rewrite list_lookup_middle by reflexivity.
  f_equal. rewrite <- IH. apply map_ext_in. intros a Ha.
  apply in_seq in Ha. unfold outline_at. rewrite lookup_app_l by lia. reflexivity.
Qed.

Lemma read_walk (h : list Obj) :
  forall n a s l,
  read_section n h a = Some s -> walk n h a = Some l ->
  outline_of s = map (outline_at h) l.
Proof.
  induction n as [|n IH]; intros a s l Hs Hl; [discriminate Hs|].
  simpl in Hs, Hl.
  destruct (h !! a) as [o|] eqn:Ho; [|discriminate Hs].
  destruct (mapM (read_section n h) (o_children o)) as [cs|] eqn:Hcs; [|discriminate Hs].
  destruct (mapM (walk n h) (o_children o)) as [ls|] eqn:Hls; [|discriminate Hl].
  injection Hs as <-. injection Hl as <-. cbn [outline_of level title text children map].
  unfold outline_at at 1. rewrite Ho. f_equal.
  apply mapM_Some_1 in Hcs, Hls. clear Ho.
  revert ls Hls. induction Hcs as [|c s cs' ss Hc _ IHc]; intros ls Hls.
  - inversion Hls. reflexivity.
  - inversion Hls as [|c' l' cs'' ls' Hl' Hls']; subst. simpl.
    rewrite map_app, (IH c s l' Hc Hl'), (IHc ls' Hls'). reflexivity.
Qed.

Lemma read_walks (h : list Obj) (n : nat) (addrs : list nat) (forest : list Section)
    (l : list nat) :
  mapM (read_section n h) addrs = Some forest -> walks n h addrs = Some l ->
  flat_map outline_of forest = map (outline_at h) l.
Proof.
  unfold walks. intros Hf Hl.
  destruct (mapM (walk n h) addrs) as [ls|] eqn:Hls; [|discriminate Hl].
  injection Hl as <-. apply mapM_Some_1 in Hf, Hls.
  revert ls Hls. induction Hf as [|c s cs' ss Hc _ IHc]; intros ls Hls.
  - inversion Hls. reflexivity.
  - inversion Hls as [|c' l' cs'' ls' Hl' Hls']; subst. simpl.
    rewrite map_app, (read_walk h n c s l' Hc Hl'), (IHc ls' Hls'). reflexivity.
Qed.

(** X22. [build_sections] keeps the document order and loses no text:
    the sections of the forest it returns, each followed by its children
    and theirs, are the heading blocks in the order of the blocks, each
    with its level, its text as the title, and as its text the texts of
    the blocks up to the next heading, joined the way the loop joins
    them (a blank between the text so far and the next one, unless the
    text so far is empty); before them come the texts that no heading
    precedes, one ["Overview"] section of level 1 each. *)
Theorem build_sections_document_order (blocks : list (string * string)) :
  exists forest,
    build_sections blocks = Some forest
    /\ flat_map outline_of forest = outline blocks.
Proof.
  unfold build_sections, build_loop.
  assert (Hinv : in_document_order (fold_left build_step blocks (mkBuildState [] [] []))).
  { apply build_loop_order. split; [|split; [reflexivity | exact I]].
    split; [|split]; simpl.
    - intros a o c Ha. rewrite lookup_nil in Ha. discriminate Ha.
    - intros a Ha. inversion Ha.
    - intros a Ha. inversion Ha. }
  pose proof (build_loop_texts blocks [] []) as Htexts. simpl in Htexts.
  set (st := fold_left build_step blocks (mkBuildState [] [] [])) in *.
  destruct Hinv as ((Hheap & Hroot & _) & Hwalk & _).
  destruct (mapM_is_Some (read_section (length (bs_heap st)) (bs_heap st)) (bs_root st))
    as [forest Hforest].
  - intros a Ha. apply read_section_total; [exact Hheap | apply Hroot; exact Ha | lia].
  - exists forest. split; [exact Hforest|].
    rewrite (read_walks _ _ _ _ _ Hforest Hwalk), outline_at_all. exact Htexts.
Qed.

(** ** How the sections nest *)

(** A later sibling is never deeper than an earlier one. *)
Definition not_deeper (h : list Obj) (a b : nat) : Prop :=
  (level_at h b <= level_at h a)%Z.

Definition is_overview (o : Obj) : Prop :=
  o_level o = 1%Z /\ o_title o = "Overview" /\ o_children o = [].

(** The roots are [k] sections for texts without a heading, at the
    addresses below [k], and then sections of headings of which none is
    deeper than an earlier one; the stack is above [k], its levels go up
    strictly, and its top has no children yet. *)
Definition nested (k : nat) (st : BuildState) : Prop :=
  let h := bs_heap st in
  (forall a o, h !! a = Some o -> StronglySorted (not_deeper h) (o_children o))
  /\ take k (bs_root st) = seq 0 k
  /\ (forall a, a < k -> exists o, h !! a = Some o /\ is_overview o)
  /\ StronglySorted (not_deeper h) (skipn k (bs_root st))
  /\ (forall a, a ∈ bs_stack st -> k <= a)
  /\ (bs_stack st = [] -> skipn k (bs_root st) = [] /\ length h = k)
  /\ (forall t rest, bs_stack st = t :: rest ->
        exists o, h !! t = Some o /\ o_children o = []).

Lemma pop_while_popped (h : list Obj) (lvl : Z) (stack : list nat) :
  exists popped,
    stack = popped ++ pop_while h lvl stack
    /\ forall q, q ∈ popped -> (lvl <= level_at h q)%Z.
Proof.
  induction stack as [|a stack (popped & IH & Hlvl)]; simpl.
  - exists []. split; [reflexivity|]. intros q Hq. inversion Hq.
  - destruct (Z.leb_spec lvl (level_at h a)) as [Hle|Hgt].
    + exists (a :: popped). split; [simpl; f_equal; exact IH|].
      intros q Hq. apply elem_of_cons in Hq as [-> | Hq]; [exact Hle | exact (Hlvl q Hq)].
    + exists []. split; [reflexivity|]. intros q Hq. inversion Hq.
Qed.

Lemma rightmost_step (h : list Obj) (p q : nat) (path2 : list nat) :
  forall path1 siblings,
  rightmost h siblings (path1 ++ p :: q :: path2) ->
  exists o, h !! p = Some o /\ last (o_children o) = Some q.
Proof.
  induction path1 as [|a path1 IH]; intros siblings; simpl.
  - intros (_ & o & Ho & Hq & _). exists o. split; assumption.
  - intros (_ & o & _ & Hrest). exact (IH _ Hrest).
Qed.

Lemma rightmost_bottom (h : list Obj) (siblings path : list nat) (b : nat) :
  rightmost h siblings (b :: path) -> last siblings = Some b.
Proof. simpl. tauto. Qed.

Lemma level_at_alter (f : Obj -> Obj) (h : list Obj) (p a : nat) :
  (forall o, o_level (f o) = o_level o) ->
  level_at (alter f p h) a = level_at h a.
Proof.
  intros Hf. unfold level_at. destruct (decide (p = a)) as [->|Hne].
  - rewrite list_lookup_alter_eq. destruct (h !! a) as [o|]; simpl; [apply Hf | reflexivity].
  - rewrite list_lookup_alter_ne by exact Hne. reflexivity.
Qed.

Lemma level_at_app (h ext : list Obj) (a : nat) :
  a < length h -> level_at (h ++ ext) a = level_at h a.
Proof. intros Ha. unfold level_at. rewrite lookup_app_l by exact Ha. reflexivity. Qed.

Lemma sorted_same_levels (h h' : list Obj) (l : list nat) :
  (forall a, a ∈ l -> level_at h' a = level_at h a) ->
  StronglySorted (not_deeper h) l -> StronglySorted (not_deeper h') l.
Proof.
  intros Hsame Hs. induction Hs as [|a l Hl IH Ha]; [constructor|].
  constructor.
  - apply IH. intros b Hb. apply Hsame. right. exact Hb.
  - rewrite Forall_forall in Ha |- *. intros b Hb. unfold not_deeper.
    rewrite (Hsame a) by left. rewrite (Hsame b) by (right; exact Hb).
    exact (Ha b Hb).
Qed.

Lemma sorted_snoc (h : list Obj) (l : list nat) (c : nat) :
  StronglySorted (not_deeper h) l ->
  (forall q, last l = Some q -> (level_at h c <= level_at h q)%Z) ->
  StronglySorted (not_deeper h) (l ++ [c]).
Proof.
  intros Hs Hlast. apply StronglySorted_app. split; [|split; [exact Hs|]].
  - intros x y Hx Hy. apply list_elem_of_singleton in Hy. subst y.
    destruct l as [|z l _] using rev_ind; [inversion Hx|].
    specialize (Hlast z (last_snoc _ _)).
    apply elem_of_app in Hx as [Hx | Hx].
    + apply StronglySorted_app in Hs as (Hxz & _ & _).
      specialize (Hxz x z Hx). unfold not_deeper in *.
      assert (Hz : z ∈ [z]) by left. specialize (Hxz Hz). lia.
    + apply list_elem_of_singleton in Hx. subst x. exact Hlast.
  - repeat constructor.
Qed.

Lemma last_skipn {A : Type} (k : nat) (l : list A) (x : A) :
  last (skipn k l) = Some x -> last l = Some x.
Proof.
  intros Hx. rewrite <- (firstn_skipn k l), last_app, Hx. reflexivity.
Qed.

Lemma nested_bound (k : nat) (st : BuildState) : nested k st -> k <= length (bs_heap st).
Proof.
  intros (_ & _ & Hov & _). destruct (decide (k <= length (bs_heap st))) as [H|H]; [exact H|].
  destruct (Hov (length (bs_heap st))) as (o & Ho & _); [lia|].
  apply lookup_lt_Some in Ho. lia.
Qed.

Lemma build_step_nested (k : nat) (st : BuildState) (block : string * string) :
  in_document_order st -> nested k st ->
  exists k', nested k' (build_step st block).
Proof.
  intros ((Hheap & Hroot & Hstack) & _ & Hpath) Hnested.
  pose proof (nested_bound k st Hnested) as Hk.
  destruct Hnested as (Hkids & Htake & Hov & Hsorted & Habove & Hempty & Htop).
  assert (Hklen : k <= length (bs_root st)).
  { pose proof (f_equal length Htake) as Hl. rewrite length_firstn, length_seq in Hl. lia. }
  assert (Hchildren : forall a o c, bs_heap st !! a = Some o -> c ∈ o_children o ->
                                    c < length (bs_heap st)).
  { intros a o c Ho Hc. destruct (Hheap a o c Ho Hc) as (_ & oc & Hoc & _).
    eapply lookup_lt_Some. exact Hoc. }
  assert (Hroots : forall r, r ∈ skipn k (bs_root st) -> r < length (bs_heap st)).
  { intros r Hr. apply Hroot. apply list_elem_of_In. apply list_elem_of_In in Hr.
    rewrite <- (firstn_skipn k (bs_root st)). apply in_or_app. right. exact Hr. }
  destruct block as [tag txt]. unfold build_step.
  destruct (level_map tag) as [lvl|].
  - set (new := mkObj lvl txt "" []). set (h1 := bs_heap st ++ [new]).
    assert (Hlev1 : forall a, a < length (bs_heap st) -> level_at h1 a = level_at (bs_heap st) a)
      by (intros a Ha; apply level_at_app; exact Ha).
    assert (Hnew : h1 !! length (bs_heap st) = Some new)
      by (apply list_lookup_middle; reflexivity).
    assert (Hlevnew : level_at h1 (length (bs_heap st)) = lvl)
      by (unfold level_at; rewrite Hnew; reflexivity).
    assert (Hkids1 : forall a o, h1 !! a = Some o -> StronglySorted (not_deeper h1) (o_children o)).
    { intros a o Ho. apply lookup_app_Some in Ho as [Ho | [_ Ho]].
      - apply (sorted_same_levels (bs_heap st)); [|exact (Hkids a o Ho)].
        intros c Hc. apply Hlev1. exact (Hchildren a o c Ho Hc).
      - destruct (a - length (bs_heap st)) as [|i]; simpl in Ho; [|discriminate Ho].
        injection Ho as <-. constructor. }
    assert (Hov1 : forall a, a < k -> exists o, h1 !! a = Some o /\ is_overview o).
    { intros a Ha. destruct (Hov a Ha) as (o & Ho & Hoo). exists o.
      split; [apply lookup_app_l_Some; exact Ho | exact Hoo]. }
    assert (Hsorted1 : StronglySorted (not_deeper h1) (skipn k (bs_root st))).
    { apply (sorted_same_levels (bs_heap st)); [|exact Hsorted].
      intros r Hr. apply Hlev1, Hroots, Hr. }
    destruct (pop_while_popped h1 lvl (bs_stack st)) as (popped & Hpop & Hpopped).
    destruct (pop_while h1 lvl (bs_stack st)) as [|p rest].
    + exists k. rewrite app_nil_r in Hpop. unfold nested. cbv zeta.
      cbn [bs_heap bs_root bs_stack]. fold h1.
      split; [exact Hkids1|]. split; [rewrite take_app_le by exact Hklen; exact Htake|].
      split; [exact Hov1|]. split; [|split; [|split; [discriminate|]]].
      * rewrite drop_app_le by exact Hklen. apply sorted_snoc; [exact Hsorted1|].
        intros q Hq. rewrite Hlevnew.
        destruct popped as [|b popped _] using rev_ind.
        { destruct (Hempty Hpop) as [Hnil _]. rewrite Hnil in Hq. discriminate Hq. }
        apply last_skipn in Hq.
        rewrite Hpop, rev_app_distr in Hpath. simpl in Hpath.
        destruct Hpath as (Hb & _). rewrite Hq in Hb. injection Hb as ->.
        apply Hpopped. apply elem_of_app. right. left.
      * intros a Ha. apply list_elem_of_singleton in Ha. subst a. exact Hk.
      * intros t rest [= <- <-]. exists new. split; [exact Hnew | reflexivity].
    + exists k. unfold nested. cbv zeta. cbn [bs_heap bs_root bs_stack]. fold new. fold h1.
      set (h' := alter (add_child (length (bs_heap st))) p h1).
      assert (Hp : p ∈ bs_stack st) by (rewrite Hpop; apply elem_of_app; right; left).
      assert (Hpn : p < length (bs_heap st)) by (apply Hstack, Hp).
      assert (Hlev' : forall a, level_at h' a = level_at h1 a)
        by (intros a; apply level_at_alter; reflexivity).
      assert (Hsame : forall l, StronglySorted (not_deeper h1) l ->
                                StronglySorted (not_deeper h') l).
      { intros l. apply sorted_same_levels. intros a _. apply Hlev'. }
      split; [|split; [exact Htake|]]; [|split; [|split; [|split; [|split; [discriminate|]]]]].
      * intros a o' Ho'.
        destruct (lookup_alter_inv _ _ _ _ _ Ho') as [o [Ho [[Hne ->] | [-> ->]]]].
        -- apply Hsame. exact (Hkids1 a o Ho).
        -- cbn [add_child o_children]. apply sorted_snoc; [apply Hsame, (Hkids1 p o Ho)|].
           intros q Hq. rewrite !Hlev', Hlevnew.
           unfold h1 in Ho. rewrite lookup_app_l in Ho by exact Hpn.
           destruct popped as [|q0 popped _] using rev_ind.
           { simpl in Hpop. destruct (Htop p rest Hpop) as (o0 & Ho0 & Hnone).
             rewrite Ho in Ho0. injection Ho0 as <-. rewrite Hnone in Hq.
             discriminate Hq. }
           rewrite Hpop, <- app_assoc, rev_app_distr in Hpath. simpl in Hpath.
           rewrite <- !app_assoc in Hpath. simpl in Hpath.
           destruct (rightmost_step _ _ _ _ _ _ Hpath) as (o0 & Ho0 & Hlast).
           rewrite Ho in Ho0. injection Ho0 as <-. rewrite Hq in Hlast.
           injection Hlast as ->. apply Hpopped. apply elem_of_app. right. left.
      * intros a Ha. destruct (Hov1 a Ha) as (o & Ho & Hoo). exists o. split; [|exact Hoo].
        unfold h'. rewrite list_lookup_alter_ne; [exact Ho|].
        specialize (Habove p Hp). lia.
      * apply Hsame. exact Hsorted1.
      * intros a Ha. apply elem_of_cons in Ha as [-> | Ha]; [exact Hk|].
        apply Habove. rewrite Hpop. apply elem_of_app. right. exact Ha.
      * intros t rest' [= <- <-]. exists new. split; [|reflexivity].
        unfold h'. rewrite list_lookup_alter_ne by lia. exact Hnew.
  - destruct (bs_stack st) as [|p rest] eqn:Hst; cbn [bs_heap bs_root bs_stack].
    + destruct (Hempty eq_refl) as [Hnil Hlen].
      assert (Hrootk : bs_root st = seq 0 k).
      { rewrite <- (firstn_skipn k (bs_root st)), Hnil, app_nil_r. exact Htake. }
      exists (S k). unfold nested. cbv zeta. cbn [bs_heap bs_root bs_stack].
      rewrite Hrootk, Hlen.
      assert (Hfull : seq 0 k ++ [k] = seq 0 (S k)) by (rewrite seq_S; reflexivity).
      split; [|split; [|split; [|split; [|split; [|split]]]]].
      * intros a o Ho. apply lookup_app_Some in Ho as [Ho | [_ Ho]].
        -- apply (sorted_same_levels (bs_heap st)); [|exact (Hkids a o Ho)].
           intros c Hc. apply level_at_app. exact (Hchildren a o c Ho Hc).
        -- destruct (a - length (bs_heap st)) as [|i]; simpl in Ho; [|discriminate Ho].
           injection Ho as <-. constructor.
      * rewrite Hfull. apply firstn_all2. rewrite length_seq. lia.
      * intros a Ha. destruct (decide (a < k)) as [Hlt|Hge].
        -- destruct (Hov a Hlt) as (o & Ho & Hoo). exists o.
           split; [apply lookup_app_l_Some; exact Ho | exact Hoo].
        -- assert (a = k) by lia. subst a. eexists.
           split; [apply list_lookup_middle; symmetry; exact Hlen|].
           repeat split.
      * rewrite Hfull, skipn_all2 by (rewrite length_seq; lia). constructor.
      * intros a Ha. inversion Ha.
      * intros _. rewrite Hfull, skipn_all2 by (rewrite length_seq; lia).
        split; [reflexivity|]. rewrite length_app. simpl. lia.
      * discriminate.
    + exists k. unfold nested. cbv zeta. cbn [bs_heap bs_root bs_stack].
      assert (Hlev' : forall a, level_at (alter (add_text txt) p (bs_heap st)) a
                                = level_at (bs_heap st) a)
        by (intros a; apply level_at_alter; reflexivity).
      assert (Hsame : forall l, StronglySorted (not_deeper (bs_heap st)) l ->
                StronglySorted (not_deeper (alter (add_text txt) p (bs_heap st))) l).
      { intros l. apply sorted_same_levels. intros a _. apply Hlev'. }
      split; [|split; [exact Htake|]]; [|split; [|split; [|split; [|split; [discriminate|]]]]].
      * intros a o' Ho'.
        destruct (lookup_alter_inv _ _ _ _ _ Ho') as [o [Ho [[Hne ->] | [-> ->]]]];
          apply Hsame; exact (Hkids _ o Ho).
      * intros a Ha. destruct (Hov a Ha) as (o & Ho & Hoo).
        destruct (decide (p = a)) as [->|Hne].
        -- exists (add_text txt o). rewrite list_lookup_alter_eq, Ho.
           split; [reflexivity | exact Hoo].
        -- exists o. rewrite list_lookup_alter_ne by exact Hne. split; assumption.
      * apply Hsame. exact Hsorted.
      * exact Habove.
      * intros t rest' [= <- <-]. destruct (Htop p rest eq_refl) as (o & Ho & Hnone).
        exists (add_text txt o). rewrite list_lookup_alter_eq, Ho.
        split; [reflexivity | exact Hnone].
Qed.

Lemma build_loop_nested (blocks : list (string * string)) :
  forall k st, in_document_order st -> nested k st ->
  exists k', nested k' (fold_left build_step blocks st).
Proof.
  induction blocks as [|b blocks IH]; intros k st Horder Hnested; simpl.
  - exists k. exact Hnested.
  - destruct (build_step_nested k st b Horder Hnested) as [k1 Hk1].
    exact (IH k1 _ (build_step_order st b Horder) Hk1).
Qed.

(** The same on the sections read back. *)
Definition sibling_levels (s1 s2 : Section) : Prop := (level s2 <= level s1)%Z.

Definition root_levels (r1 r2 : Section) : Prop :=
  (level r2 <= level r1)%Z
  \/ (level r1 = 1%Z /\ title r1 = "Overview" /\ children r1 = []).

Lemma sorted_Forall2 {A B : Type} (P : A -> B -> Prop) (R : relation A) (R' : relation B)
    (l1 : list A) (l2 : list B) :
  Forall2 P l1 l2 ->
  (forall a b s t, P a s -> P b t -> R a b -> R' s t) ->
  StronglySorted R l1 -> StronglySorted R' l2.
Proof.
  intros Hall Himp. induction Hall as [|a s l1 l2 Has Hall IH]; intros Hs; [constructor|].
  apply StronglySorted_cons in Hs as [Ha Hs]. constructor; [exact (IH Hs)|].
  rewrite Forall_forall in Ha. apply Forall_forall. intros t Ht.
  apply list_elem_of_lookup in Ht as [i Hi].
  destruct (Forall2_lookup_r _ _ _ _ _ Hall Hi) as (b & Hb & Hbt).
  apply (Himp a b s t Has Hbt). apply Ha. apply list_elem_of_lookup. exists i. exact Hb.
Qed.

Lemma sorted_all {A : Type} (R : relation A) (l : list A) :
  (forall a b, a ∈ l -> R a b) -> StronglySorted R l.
Proof.
  induction l as [|a l IH]; intros Hall; constructor.
  - apply IH. intros x y Hx. apply Hall. right. exact Hx.
  - apply Forall_forall. intros b _. apply Hall. left.
Qed.

Lemma sorted_weaken {A : Type} (R R' : relation A) (l : list A) :
  (forall a b, R a b -> R' a b) -> StronglySorted R l -> StronglySorted R' l.
Proof.
  intros Himp Hs. induction Hs as [|a l _ IH Ha]; constructor; [exact IH|].
  rewrite Forall_forall in Ha |- *. intros b Hb. exact (Himp a b (Ha b Hb)).
Qed.

Lemma read_section_level_at (h : list Obj) (n a : nat) (s : Section) :
  read_section n h a = Some s -> level s = level_at h a.
Proof.
  intros Hs. destruct (read_section_level h n a s Hs) as (o & Ho & ->).
  unfold level_at. rewrite Ho. reflexivity.
Qed.

Lemma read_section_siblings (h : list Obj) :
  (forall a o, h !! a = Some o -> StronglySorted (not_deeper h) (o_children o)) ->
  forall n a s, read_section n h a = Some s ->
  forall S, S ∈ subsections s -> StronglySorted sibling_levels (children S).
Proof.
  intros Hkids. induction n as [|n IH]; intros a s Hs S HS; [discriminate Hs|].
  simpl in Hs. destruct (h !! a) as [o|] eqn:Ho; [|discriminate Hs].
  destruct (mapM (read_section n h) (o_children o)) as [cs|] eqn:Hcs; [|discriminate Hs].
  injection Hs as <-. apply mapM_Some_1 in Hcs.
  simpl in HS. apply elem_of_cons in HS as [-> | HS].
  - simpl. apply (sorted_Forall2 _ (not_deeper h) _ _ _ Hcs); [|exact (Hkids a o Ho)].
    intros c1 c2 s1 s2 H1 H2 Hle. unfold sibling_levels, not_deeper in *.
    rewrite (read_section_level_at _ _ _ _ H1), (read_section_level_at _ _ _ _ H2).
    exact Hle.
  - apply list_elem_of_In, in_flat_map in HS as [c' [Hc' HS]].
    apply list_elem_of_In in Hc', HS.
    apply list_elem_of_lookup in Hc' as [i Hi].
    destruct (Forall2_lookup_r _ _ _ _ _ Hcs Hi) as [c [Hc Hread]].
    exact (IH c c' Hread S HS).
Qed.

Lemma read_overview_obj (h : list Obj) (n a : nat) (o : Obj) (s : Section) :
  h !! a = Some o -> is_overview o -> read_section n h a = Some s ->
  level s = 1%Z /\ title s = "Overview" /\ children s = [].
Proof.
  intros Ho (Hl & Ht & Hc). destruct n as [|n]; simpl; [discriminate|].
  rewrite Ho, Hc. simpl. intros [= <-]. simpl. tauto.
Qed.

(** X23. In the forest that [build_sections] returns a later child of a
    section never has a greater level than an earlier child of it, at
    any depth; and a later root never has a greater level than an earlier
    root, unless the earlier root is a childless level-1 ["Overview"]
    section. *)
Theorem build_sections_nesting (blocks : list (string * string)) :
  exists forest,
    build_sections blocks = Some forest
    /\ (forall root S, root ∈ forest -> S ∈ subsections root ->
          StronglySorted sibling_levels (children S))
    /\ StronglySorted root_levels forest.
Proof.
  unfold build_sections, build_loop.
  assert (Hinv : in_document_order (mkBuildState [] [] [])).
  { split; [|split; [reflexivity | exact I]].
    split; [|split]; simpl.
    - intros a o c Ha. rewrite lookup_nil in Ha. discriminate Ha.
    - intros a Ha. inversion Ha.
    - intros a Ha. inversion Ha. }
  destruct (build_loop_nested blocks 0 (mkBuildState [] [] []) Hinv) as [k Hnested].
  { split; [|split; [|split; [|split; [|split; [|split]]]]]; simpl.
    - intros a o Ha. rewrite lookup_nil in Ha. discriminate Ha.
    - reflexivity.
    - intros a Ha. lia.
    - constructor.
    - intros a Ha. inversion Ha.
    - intros _. split; reflexivity.
    - discriminate. }
  pose proof (build_loop_order blocks _ Hinv) as Horder.
  set (st := fold_left build_step blocks (mkBuildState [] [] [])) in *.
  destruct Horder as ((Hheap & Hroot & _) & _ & _).
  destruct Hnested as (Hkids & Htake & Hov & Hsorted & _).
  destruct (mapM_is_Some (read_section (length (bs_heap st)) (bs_heap st)) (bs_root st))
    as [forest Hforest].
  - intros a Ha. apply read_section_total; [exact Hheap | apply Hroot; exact Ha | lia].
  - exists forest. split; [exact Hforest|]. apply mapM_Some_1 in Hforest. split.
    + intros root S Hr HS. apply list_elem_of_lookup in Hr as [i Hi].
      destruct (Forall2_lookup_r _ _ _ _ _ Hforest Hi) as [a [_ Hread]].
      exact (read_section_siblings _ Hkids _ _ _ Hread S HS).
    + apply (sorted_Forall2 _
               (fun r1 r2 => not_deeper (bs_heap st) r1 r2
                             \/ exists o, bs_heap st !! r1 = Some o /\ is_overview o)
               _ _ _ Hforest).
      * intros r1 r2 s1 s2 H1 H2 [Hle | (o & Ho & Hoo)].
        -- left. unfold not_deeper in Hle.
           rewrite (read_section_level_at _ _ _ _ H1), (read_section_level_at _ _ _ _ H2).
           exact Hle.
        -- right. exact (read_overview_obj _ _ _ _ _ Ho Hoo H1).
      * rewrite <- (firstn_skipn k (bs_root st)), Htake.
        apply StronglySorted_app. split; [|split].
        -- intros r1 r2 Hr1 _. right. apply Hov.
           apply list_elem_of_In, in_seq in Hr1. lia.
        -- apply sorted_all. intros r1 r2 Hr1. right. apply Hov.
           apply list_elem_of_In, in_seq in Hr1. lia.
        -- apply (sorted_weaken (not_deeper (bs_heap st))); [|exact Hsorted].
           intros r1 r2 Hle. left. exact Hle.
Qed.

(** ** Words and case *)

(** A word: not empty, and without whitespace. *)
Definition is_word (w : string) : Prop :=
  Py.is_empty w = false /\ Py.string_forall (fun c => negb (Py.isspace c)) w = true.

Lemma string_app_nil_r (s : string) : s +:+ "" = s.
Proof. induction s as [|c s IH]; [reflexivity|]. rewrite string_app_cons, IH. reflexivity. Qed.

Lemma string_forall_app (p : ascii -> bool) (a b : string) :
  Py.string_forall p (a +:+ b) = Py.string_forall p a && Py.string_forall p b.
Proof.
  induction a as [|c a IH]; [reflexivity|].
  rewrite string_app_cons. simpl. rewrite IH, andb_assoc. reflexivity.
Qed.

Lemma split_from_words (s : string) :
  forall cur,
  Py.string_forall (fun c => negb (Py.isspace c)) cur = true ->
  Forall is_word (Py.split_from cur s).
Proof.
  induction s as [|c s IH]; intros cur Hcur; simpl.
  - destruct (Py.is_empty cur) eqn:He; constructor; [|constructor]. split; assumption.
  - destruct (Py.isspace c) eqn:Hc.
    + destruct (Py.is_empty cur) eqn:He; [apply IH; reflexivity|].
      constructor; [split; assumption | apply IH; reflexivity].
    + apply IH. rewrite string_forall_app, Hcur. simpl. rewrite Hc. reflexivity.
Qed.

Lemma split_from_word (w s : string) :
  Py.string_forall (fun c => negb (Py.isspace c)) w = true ->
  forall cur, Py.split_from cur (w +:+ s) = Py.split_from (cur +:+ w) s.
Proof.
  induction w as [|c w IH]; intros Hw cur.
  - rewrite string_app_nil_r. reflexivity.
  - simpl in Hw. apply andb_true_iff in Hw as [Hc Hw].
    rewrite string_app_cons. simpl. apply negb_true_iff in Hc. rewrite Hc.
    rewrite (IH Hw), string_app_assoc. reflexivity.
Qed.

Lemma string_app_nil_l (s : string) : "" +:+ s = s.
Proof. reflexivity. Qed.

Lemma split_join (ws : list string) :
  Forall is_word ws -> Py.split (Py.join " " ws) = ws.
Proof.
  unfold Py.split, Py.join. induction 1 as [|w ws [Hne Hw] Hws IH]; [reflexivity|].
  destruct ws as [|w2 ws].
  - cbn [String.concat]. rewrite <- (string_app_nil_r w) at 1.
    rewrite (split_from_word w "" Hw ""), string_app_nil_l.
    cbn [Py.split_from]. rewrite Hne. reflexivity.
  - change (String.concat " " (w :: w2 :: ws))
      with (w +:+ " " +:+ String.concat " " (w2 :: ws)).
    rewrite (split_from_word w _ Hw ""), string_app_nil_l.
    change (" " +:+ String.concat " " (w2 :: ws))
      with (String " " (String.concat " " (w2 :: ws))).
    cbn [Py.split_from]. change (Py.isspace " ") with true. cbn iota.
    rewrite Hne, IH. reflexivity.
Qed.

Lemma lower_char_space (c : ascii) : Py.isspace (Py.lower_char c) = Py.isspace c.
Proof. destruct c as [[] [] [] [] [] [] [] []]; reflexivity. Qed.

Lemma lower_char_twice (c : ascii) : Py.lower_char (Py.lower_char c) = Py.lower_char c.
Proof. destruct c as [[] [] [] [] [] [] [] []]; reflexivity. Qed.

Lemma lower_twice (s : string) : Py.lower (Py.lower s) = Py.lower s.
Proof.
  induction s as [|c s IH]; [reflexivity|].
  cbn [Py.lower]. rewrite lower_char_twice, IH. reflexivity.
Qed.

Lemma lower_app (a b : string) : Py.lower (a +:+ b) = Py.lower a +:+ Py.lower b.
Proof.
  induction a as [|c a IH]; [reflexivity|].
  rewrite string_app_cons. cbn [Py.lower]. rewrite IH, string_app_cons. reflexivity.
Qed.

Lemma is_empty_lower (s : string) : Py.is_empty (Py.lower s) = Py.is_empty s.
Proof. destruct s; reflexivity. Qed.

Lemma split_from_lower (s : string) :
  forall cur,
  Py.split_from (Py.lower cur) (Py.lower s) = map Py.lower (Py.split_from cur s).
Proof.
  induction s as [|c s IH]; intros cur; cbn [Py.lower Py.split_from].
  - rewrite is_empty_lower. destruct (Py.is_empty cur); reflexivity.
  - rewrite lower_char_space, is_empty_lower. destruct (Py.isspace c).
    + destruct (Py.is_empty cur); cbn [map]; rewrite <- (IH ""); reflexivity.
    + rewrite <- IH, lower_app. reflexivity.
Qed.

Lemma join_lower (ws : list string) :
  Py.lower (Py.join " " ws) = Py.join " " (map Py.lower ws).
Proof.
  unfold Py.join. induction ws as [|w ws IH]; [reflexivity|].
  destruct ws as [|w2 ws]; [reflexivity|].
  change (String.concat " " (w :: w2 :: ws))
    with (w +:+ " " +:+ String.concat " " (w2 :: ws)).
  change (String.concat " " (map Py.lower (w :: w2 :: ws)))
    with (Py.lower w +:+ " " +:+ String.concat " " (map Py.lower (w2 :: ws))).
  rewrite !lower_app, IH. reflexivity.
Qed.

(** X24. [normalize_title] is idempotent and ignores the case of the
    letters, and its result has the words of the lower-cased title. *)
Theorem normalize_title_idempotent (t : string) :
  normalize_title (normalize_title t) = normalize_title t
  /\ normalize_title (Py.lower t) = normalize_title t
  /\ Py.split (normalize_title t) = Py.split (Py.lower t).
Proof.
  assert (Hwords : Forall is_word (Py.split (Py.lower t)))
    by (apply split_from_words; reflexivity).
  assert (Hsplit : Py.split (normalize_title t) = Py.split (Py.lower t))
    by (apply split_join; exact Hwords).
  assert (Hlower : map Py.lower (Py.split (Py.lower t)) = Py.split (Py.lower t)).
  { unfold Py.split. rewrite <- (split_from_lower (Py.lower t) ""), lower_twice.
    reflexivity. }
  split; [|split; [|exact Hsplit]].
  - unfold normalize_title at 1. unfold normalize_title at 1.
    rewrite join_lower, Hlower. fold (normalize_title t). rewrite Hsplit. reflexivity.
  - unfold normalize_title. rewrite lower_twice. reflexivity.
Qed.

(** ** Grouping the sections of a page *)

Definition valid_sections (sections : list Section) : list Section :=
  List.filter (fun s => is_valid_module_title (title s)) sections.

Definition titled (t : string) (s : Section) : bool := String.eqb (title s) t.

Lemma infer_from_sections_fold (sections : list Section) :
  forall acc : list (string * list Section),
  let grouped :=
    fold_left
      (fun grouped section =>
         if negb (is_valid_module_title (title section)) then grouped
         else alist_extend (title section) [section] grouped)
      sections acc in
  map fst grouped
  = map fst acc ++ dedupe_loop (list_to_set (map fst acc))
                               (map title (valid_sections sections))
  /\ forall t, alist_get t grouped
               = alist_get t acc ++ List.filter (titled t) (valid_sections sections).
Proof.
  induction sections as [|s sections IH]; intros acc; cbn [fold_left].
  - simpl. rewrite app_nil_r. split; [reflexivity|].
    intros t. rewrite app_nil_r. reflexivity.
  - unfold valid_sections. cbn [List.filter].
    destruct (is_valid_module_title (title s)) eqn:Hvalid; cbn [negb].
    + destruct (IH (alist_extend (title s) [s] acc)) as [IH1 IH2]. split.
      * rewrite IH1. unfold alist_extend. rewrite alist_update_keys. cbn [map dedupe_loop].
        destruct (bool_decide (title s ∈ map fst acc)) eqn:Hk.
        -- apply bool_decide_eq_true_1 in Hk.
           rewrite decide_True by (apply elem_of_list_to_set; exact Hk). reflexivity.
        -- apply bool_decide_eq_false_1 in Hk.
           rewrite decide_False by (rewrite elem_of_list_to_set; exact Hk).
           rewrite <- app_assoc. simpl. f_equal. f_equal. f_equal.
           apply set_eq. intros x.
           rewrite elem_of_list_to_set, elem_of_app, list_elem_of_singleton,
             elem_of_union, elem_of_singleton, elem_of_list_to_set. tauto.
      * intros t. rewrite IH2, alist_extend_get. cbn [List.filter]. unfold titled at 2.
        rewrite (String.eqb_sym (title s) t).
        destruct (String.eqb_spec t (title s)) as [->|Hne];
          [rewrite <- app_assoc|]; reflexivity.
    + exact (IH acc).
Qed.

(** X26. [infer_from_sections] groups the sections that have a valid
    title by their exact title: the keys are the valid titles in the
    order of their first occurrence, and the group of a title holds the
    sections of that title in their order. *)
Theorem infer_from_sections_groups (sections : list Section) (source_url : string) :
  let grouped := infer_from_sections sections source_url in
  map fst grouped = dedupe_preserve_order (map title (valid_sections sections))
  /\ forall t, alist_get t grouped = List.filter (titled t) (valid_sections sections).
Proof.
  destruct (infer_from_sections_fold sections []) as [Hkeys Hvalues].
  split; [exact Hkeys | exact Hvalues].
Qed.

(** ** The endpoint *)

Section ApiProperties.

Variable ratio : string -> string -> float.
Variable html_blocks : string -> result (list (string * string)).
Variable Net : Type.
Variable http_get : Net -> string -> Net * option Response.
Variable Disk : Type.
Variable disk_get : Disk -> string -> option Page.
Variable disk_set : Disk -> string -> Page -> Disk.
Variable anchor_hrefs : string -> option (list string).
Variable is_same_domain : string -> string -> bool.
Variable valid_netloc : string -> bool.
Variable open_cache : result Disk.

Local Notation endpoint :=
  (extract_modules ratio html_blocks Net http_get Disk disk_get disk_set anchor_hrefs
                   is_same_domain valid_netloc open_cache).

Lemma count_submodules_sum (ms : list Module_) :
  forall total,
  fold_left (fun total m => (total + Z.of_nat (length (submodules m)))%Z) ms total
  = (total + Z.of_nat (length (concat (map submodules ms))))%Z.
Proof.
  induction ms as [|m ms IH]; intros total; simpl; [lia|].
  rewrite IH, length_app. lia.
Qed.

(** X27. The endpoint never answers with status 400: the exception it
    raises for an empty list of URLs is caught by its own handler and
    leaves as status 500, like every other failure.  A [max_pages] or
    [max_depth] of 0 counts as absent and becomes 40 or 3.  When the
    cache directory can be opened, the answer does not depend on
    [use_cache]: the flag does not reach [run_extraction].  And the
    statistics of a response count its modules, their submodules, and
    the URLs of the request. *)
Theorem extract_modules_answers (request : ExtractionRequest) (fuel : nat) (n : Net) :
  (forall status, extract_modules ratio html_blocks Net http_get Disk disk_get disk_set
                    anchor_hrefs is_same_domain valid_netloc open_cache request fuel n
                  = Some (HTTPException status) -> status = 500%Z)
  /\ (req_urls request = [] -> endpoint request fuel n = Some (HTTPException 500))
  /\ endpoint (mkExtractionRequest (req_urls request) (Some 0%Z) (Some 0%Z)
                                   (req_use_cache request)) fuel n
     = endpoint (mkExtractionRequest (req_urls request) None None
                                     (req_use_cache request)) fuel n
  /\ endpoint (mkExtractionRequest (req_urls request) None None
                                   (req_use_cache request)) fuel n
     = endpoint (mkExtractionRequest (req_urls request) (Some 40%Z) (Some 3%Z)
                                     (req_use_cache request)) fuel n
  /\ (forall d flag, open_cache = Ok d ->
        endpoint (mkExtractionRequest (req_urls request) (req_max_pages request)
                                      (req_max_depth request) flag) fuel n
        = endpoint request fuel n)
  /\ (forall response, endpoint request fuel n = Some (Returned response) ->
        total_modules (response_stats response)
        = Z.of_nat (length (response_modules response))
        /\ total_submodules (response_stats response)
           = Z.of_nat (length (concat (map submodules (response_modules response))))
        /\ urls_processed (response_stats response)
           = Z.of_nat (length (req_urls request))).
Proof.
  split; [|split; [|split; [|split; [|split]]]].
  - intros status. unfold extract_modules.
    destruct (extract_modules_body ratio html_blocks Net http_get Disk disk_get
                disk_set anchor_hrefs is_same_domain valid_netloc open_cache
                request fuel n)
      as [[response | raised]|]; [discriminate | | discriminate].
    intros [= <-]. reflexivity.
  - intros Hnone. unfold extract_modules, extract_modules_body. rewrite Hnone. reflexivity.
  - reflexivity.
  - reflexivity.
  - intros d flag Hopen. destruct request as [urls mp md uc].
    unfold extract_modules, extract_modules_body.
    cbn [req_urls req_max_pages req_max_depth req_use_cache].
    rewrite Hopen. destruct urls as [|u urls]; [reflexivity|].
    destruct (truthy flag), (truthy uc); reflexivity.
  - intros response. unfold extract_modules, extract_modules_body.
    destruct (req_urls request) as [|u urls] eqn:Hurls; [discriminate|].
    destruct (if truthy (req_use_cache request) then _ else _); [|discriminate].
    match goal with
    | |- context [run_extraction ?a ?b ?c ?d ?e ?f ?g ?h ?i ?j ?k ?l ?m ?o ?p ?q ?r] =>
        destruct (run_extraction a b c d e f g h i j k l m o p q r) as [extraction|];
          [|discriminate]
    end.
    intros [= <-]. cbn [response_stats response_modules total_modules
                        total_submodules urls_processed].
    split; [reflexivity|]. split; [|reflexivity].
    unfold count_submodules. rewrite count_submodules_sum. reflexivity.
Qed.

End ApiProperties.

Lemma extract_modules_answers_witness :
  sample_api (mkExtractionRequest [] (Some 5%Z) (Some 1%Z) (Some true)) 10
  = Some (HTTPException 500)
  /\ sample_api (mkExtractionRequest ["https://example.com/users"] (Some 5%Z) (Some 1%Z)
                                     (Some false)) 10
     = sample_api (mkExtractionRequest ["https://example.com/users"] (Some 5%Z) (Some 1%Z)
                                       (Some true)) 10.
Proof.
  split.
  - apply (proj1 (proj2 (extract_modules_answers Difflib.ratio sample_blocks unit
                           sample_http_get unit no_disk_get no_disk_set
                           sample_anchor_hrefs same_host balanced_brackets (Ok tt)
                           (mkExtractionRequest [] (Some 5%Z) (Some 1%Z) (Some true))
                           10 tt))).
    reflexivity.
  - apply (proj1 (proj2 (proj2 (proj2 (proj2
             (extract_modules_answers Difflib.ratio sample_blocks unit
                sample_http_get unit no_disk_get no_disk_set
                sample_anchor_hrefs same_host balanced_brackets (Ok tt)
                (mkExtractionRequest ["https://example.com/users"] (Some 5%Z) (Some 1%Z)
                                     (Some true))
                10 tt))))) tt (Some false)).
    reflexivity.
Defined.

(** ** The levels of the sections of a page *)

Lemma level_map_range (tag : string) (lvl : Z) :
  level_map tag = Some lvl -> (1 <= lvl <= 4)%Z.
Proof.
  unfold level_map.
  destruct (String.eqb tag "h1"); [intros [= <-]; lia|].
  destruct (String.eqb tag "h2"); [intros [= <-]; lia|].
  destruct (String.eqb tag "h3"); [intros [= <-]; lia|].
  destruct (String.eqb tag "h4"); [intros [= <-]; lia | discriminate].
Qed.

Lemma title_source_range (blocks : list (string * string)) (lvl : Z) (t : string) :
  title_source blocks lvl t -> (1 <= lvl <= 4)%Z.
Proof.
  intros [(tag & _ & Htag) | [_ ->]]; [exact (level_map_range tag lvl Htag) | lia].
Qed.

Lemma read_section_sources (blocks : list (string * string)) (h : list Obj) :
  titles_ok blocks h ->
  forall n a s, read_section n h a = Some s ->
  forall S, S ∈ subsections s -> title_source blocks (level S) (title S).
Proof.
  intros Hh. induction n as [|n IH]; intros a s Hs S HS; [discriminate Hs|].
  simpl in Hs. destruct (h !! a) as [o|] eqn:Ho; [|discriminate Hs].
  destruct (mapM (read_section n h) (o_children o)) as [cs|] eqn:Hcs; [|discriminate Hs].
  injection Hs as <-. apply mapM_Some_1 in Hcs.
  simpl in HS. apply elem_of_cons in HS as [-> | HS].
  - simpl. exact (Hh a o Ho).
  - apply list_elem_of_In, in_flat_map in HS as [c' [Hc' HS]].
    apply list_elem_of_In in Hc', HS.
    apply list_elem_of_lookup in Hc' as [i Hi].
    destruct (Forall2_lookup_r _ _ _ _ _ Hcs Hi) as [c [Hc Hread]].
    exact (IH c c' Hread S HS).
Qed.

(** Every section of the forest, at any depth, is titled by a heading
    block of its level or is a synthetic ["Overview"] section. *)
Lemma build_sections_sources (blocks : list (string * string)) (forest : list Section)
    (root S : Section) :
  build_sections blocks = Some forest -> root ∈ forest -> S ∈ subsections root ->
  title_source blocks (level S) (title S).
Proof.
  unfold build_sections, build_loop. intros Hforest Hroot HS.
  apply mapM_Some_1 in Hforest.
  apply list_elem_of_lookup in Hroot as [i Hi].
  destruct (Forall2_lookup_r _ _ _ _ _ Hforest Hi) as [a [_ Hread]].
  refine (read_section_sources blocks _ _ _ _ _ Hread S HS).
  apply (build_loop_titles blocks blocks _ (fun b Hb => Hb)).
  intros a' o' Ha'. simpl in Ha'. rewrite lookup_nil in Ha'. discriminate Ha'.
Qed.

Lemma subsections_self (s : Section) : s ∈ subsections s.
Proof. destruct s. simpl. left. Qed.

Lemma subsections_child (s child : Section) : child ∈ children s -> child ∈ subsections s.
Proof.
  intros Hchild. destruct s as [l t x cs]. simpl in *. right.
  apply list_elem_of_In, in_flat_map. exists child.
  split; [apply list_elem_of_In; exact Hchild|].
  apply list_elem_of_In, subsections_self.
Qed.

(** Children lie deeper than their parent, at any depth of the forest. *)
Lemma build_sections_deeper (blocks : list (string * string)) (forest : list Section)
    (root S C : Section) :
  build_sections blocks = Some forest -> root ∈ forest -> S ∈ subsections root ->
  C ∈ children S -> (level S < level C)%Z.
Proof.
  unfold build_sections, build_loop. intros Hforest Hroot HS HC.
  assert (Hok : state_ok (fold_left build_step blocks (mkBuildState [] [] []))).
  { apply build_loop_ok. split; [|split]; simpl.
    - intros a o c Ha. rewrite lookup_nil in Ha. discriminate Ha.
    - intros a Ha. inversion Ha.
    - intros a Ha. inversion Ha. }
  destruct Hok as (Hh & _ & _).
  apply mapM_Some_1 in Hforest.
  apply list_elem_of_lookup in Hroot as [i Hi].
  destruct (Forall2_lookup_r _ _ _ _ _ Hforest Hi) as [a [_ Hread]].
  exact (read_section_nested _ Hh _ _ _ Hread S C HS HC).
Qed.

Section LevelFilter.

Variable ratio : string -> string -> float.
Variable html_blocks : string -> result (list (string * string)).

(** X28. In [infer_modules] the test [child.level <= 4] never rejects a
    child: the children of the sections filed under a module have a
    level from 2 to 4, so the submodules of a module are built from all
    the children with a valid title, the first child of each title. *)
Theorem infer_modules_level_filter (pages : list (string * string))
    (ms : list Module_) (m : Module_) :
  infer_modules ratio html_blocks pages = Ok ms -> m ∈ ms ->
  (forall s child, s ∈ contributing ratio html_blocks pages (name m) ->
                   child ∈ children s -> (2 <= level child <= 4)%Z)
  /\ submodules m
     = map (submodule_of (source_urls m))
           (dedup_first
              (List.filter (fun child => is_valid_module_title (title child))
                 (concat (map children (contributing ratio html_blocks pages (name m)))))).
Proof.
  intros Hinfer Hm.
  assert (Hlevels : forall s child,
            s ∈ contributing ratio html_blocks pages (name m) ->
            child ∈ children s -> (2 <= level child <= 4)%Z).
  { intros s child Hs Hchild.
    apply contributing_candidates in Hs as [_ (u & html & sections & _ & Hex & Hin & _)].
    unfold extract_sections in Hex.
    destruct (html_blocks html) as [blocks|]; [|discriminate Hex]. cbn [rbind] in Hex.
    destruct (build_sections blocks) as [forest|] eqn:Hforest; [|discriminate Hex].
    injection Hex as ->.
    pose proof (subsections_self s) as Hself.
    pose proof (subsections_child s child Hchild) as Hsub.
    pose proof (title_source_range _ _ _
                  (build_sections_sources blocks sections s child Hforest Hin Hsub)) as Hc.
    pose proof (title_source_range _ _ _
                  (build_sections_sources blocks sections s s Hforest Hin Hself)) as Hs.
    pose proof (build_sections_deeper blocks sections s s child Hforest Hin Hself Hchild)
      as Hdeep.
    lia. }
  split; [exact Hlevels|].
  destruct (infer_modules_elem ratio html_blocks pages ms m Hinfer Hm)
    as (srcs & top & rest & Hsecs & Hmod & _).
  pose proof (f_equal submodules Hmod) as Hsub.
  pose proof (f_equal source_urls Hmod) as Hurl.
  cbn [module_of submodules source_urls] in Hsub, Hurl. rewrite Hsub, Hurl.
  f_equal. f_equal. rewrite <- Hsecs. unfold submodule_candidates.
  apply filter_ext_in. intros child Hchild. unfold eligible.
  apply in_concat in Hchild as (l & Hl & Hchild).
  apply in_map_iff in Hl as (s & <- & Hs).
  destruct (Hlevels s child) as [_ Hle];
    [apply list_elem_of_In; exact Hs | apply list_elem_of_In; exact Hchild|].
  apply Z.leb_le in Hle. rewrite Hle. reflexivity.
Qed.

End LevelFilter.

Lemma infer_modules_level_filter_witness :
  (forall s child,
     s ∈ contributing Difflib.ratio sample_blocks sample_pages (name sample_module) ->
     child ∈ children s -> (2 <= level child <= 4)%Z)
  /\ submodules sample_module
     = map (submodule_of (source_urls sample_module))
           (dedup_first
              (List.filter (fun child => is_valid_module_title (title child))
                 (concat (map children
                    (contributing Difflib.ratio sample_blocks sample_pages
                                  (name sample_module)))))).
Proof.
  exact (infer_modules_level_filter Difflib.ratio sample_blocks sample_pages
           [sample_module] sample_module sample_inference sample_module_inferred).
Defined.

(** ** No candidate is lost *)

Section Complete.

Variable ratio : string -> string -> float.
Variable html_blocks : string -> result (list (string * string)).

(** X29. [infer_modules] loses no candidate: a top-level section of a
    page that has a valid title and a level of at most 2 contributes to
    a returned module, the one named by the canonical title of the
    section's title, and the URL of the page is among the source URLs
    of that module. *)
Theorem infer_modules_complete (pages : list (string * string)) (ms : list Module_)
    (u : string) (s : Section) :
  infer_modules ratio html_blocks pages = Ok ms ->
  candidate html_blocks pages u s ->
  exists m, m ∈ ms
            /\ title_mapping_of ratio html_blocks pages !! title s = Some (name m)
            /\ s ∈ contributing ratio html_blocks pages (name m)
            /\ u ∈ source_urls m.
Proof.
  intros Hinfer Hcand.
  destruct (candidate_key html_blocks pages u s Hcand) as [Hkey _].
  assert (Hmap : is_Some (title_mapping_of ratio html_blocks pages !! title s)).
  { apply (merge_similar_titles_ok ratio). exact Hkey. }
  destruct Hmap as [c Hmap].
  assert (Hs : s ∈ contributing ratio html_blocks pages c).
  { apply contributing_candidates. split; [exact Hmap | exists u; exact Hcand]. }
  assert (Hu : u ∈ aggregated ratio html_blocks pages c).
  { apply aggregated_candidates. exists s. split; assumption. }
  revert Hinfer Hkey Hmap Hs Hu.
  unfold infer_modules, contributing, aggregated, title_mapping_of.
  destruct pages as [|p pages];
    [destruct Hcand as (h & secs & Hin & _); inversion Hin|].
  set (g := gather html_blocks (p :: pages)).
  destruct (module_sections g) as [|e es] eqn:Hms; [intros _ Hkey; inversion Hkey|].
  set (mapping := merge_similar_titles ratio (map fst (e :: es)) 0.8).
  destruct (reorganize mapping (section_sources g) (e :: es) (mkMerged [] ∅))
    as [mm|] eqn:Hre; simpl; [|discriminate].
  intros [= <-] Hkey Hmap Hs Hu.
  destruct (reorganize_spec _ _ _ _ _ Hre) as (Hnd & Hget & Hsrc & Hkeys).
  { simpl. apply NoDup_nil_2. }
  simpl in Hget, Hsrc, Hkeys.
  assert (Hc : c ∈ map fst (merged_modules mm)).
  { apply Hkeys. right. apply elem_of_contributing in Hs as (orig & secs & Hin & Ho & _).
    exists orig, secs. split; assumption. }
  rewrite <- Hget in Hs.
  destruct (alist_get c (merged_modules mm)) as [|top rest] eqn:Hsecs; [inversion Hs|].
  pose proof (alist_key_entry c _ Hc) as Hentry. rewrite Hsecs in Hentry.
  exists (module_of (merged_sources mm) c top rest).
  split; [|split; [|split]].
  - apply sort_by_confidence_elem, build_modules_elem. right.
    exists c, top, rest. split; [exact Hentry | reflexivity].
  - exact Hmap.
  - simpl. rewrite <- Hget, Hsecs. exact Hs.
  - simpl.
    assert (Hset : u ∈ (list_to_set (source_list (merged_sources mm) c) : gset string)).
    { rewrite source_list_set, Hsrc. unfold sources_of at 1. rewrite lookup_empty. simpl.
      rewrite union_empty_l_L. exact Hu. }
    apply elem_of_list_to_set in Hset. exact Hset.
Qed.

End Complete.

Definition sample_admin_section : Section :=
  mkSection 1 "Users Management" "Accounts of the team."
    [mkSection 2 "Delete User" "How to delete a user." [];
     mkSection 2 "Create User" "Another way to create one." []].

Lemma sample_admin_candidate :
  candidate sample_blocks sample_pages "https://example.com/admin" sample_admin_section.
Proof.
  exists page_admin, [sample_admin_section].
  split; [right; left|]. split; [reflexivity|]. split; [left|].
  split; [reflexivity | simpl; lia].
Qed.

Lemma infer_modules_complete_witness :
  exists m, m ∈ [sample_module]
            /\ title_mapping_of Difflib.ratio sample_blocks sample_pages
                 !! title sample_admin_section = Some (name m)
            /\ sample_admin_section
                 ∈ contributing Difflib.ratio sample_blocks sample_pages (name m)
            /\ "https://example.com/admin" ∈ source_urls m.
Proof.
  exact (infer_modules_complete Difflib.ratio sample_blocks sample_pages [sample_module]
           "https://example.com/admin" sample_admin_section
           sample_inference sample_admin_candidate).
Defined.

(** ** A crawl that the page budget does not cut short *)

Section CrawlExhaustive.

Variable Net : Type.
Variable http_get : Net -> string -> Net * option Response.
Variable Disk : Type.
Variable disk_get : Disk -> string -> option Page.
Variable disk_set : Disk -> string -> Page -> Disk.
Variable anchor_hrefs : string -> option (list string).
Variable is_same_domain : string -> string -> bool.
Variable valid_netloc : string -> bool.
Variable max_pages : Z.
Variable max_depth : Z.
Variable allow_cross_domain : bool.

Local Notation State := (CrawlState Net Disk).
Local Notation links_of :=
  (extract_links anchor_hrefs is_same_domain valid_netloc allow_cross_domain).
Local Notation loop :=
  (crawl_loop Net http_get Disk disk_get disk_set anchor_hrefs is_same_domain
              valid_netloc max_pages max_depth allow_cross_domain).
Local Notation step :=
  (crawl_step Net http_get Disk disk_get disk_set anchor_hrefs is_same_domain
              valid_netloc max_depth allow_cross_domain).

(** The loop ends on an empty queue or on a full list of pages. *)
Lemma crawl_loop_ends (fuel : nat) (s s' : State) :
  loop fuel s = Some (Ok s') ->
  queue s' = [] \/ (max_pages <= Z.of_nat (length (pages s')))%Z.
Proof.
  revert s. induction fuel as [|fuel IH]; intros s Hloop; simpl in Hloop.
  - destruct (queue s) as [|[u d] rest] eqn:Hq; [injection Hloop as <-; left; exact Hq|].
    destruct (Z.ltb_spec (Z.of_nat (length (pages s))) max_pages); [discriminate Hloop|].
    injection Hloop as <-. right. assumption.
  - destruct (queue s) as [|[u d] rest] eqn:Hq; [injection Hloop as <-; left; exact Hq|].
    destruct (Z.ltb_spec (Z.of_nat (length (pages s))) max_pages).
    + match type of Hloop with
      | match ?b with _ => _ end = _ => destruct b as [s1|]; [|discriminate Hloop]
      end.
      exact (IH s1 Hloop).
    + injection Hloop as <-. right. assumption.
Qed.

(** A URL at a depth is settled: it is marked, or it waits in the queue
    at that depth, or the depth is beyond the limit. *)
Definition settled (s : State) (x : string) (dx : Z) : Prop :=
  x ∈ visited s \/ (x, dx) ∈ queue s \/ (max_depth < dx)%Z.

Lemma settled_step (s s' : State) (u : string) (d : Z) (rest : list (string * Z))
    (x : string) (dx : Z) :
  settled s x dx -> queue s = (u, d) :: rest ->
  step u d (mkCrawlState rest (visited s) (pages s) (fetched s) (env s)) s' ->
  settled s' x dx.
Proof.
  unfold settled. intros Hx Hq Hstep. rewrite Hq in Hx.
  assert (Hcases : x ∈ visited s \/ (x = u /\ dx = d) \/ (x, dx) ∈ rest
                   \/ (max_depth < dx)%Z).
  { destruct Hx as [Hx | [Hx | Hx]]; [tauto | | tauto].
    apply elem_of_cons in Hx as [[= -> ->] | Hx]; tauto. }
  clear Hx.
  inversion Hstep as [Hskip | parsed Hnew | parsed env' Hnew
                      | parsed env' page links Hnew];
    subst; cbn [visited queue] in *.
  - destruct Hcases as [Hc | [[-> ->] | [Hc | Hc]]]; tauto.
  - destruct Hcases as [Hc | [[-> ->] | [Hc | Hc]]]; try tauto; left; set_solver.
  - destruct Hcases as [Hc | [[-> ->] | [Hc | Hc]]]; try tauto; left; set_solver.
  - destruct Hcases as [Hc | [[-> ->] | [Hc | Hc]]]; try tauto; try (left; set_solver).
    right. left. apply elem_of_app. left. exact Hc.
Qed.

(** X30. A crawl that ends with fewer than [max_pages] pages has left
    nothing out: it has marked every seed as visited (when [max_depth]
    is not negative) and every link that [extract_links] yields for a
    returned page, as long as the link lies within [max_depth]. *)
Theorem crawl_exhaustive (fuel : nat) (roots : list string) (e : Env Net Disk)
    (s : State) :
  loop fuel (crawl_init roots e) = Some (Ok s) ->
  (Z.of_nat (length (pages s)) < max_pages)%Z ->
  (forall root, root ∈ roots -> (0 <= max_depth)%Z -> root ∈ visited s)
  /\ forall i u d page links link,
       fetched s !! i = Some (u, d) -> pages s !! i = Some page ->
       links_of u (html page) = Ok links -> link ∈ links ->
       (d + 1 <= max_depth)%Z -> link ∈ visited s.
Proof.
  intros Hloop Hfew.
  destruct (crawl_loop_ends fuel _ s Hloop) as [Hempty | Hfull]; [|lia].
  assert (Hs : length (fetched s) = length (pages s)
               /\ (forall root, root ∈ roots -> settled s root 0)
               /\ forall i u d page links link,
                    fetched s !! i = Some (u, d) -> pages s !! i = Some page ->
                    links_of u (html page) = Ok links -> link ∈ links ->
                    settled s link (d + 1)).
  { revert Hloop.
    apply (crawl_loop_invariant Net http_get Disk disk_get disk_set anchor_hrefs
             is_same_domain valid_netloc max_pages max_depth allow_cross_domain
             (fun s => length (fetched s) = length (pages s)
                       /\ (forall root, root ∈ roots -> settled s root 0)
                       /\ forall i u d page links link,
                            fetched s !! i = Some (u, d) -> pages s !! i = Some page ->
                            links_of u (html page) = Ok links -> link ∈ links ->
                            settled s link (d + 1))).
    - intros s0 u d rest s' (Hlen & Hroots & Hlinks) Hq Hstep.
      assert (Hkeep : forall x dx, settled s0 x dx -> settled s' x dx).
      { intros x dx Hx. exact (settled_step s0 s' u d rest x dx Hx Hq Hstep). }
      inversion Hstep as [Hskip | parsed Hnew | parsed env' Hnew
                          | parsed env' page links Hnew _ _ _ _ Hpage];
        subst; cbn [fetched pages] in *.
      + split; [exact Hlen|]. split; [intros r Hr; exact (Hkeep r _ (Hroots r Hr))|].
        intros i v dv p ls l Hf Hp Hls Hl. exact (Hkeep l _ (Hlinks i v dv p ls l Hf Hp Hls Hl)).
      + split; [exact Hlen|]. split; [intros r Hr; exact (Hkeep r _ (Hroots r Hr))|].
        intros i v dv p ls l Hf Hp Hls Hl. exact (Hkeep l _ (Hlinks i v dv p ls l Hf Hp Hls Hl)).
      + split; [exact Hlen|]. split; [intros r Hr; exact (Hkeep r _ (Hroots r Hr))|].
        intros i v dv p ls l Hf Hp Hls Hl. exact (Hkeep l _ (Hlinks i v dv p ls l Hf Hp Hls Hl)).
      + split; [rewrite !length_app; simpl; lia|].
        split; [intros r Hr; exact (Hkeep r _ (Hroots r Hr))|].
        intros i v dv p ls l Hf Hp Hls Hl.
        destruct (decide (i < length (fetched s0))) as [Hi|Hi].
        * rewrite lookup_app_l in Hf by exact Hi.
          rewrite lookup_app_l in Hp by (rewrite <- Hlen; exact Hi).
          exact (Hkeep l _ (Hlinks i v dv p ls l Hf Hp Hls Hl)).
        * rewrite lookup_app_r in Hf by lia.
          rewrite lookup_app_r in Hp by lia. rewrite <- Hlen in Hp.
          destruct (i - length (fetched s0)) as [|k]; simpl in Hf, Hp; [|discriminate].
          injection Hf as -> ->. injection Hp as ->.
          rewrite Hpage in Hls. injection Hls as ->.
          unfold settled. cbn [visited queue].
          destruct (decide (l ∈ ({[v]} ∪ visited s0 : gset string))) as [Hseen | Hfresh];
            [left; exact Hseen|].
          right. left. apply elem_of_app. right.
          apply list_elem_of_In, in_map_iff. exists l. split; [reflexivity|].
          apply filter_In. split; [apply list_elem_of_In; exact Hl|].
          rewrite bool_decide_eq_false_2 by exact Hfresh. reflexivity.
    - cbn [crawl_init fetched pages]. split; [reflexivity|]. split.
      + intros r Hr. right. left. cbn [queue].
        apply list_elem_of_In, in_map_iff. exists r.
        split; [reflexivity | apply list_elem_of_In; exact Hr].
      + intros i u d page links link Hf. inversion Hf. }
  destruct Hs as (_ & Hroots & Hlinks). unfold settled in Hroots, Hlinks.
  rewrite Hempty in Hroots, Hlinks. split.
  - intros r Hr Hdepth. destruct (Hroots r Hr) as [H | [H | H]];
      [exact H | inversion H | lia].
  - intros i u d page links link Hf Hp Hls Hl Hdepth.
    destruct (Hlinks i u d page links link Hf Hp Hls Hl) as [H | [H | H]];
      [exact H | inversion H | lia].
Qed.

End CrawlExhaustive.

Lemma crawl_exhaustive_witness :
  (Z.of_nat (length (pages sample_final)) < 40)%Z
  /\ (forall root, root ∈ ["https://example.com/users"] -> (0 <= 3)%Z ->
                   root ∈ visited sample_final)
  /\ forall i u d page links link,
       fetched sample_final !! i = Some (u, d) -> pages sample_final !! i = Some page ->
       extract_links sample_anchor_hrefs same_host balanced_brackets false u (html page)
       = Ok links ->
       link ∈ links -> (d + 1 <= 3)%Z -> link ∈ visited sample_final.
Proof.
  assert (Hfew : (Z.of_nat (length (pages sample_final)) < 40)%Z) by reflexivity.
  split; [exact Hfew|].
  exact (crawl_exhaustive unit sample_http_get unit no_disk_get no_disk_set
           sample_anchor_hrefs same_host balanced_brackets 40 3 false
           10 ["https://example.com/users"] sample_env sample_final sample_run Hfew).
Defined.
